(** * Resume matching pipeline: scoring, fact extraction, embeddings, trace

    A shallow embedding of the pipeline core of the resume builder
    ([src/scoring.py], [src/parsing.py], [src/embeddings.py],
    [src/workflow.py] and the analysis run of [latest.py]) together with
    the properties its specification states about it.

    Conventions.
    - A Python [str] is the list of its code points ([list N]).
    - A Python [float] is a type [F] with the operations the code uses
      (class [PyFloat]).  What is stated of the floats of the program is
      proved in binary64 ([binary64], for any result of [x ** 0.5]), from
      the specification of IEEE 754 arithmetic in [SpecFloat].  What does
      not depend on rounding, or is stated of exact arithmetic, is proved
      at the real numbers and says so.
    - A call that may raise returns a [result]. *)

From Stdlib Require Import ZArith NArith List Bool Reals Lra Lia Permutation.
From Stdlib Require Import Sorted String Ascii.
From Stdlib Require PrimFloat Uint63.
From Stdlib Require Import SpecFloat FloatOps FloatAxioms.
From stdpp Require Import base option list gmap sorting.

(** ** Python values *)

Module Py.

(** Exceptions the modelled code can raise. *)
Inductive exn : Set :=
  | ZeroDivisionError
  | ValueError
  | KeyError
  | IndexError.

Inductive result (A : Type) : Type :=
  | Ok (a : A)
  | Raise (e : exn).
Arguments Ok {A} a.
Arguments Raise {A} e.

Definition bind {A B : Type} (m : result A) (k : A -> result B) : result B :=
  match m with
  | Ok a => k a
  | Raise e => Raise e
  end.

Definition is_ok {A : Type} (m : result A) : bool :=
  match m with Ok _ => true | Raise _ => false end.

(** [[f(x) for x in l]] where [f] may raise: the first exception wins. *)
Fixpoint for_each {A B : Type} (f : A -> result B) (l : list A) : result (list B) :=
  match l with
  | [] => Ok []
  | x :: l' => bind (f x) (fun y => bind (for_each f l') (fun ys => Ok (y :: ys)))
  end.

(** A [str]: its code points. *)
Definition str : Type := list N.

(** The ASCII text of a literal. *)
Definition lit (s : string) : str := List.map N_of_ascii (list_ascii_of_string s).

(** [zip]: stops at the shorter argument. *)
Fixpoint zip {A B : Type} (a : list A) (b : list B) : list (A * B) :=
  match a, b with
  | x :: a', y :: b' => (x, y) :: zip a' b'
  | _, _ => []
  end.

(** [l[:k]]: the first [k] items, and for a negative [k] all but the last
    [-k]. *)
Definition slice_to {A : Type} (l : list A) (k : Z) : list A :=
  if (0 <=? k)%Z then firstn (Z.to_nat k) l
  else firstn (length l - Z.to_nat (- k)) l.

(** The operations of [float] the scoring code uses. *)
Class PyFloat (F : Type) : Type := {
  (** [float(n)] of an [int] *)
  of_int : Z -> F;
  (** the literal [m / 10^k], e.g. [0.7] is [dec 7 1] *)
  dec : Z -> nat -> F;
  fadd : F -> F -> F;
  fmul : F -> F -> F;
  (** the quotient, for a divisor that is not zero *)
  fquot : F -> F -> F;
  (** [x ** 0.5] *)
  fsqrt : F -> F;
  (** [x < y] *)
  fltb : F -> F -> bool;
  (** [x == 0.0], that is [not x] *)
  fzerob : F -> bool
}.

Section FloatOps.
Context {F : Type} `{PyFloat F}.

(** [x / y]: raises on a zero divisor. *)
Definition truediv (x y : F) : result F :=
  if fzerob y then Raise ZeroDivisionError else Ok (fquot x y).

(** [n / m] on [int]s: true division. *)
Definition int_truediv (n m : Z) : result F :=
  if (m =? 0)%Z then Raise ZeroDivisionError else Ok (fquot (of_int n) (of_int m)).

(** [min(x, y)] and [max(x, y)]: the first argument unless the second is
    strictly smaller (larger). *)
Definition fmin (x y : F) : F := if fltb y x then y else x.
Definition fmax (x y : F) : F := if fltb x y then y else x.

(** [x or y] *)
Definition f_or (x y : F) : F := if fzerob x then y else x.

(** [sum(l)]: starts from the [int] 0 and adds from the left. *)
Definition fsum (l : list F) : F := fold_left fadd l (of_int 0).
End FloatOps.

(** The real numbers: arithmetic without rounding. *)
#[export] Instance R_float : PyFloat R := {|
  of_int := IZR;
  dec m k := (IZR m / 10 ^ k)%R;
  fadd := Rplus;
  fmul := Rmult;
  fquot := Rdiv;
  fsqrt := R_sqrt.sqrt;
  fltb x y := if Rlt_dec x y then true else false;
  fzerob x := if Req_dec_T x 0%R then true else false
|}.

(** binary64 with the correctly rounded square root for [x ** 0.5], for
    running the definitions.  The examples take inputs whose roots are
    exact, zero or infinite. *)
#[export] Instance b64_float : PyFloat PrimFloat.float := {|
  of_int := fun n =>
    match n with
    | Z0 => PrimFloat.zero
    | Zpos _ => PrimFloat.of_uint63 (Uint63.of_Z n)
    | Zneg _ => PrimFloat.opp (PrimFloat.of_uint63 (Uint63.of_Z (- n)))
    end;
  dec m k :=
    let num := match m with
               | Zneg _ => PrimFloat.opp (PrimFloat.of_uint63 (Uint63.of_Z (- m)))
               | _ => PrimFloat.of_uint63 (Uint63.of_Z m)
               end in
    PrimFloat.div num (PrimFloat.of_uint63 (Uint63.of_Z (10 ^ Z.of_nat k)));
  fadd := PrimFloat.add;
  fmul := PrimFloat.mul;
  fquot := PrimFloat.div;
  fsqrt := PrimFloat.sqrt;
  fltb := PrimFloat.ltb;
  fzerob x := PrimFloat.eqb x PrimFloat.zero
|}.

(** binary64 as the interpreter computes on it: the four operations and
    the comparisons are those of IEEE 754, while [x ** 0.5] goes through the
    [pow] of the C library, whose last bit is the library's; it is a
    parameter, [pow_half].  [b64_float] is [binary64 PrimFloat.sqrt]. *)
Definition binary64 (pow_half : PrimFloat.float -> PrimFloat.float) :
    PyFloat PrimFloat.float := {|
  of_int := @of_int _ b64_float;
  dec := @dec _ b64_float;
  fadd := PrimFloat.add;
  fmul := PrimFloat.mul;
  fquot := PrimFloat.div;
  fsqrt := pow_half;
  fltb := PrimFloat.ltb;
  fzerob x := PrimFloat.eqb x PrimFloat.zero
|}.

(** [str.lower] is the Unicode library's; the development is parametric in
    it. *)
Class Lower : Type := str_lower : str -> str.

(** [s < t] on [str]: lexicographic on code points. *)
Fixpoint str_ltb (s t : str) : bool :=
  match s, t with
  | _, [] => false
  | [], _ :: _ => true
  | a :: s', b :: t' => (a <? b)%N || ((a =? b)%N && str_ltb s' t')
  end.

(** [sorted(l)] with [lt] for [<].  The sort is stable: an item is put
    behind the items strictly smaller than it, and before every other item
    that follows it in the input.  For [sort(key=f, reverse=True)], which
    is stable as well, [lt x y] is [f(y) < f(x)].

    This is [list.sort] wherever [<] orders the keys, as it does on [str]
    and on floats without NaN: every stable sort returns the same list
    then.  With a NaN among the keys the result of [list.sort] depends on
    the runs and merges it happens to make; the statements about sorted
    floats assume there is none. *)
Fixpoint py_insert {A : Type} (lt : A -> A -> bool) (x : A) (l : list A) : list A :=
  match l with
  | [] => [x]
  | y :: l' => if lt y x then y :: py_insert lt x l' else x :: l
  end.

Definition py_sorted {A : Type} (lt : A -> A -> bool) (l : list A) : list A :=
  fold_right (py_insert lt) [] l.

(** *** Strings *)

Definition chr (a : ascii) : N := N_of_ascii a.

Definition between (lo hi : ascii) (c : N) : bool :=
  (chr lo <=? c)%N && (c <=? chr hi)%N.

Definition one_of (cs : list N) (c : N) : bool :=
  existsb (N.eqb c) cs.

(** The code points at which [str.splitlines] breaks a line: LF, VT, FF,
    CR, FS, GS, RS, NEL, LS and PS. *)
Definition is_linebreak (c : N) : bool :=
  one_of [0x0A; 0x0B; 0x0C; 0x0D; 0x1C; 0x1D; 0x1E; 0x85; 0x2028; 0x2029]%N c.

(** [str.isspace] of one code point, the whitespace of [strip] and
    [split]. *)
Definition is_space (c : N) : bool :=
  ((0x09 <=? c) && (c <=? 0x0D))%N
  || ((0x1C <=? c) && (c <=? 0x20))%N
  || one_of [0x85; 0xA0; 0x1680]%N c
  || ((0x2000 <=? c) && (c <=? 0x200A))%N
  || one_of [0x2028; 0x2029; 0x202F; 0x205F; 0x3000]%N c.

(** [s.splitlines()]: [cur] is the line being read, [after_cr] tells that
    the previous code point was a CR, so that CR LF is one break.  A break
    at the very end opens no further line. *)
Fixpoint splitlines_from (after_cr : bool) (cur : str) (s : str) : list str :=
  match s with
  | [] => match cur with [] => [] | _ => [cur] end
  | c :: s' =>
      if after_cr && (c =? 0x0A)%N then splitlines_from false cur s'
      else if is_linebreak c then cur :: splitlines_from (c =? 0x0D)%N [] s'
      else splitlines_from false (cur ++ [c]) s'
  end.

Definition splitlines (s : str) : list str := splitlines_from false [] s.

Fixpoint drop_while {A : Type} (p : A -> bool) (l : list A) : list A :=
  match l with
  | [] => []
  | x :: l' => if p x then drop_while p l' else l
  end.

Fixpoint take_while {A : Type} (p : A -> bool) (l : list A) : list A :=
  match l with
  | [] => []
  | x :: l' => if p x then x :: take_while p l' else []
  end.

(** [s.strip()] *)
Definition lstrip (s : str) : str := drop_while is_space s.
Definition rstrip (s : str) : str := rev (drop_while is_space (rev s)).
Definition strip (s : str) : str := rstrip (lstrip s).

(** [re.findall("[...]+", s)] for a character class [cls]: the maximal runs
    of code points of the class, from left to right. *)
Fixpoint runs_from (cls : N -> bool) (cur : str) (s : str) : list str :=
  match s with
  | [] => match cur with [] => [] | _ => [cur] end
  | c :: s' =>
      if cls c then runs_from cls (cur ++ [c]) s'
      else match cur with
           | [] => runs_from cls [] s'
           | _ => cur :: runs_from cls [] s'
           end
  end.

Definition findall_class (cls : N -> bool) (s : str) : list str :=
  runs_from cls [] s.

(** [s.split()]: the maximal runs without whitespace. *)
Definition split (s : str) : list str :=
  findall_class (fun c => negb (is_space c)) s.

(** [l or d] on lists. *)
Definition list_or {A : Type} (l d : list A) : list A :=
  match l with [] => d | _ => l end.

(** [str.lower] on ASCII text: the capital letters A to Z move to a to z.
    It is the instance that runs the examples, all of them ASCII. *)
Definition lower_ascii : Lower :=
  List.map (fun c => if between "A" "Z" c then (c + 32)%N else c).

(** *** Regular expressions

    The patterns of the code are sequences of single code points, optional
    or repeated greedily.  A matcher reads a prefix of the text and hands
    the rest to what follows it in the pattern; it returns the text left
    behind the whole match.  Where what follows fails, a repetition gives
    back its code points one at a time, as the backtracking of [re]
    does. *)
Definition matcher : Type := str -> option str.

(** The end of the pattern. *)
Definition re_end : matcher := Some.

(** One code point of the class [cls]. *)
Definition re_char (cls : N -> bool) (k : matcher) : matcher :=
  fun s =>
    match s with
    | c :: s' => if cls c then k s' else None
    | [] => None
    end.

(** [x?]: with the code point first, then without. *)
Definition re_opt (cls : N -> bool) (k : matcher) : matcher :=
  fun s =>
    match s with
    | c :: s' =>
        if cls c then match k s' with Some r => Some r | None => k s end
        else k s
    | [] => k s
    end.

(** [x{min,}], and [x+] for [min = 1]: as many as there are first. *)
Fixpoint re_rep (cls : N -> bool) (min : nat) (k : matcher) (s : str) : option str :=
  match s with
  | c :: s' =>
      if cls c then
        match re_rep cls (Nat.pred min) k s' with
        | Some r => Some r
        | None => if min =? 0 then k s else None
        end
      else if min =? 0 then k s else None
  | [] => if min =? 0 then k s else None
  end.

(** [re.search(pattern, s)] followed by [group(0)]: the match at the
    leftmost position that has one. *)
Fixpoint re_search (m : matcher) (s : str) : option str :=
  match m s with
  | Some rest => Some (firstn (length s - length rest) s)
  | None =>
      match s with
      | [] => None
      | _ :: s' => re_search m s'
      end
  end.

(** [sep.join(parts)] *)
Fixpoint join (sep : str) (parts : list str) : str :=
  match parts with
  | [] => []
  | [p] => p
  | p :: parts' => p ++ sep ++ join sep parts'
  end.

(** The decimal digits of Unicode, which [\d] matches in a [str]
    pattern.  The development is parametric in the table. *)
Class Digits : Type := is_decimal : N -> bool.

(** The digits 0 to 9, the decimal digits of ASCII text. *)
Definition digits_ascii : Digits := between "0" "9".

End Py.

Import Py.

(** ** [src/scoring.py] *)

Module scoring.

(** The dict [compute_match_score] returns, one field per key.  The key
    [explanation], a formatted message, is left out: it feeds no other
    field. *)
Record MatchResult (F : Type) : Type := {
  similarity : F;
  jaccard : F;
  score : F;
  confidence : F;
  missing_skills : list str
}.
Arguments similarity {F} _.
Arguments jaccard {F} _.
Arguments score {F} _.
Arguments confidence {F} _.
Arguments missing_skills {F} _.

Section Scoring.
Context {F : Type} `{PyFloat F} `{Lower}.

Definition dot (a b : list F) : F :=
  fsum (List.map (fun p => fmul (fst p) (snd p)) (zip a b)).

Definition norm (a : list F) : F :=
  fsqrt (fsum (List.map (fun x => fmul x x) a)).

Definition cosine_similarity (a b : list F) : result F :=
  let denom := f_or (fmul (norm a) (norm b)) (dec 10 1) in
  truediv (dot a b) denom.

(** [set(s.lower() for s in skills)] *)
Definition lowered (skills : list str) : gset str :=
  list_to_set (List.map str_lower skills).

Definition compute_match_score (resume_vec job_vec : list F)
    (resume_skills job_skills : list str) : result (MatchResult F) :=
  bind (cosine_similarity resume_vec job_vec) (fun sim =>
  let rs := lowered resume_skills in
  let js := lowered job_skills in
  let skill_overlap := Z.of_nat (size (rs ∩ js)) in
  let skill_union :=
    let n := Z.of_nat (size (rs ∪ js)) in if (n =? 0)%Z then 1%Z else n in
  bind (int_truediv skill_overlap skill_union) (fun jaccard =>
  let score := fadd (fmul (dec 7 1) sim) (fmul (dec 3 1) jaccard) in
  let score_pct := fmul (fmax (dec 0 1) (fmin (dec 10 1) score)) (dec 1000 1) in
  let confidence := fadd (dec 5 1) (fmul (dec 5 1) (fmin sim (dec 10 1))) in
  let missing_skills := py_sorted str_ltb (elements (js ∖ rs)) in
  Ok {| similarity := sim;
        jaccard := jaccard;
        score := score_pct;
        confidence := confidence;
        missing_skills := missing_skills |})).

Definition top_k_matches (query_vec : list F) (corpus_texts : list str)
    (corpus_vecs : list (list F)) (k : Z) : result (list (str * F)) :=
  bind (for_each (fun tv => bind (cosine_similarity query_vec (snd tv))
                                 (fun c => Ok (fst tv, c)))
                 (zip corpus_texts corpus_vecs)) (fun sims =>
  let sims := py_sorted (fun x y => fltb (snd y) (snd x)) sims in
  Ok (slice_to sims k)).

End Scoring.

End scoring.

(** ** [src/parsing.py] *)

Module parsing.

(** The curated vocabulary, a set. *)
Definition BASIC_SKILLS : gset str :=
  list_to_set (List.map lit [
    (* programming *)
    "python"; "java"; "javascript"; "typescript"; "c++"; "c#"; "go"; "rust"; "sql";
    (* data *)
    "pandas"; "numpy"; "scikit-learn"; "tensorflow"; "pytorch"; "nlp"; "spacy"; "nltk";
    (* cloud/devops *)
    "aws"; "azure"; "gcp"; "docker"; "kubernetes"; "ci/cd"; "git";
    (* web *)
    "react"; "node"; "streamlit"; "flask"; "django"
  ]%string).

(** The class [[A-Za-z#+.\-]] of the skill tokenizer. *)
Definition skill_char (c : N) : bool :=
  between "A" "Z" c || between "a" "z" c
  || one_of [chr "#"; chr "+"; chr "."; chr "-"] c.

Section Parsing.
Context `{Lower}.

Definition extract_name (text : str) : option str :=
  let first_line := strip (hd [] (list_or (splitlines text) [[]])) in
  let words := length (split first_line) in
  if (2 <=? words) && (words <=? 5) && (length first_line <=? 64)
  then Some first_line
  else None.

Definition extract_skills (text : str) : list str :=
  let tokens : gset str := list_to_set (findall_class skill_char (str_lower text)) in
  let matched :=
    py_sorted str_ltb (List.filter (fun s => bool_decide (s ∈ tokens)) (elements BASIC_SKILLS)) in
  matched.

Definition parse_job_description (text : str) : list str :=
  let text := list_or text [] in
  let skills := extract_skills text in
  skills.

(** *** The extractors as the specification words them *)

(** "Take the first non-empty line of the text; accept as name only if
    word count is between 2 and 5 inclusive and character length at most
    64; otherwise None." *)
Definition extract_name_spec (text : str) : option str :=
  match List.filter (fun l => negb (length l =? 0)) (List.map strip (splitlines text)) with
  | [] => None
  | line :: _ =>
      let words := length (split line) in
      if (2 <=? words) && (words <=? 5) && (length line <=? 64)
      then Some line
      else None
  end.

(** "Lowercase alphanumeric-plus-{#,+,.,-} runs": the class with the
    digits. *)
Definition spec_skill_char (c : N) : bool :=
  between "A" "Z" c || between "a" "z" c || between "0" "9" c
  || one_of [chr "#"; chr "+"; chr "."; chr "-"] c.

Definition extract_skills_spec (text : str) : list str :=
  let tokens : gset str := list_to_set (findall_class spec_skill_char (str_lower text)) in
  py_sorted str_ltb (elements (BASIC_SKILLS ∩ tokens)).

End Parsing.

(** *** Email, phone and the parsed resume *)

(** The classes of the email pattern
    [[A-Za-z0-9._%+-]+@[A-Za-z0-9.-]+\.[A-Za-z]{2,}]. *)
Definition letter (c : N) : bool := between "A" "Z" c || between "a" "z" c.

Definition email_local_char (c : N) : bool :=
  letter c || between "0" "9" c
  || one_of [chr "."; chr "_"; chr "%"; chr "+"; chr "-"] c.

Definition email_domain_char (c : N) : bool :=
  letter c || between "0" "9" c || one_of [chr "."; chr "-"] c.

Definition email_pattern : matcher :=
  re_rep email_local_char 1
    (re_char (N.eqb (chr "@"))
       (re_rep email_domain_char 1
          (re_char (N.eqb (chr "."))
             (re_rep letter 2 re_end)))).

Definition extract_email (text : str) : option str :=
  re_search email_pattern text.

(** [pdfplumber]: the pages of a document, each page with what its
    [extract_text()] returns, a text or None.  Opening the document or
    reading a page may raise. *)
Class PdfPlumber : Type := pdf_pages : list N -> result (list (result (option str))).

Record ResumeData : Type := {
  raw_text : str;
  name : option str;
  email : option str;
  phone : option str;
  skills : list str
}.

Section Resume.
Context `{Lower} `{Digits} `{PdfPlumber}.

(** The pattern [(\+?\d[\d\-\s]{7,}\d)]. *)
Definition phone_inner_char (c : N) : bool :=
  is_decimal c || N.eqb (chr "-") c || is_space c.

Definition phone_pattern : matcher :=
  re_opt (N.eqb (chr "+"))
    (re_char is_decimal
       (re_rep phone_inner_char 7
          (re_char is_decimal re_end))).

Definition extract_phone (text : str) : option str :=
  re_search phone_pattern text.

(** [page.extract_text() or ""] *)
Definition page_text (t : option str) : str :=
  match t with
  | Some s => s
  | None => []
  end.

Definition extract_text_from_pdf (pdf_bytes : list N) : result str :=
  bind (pdf_pages pdf_bytes) (fun pages =>
  bind (for_each (fun page => bind page (fun txt => Ok (page_text txt))) pages)
       (fun text_parts =>
  Ok (join [0x0A%N] text_parts))).

Definition parse_resume_pdf (pdf_bytes : list N) : result ResumeData :=
  bind (extract_text_from_pdf pdf_bytes) (fun raw =>
  Ok {| raw_text := raw;
        name := extract_name raw;
        email := extract_email raw;
        phone := extract_phone raw;
        skills := extract_skills raw |}).

End Resume.

(** A document whose bytes are its text, the pages parted by form feeds:
    the instance of [PdfPlumber] that runs the examples. *)
Fixpoint pages_from (cur : str) (b : list N) : list (result (option str)) :=
  match b with
  | [] => [Ok (match cur with [] => None | _ => Some cur end)]
  | c :: b' =>
      if (c =? 0x0C)%N
      then Ok (match cur with [] => None | _ => Some cur end) :: pages_from [] b'
      else pages_from (cur ++ [c]) b'
  end.

Definition text_document : PdfPlumber := fun b => Ok (pages_from [] b).

End parsing.

(** ** [src/workflow.py] *)

Module workflow.

Section Workflow.
(** The values the agents' dicts hold. *)
Variable object : Type.

(** The result of one agent.  The class is declared in [src/agents.py];
    the fields are the ones [workflow.py] and the callers read. *)
Record AgentResult : Type := {
  name : str;
  inputs : gmap str object;
  outputs : gmap str object;
  reasoning : str
}.

Record WorkflowTrace : Type := {
  steps : list AgentResult;
  edges : list (str * str)
}.

(** [l[i]] for an index that is not negative. *)
Definition item {A : Type} (l : list A) (i : nat) : result A :=
  match l !! i with
  | Some x => Ok x
  | None => Raise IndexError
  end.

(** [range(n)] *)
Definition range (n : Z) : list nat := seq 0 (Z.to_nat n).

Definition build_workflow_trace (steps : list AgentResult) : result WorkflowTrace :=
  let names := List.map name steps in
  bind (for_each (fun i => bind (item names i) (fun u =>
                           bind (item names (i + 1)) (fun v => Ok (u, v))))
                 (range (Z.of_nat (length names) - 1))) (fun edges =>
  Ok {| steps := steps; edges := edges |}).

(** *** The analysis run of [latest.py] *)

(** [d[key]] *)
Definition getitem (d : gmap str object) (key : str) : result object :=
  match d !! key with
  | Some v => Ok v
  | None => Raise KeyError
  end.

(** The four agents of [src/agents.py], each a call that returns an
    [AgentResult] or raises, and the embedding service handed to the last
    of them. *)
Variables bytes service : Type.
Variable resume_parser_agent : bytes -> result AgentResult.
Variable job_parser_agent : str -> result AgentResult.
Variable content_enhancer_agent : object -> result AgentResult.
Variable matcher_and_scoring_agent :
  object -> str -> object -> object -> service -> result AgentResult.

Definition run_analysis (embed : service) (resume_bytes : bytes) (job_desc : str)
    : result WorkflowTrace :=
  let steps := [] in
  (* Step 1: resume parsing *)
  bind (resume_parser_agent resume_bytes) (fun a1 =>
  let steps := steps ++ [a1] in
  (* Step 2: job parsing *)
  bind (job_parser_agent job_desc) (fun a2 =>
  let steps := steps ++ [a2] in
  (* Step 3: content enhancement *)
  bind (getitem (outputs a1) (lit "raw_text")) (fun raw_text =>
  bind (content_enhancer_agent raw_text) (fun a3 =>
  let steps := steps ++ [a3] in
  (* Step 4: matching and scoring *)
  bind (getitem (outputs a1) (lit "raw_text")) (fun resume_text =>
  bind (getitem (outputs a1) (lit "skills")) (fun resume_skills =>
  bind (getitem (outputs a2) (lit "skills")) (fun job_skills =>
  bind (matcher_and_scoring_agent resume_text job_desc resume_skills job_skills embed)
       (fun a4 =>
  let steps := steps ++ [a4] in
  (* Step 5: the trace *)
  build_workflow_trace steps)))))))).

End Workflow.

Arguments name {object} _.
Arguments inputs {object} _.
Arguments outputs {object} _.
Arguments reasoning {object} _.
Arguments steps {object} _.
Arguments edges {object} _.
Arguments build_workflow_trace {object} _.
Arguments run_analysis {object bytes service} _ _ _ _ _ _ _.

(** Modelled from the spec: the names the four agents of [src/agents.py]
    give their results, "ParseResume", "ParseJob", "EnhanceContent" and
    "MatchAndScore", on an agent that otherwise hands its input on.  The
    resume parser's result holds the [raw_text] and [skills] the run reads,
    the job parser's the [skills]. *)
Module agents.

Definition stage (n : string) (ins outs : list (str * list str)) : AgentResult (list str) :=
  {| name := lit n;
     inputs := list_to_map ins;
     outputs := list_to_map outs;
     reasoning := [] |}.

Definition resume_parser_agent (resume_bytes : list str) : result (AgentResult (list str)) :=
  Ok (stage "ParseResume" []
        [(lit "raw_text", resume_bytes); (lit "skills", [])]).

Definition job_parser_agent (job_desc : str) : result (AgentResult (list str)) :=
  Ok (stage "ParseJob" [(lit "job_text", [job_desc])] [(lit "skills", [])]).

Definition content_enhancer_agent (raw_text : list str) : result (AgentResult (list str)) :=
  Ok (stage "EnhanceContent" [(lit "raw_text", raw_text)] [(lit "enhanced", raw_text)]).

Definition matcher_and_scoring_agent (resume_text : list str) (job_text : str)
    (resume_skills job_skills : list str) (embedding_service : unit)
    : result (AgentResult (list str)) :=
  Ok (stage "MatchAndScore"
        [(lit "resume_skills", resume_skills); (lit "job_skills", job_skills)] []).

Definition run (resume_bytes : list str) (job_desc : str) :=
  run_analysis resume_parser_agent job_parser_agent content_enhancer_agent
               matcher_and_scoring_agent tt resume_bytes job_desc.

End agents.

End workflow.

(** ** [src/embeddings.py] *)

Module embeddings.

(** [hashlib.sha1(b).digest()]: from bytes to the 20 bytes of the digest. *)
Class Sha1 : Type := sha1_digest : list N -> list N.

(** The [numpy] operations on [float32] entries that [embed_documents]
    uses; [E] is [np.float32] and [F] is [float]. *)
Class NumPy (E F : Type) : Type := {
  (** an entry of [np.zeros(n, dtype=np.float32)] *)
  np_zero : E;
  (** [x + y] for the entry [x] and the [float] [y], as [float32] *)
  np_add : E -> F -> E;
  (** [float(np.linalg.norm(vec))] *)
  np_norm : list E -> F;
  (** [x / y] for the entry [x] and the [float] [y], as [float32] *)
  np_div : E -> F -> E;
  (** an entry of [vec.astype(float)] *)
  np_float : E -> F
}.

(** The class [[A-Za-z0-9_#+.-]] of the embedding tokenizer. *)
Definition token_char (c : N) : bool :=
  between "A" "Z" c || between "a" "z" c || between "0" "9" c
  || one_of [chr "_"; chr "#"; chr "+"; chr "."; chr "-"] c.

(** [s.encode("utf-8")], one to four bytes per code point, for a text
    without surrogate code points (on a lone surrogate [str.encode] raises
    UnicodeEncodeError).  The tokens that are encoded are ASCII. *)
Definition utf8_char (c : N) : list N :=
  if (c <? 0x80)%N then [c]
  else if (c <? 0x800)%N then
    [0xC0 + c / 0x40; 0x80 + c mod 0x40]%N
  else if (c <? 0x10000)%N then
    [0xE0 + c / 0x1000; 0x80 + (c / 0x40) mod 0x40; 0x80 + c mod 0x40]%N
  else
    [0xF0 + c / 0x40000; 0x80 + (c / 0x1000) mod 0x40;
     0x80 + (c / 0x40) mod 0x40; 0x80 + c mod 0x40]%N.

Definition encode_utf8 (s : str) : list N := List.concat (List.map utf8_char s).

(** [int.from_bytes(b, byteorder="big", signed=False)] *)
Definition from_bytes_big (b : list N) : Z :=
  fold_left (fun acc x => (acc * 256 + Z.of_N x)%Z) b 0%Z.

Record _LocalHashingEmbeddings : Type := { _dimension : Z }.

(** [_LocalHashingEmbeddings(dimension)] *)
Definition init (dimension : Z) : _LocalHashingEmbeddings :=
  {| _dimension := dimension |}.

Section Embeddings.
Context {E F : Type} `{PyFloat F} `{NumPy E F} `{Lower} `{Sha1}.

Definition dimension (self : _LocalHashingEmbeddings) : Z := _dimension self.

Definition _tokenize (self : _LocalHashingEmbeddings) (text : str) : list str :=
  findall_class token_char (str_lower text).

(** [a % b] on [int]s. *)
Definition int_mod (a b : Z) : result Z :=
  if (b =? 0)%Z then Raise ZeroDivisionError else Ok (a mod b)%Z.

Definition _hash_to_index (self : _LocalHashingEmbeddings) (token : str) : result Z :=
  let h := sha1_digest (encode_utf8 token) in
  let idx := from_bytes_big (firstn 4 h) in
  int_mod idx (_dimension self).

(** [np.zeros(n, dtype=np.float32)]: ValueError for a negative size.  A
    size beyond what can be indexed or allocated raises as well; that limit
    is the machine's and is left out. *)
Definition np_zeros (n : Z) : result (list E) :=
  if (n <? 0)%Z then Raise ValueError else Ok (replicate (Z.to_nat n) np_zero).

(** [vec[i] += y] for an index that is not negative. *)
Definition add_at (vec : list E) (i : Z) (y : F) : result (list E) :=
  match vec !! Z.to_nat i with
  | Some x => Ok (<[Z.to_nat i := np_add x y]> vec)
  | None => Raise IndexError
  end.

(** The loop over the tokens of one text. *)
Fixpoint count_tokens (self : _LocalHashingEmbeddings) (tokens : list str)
    (vec : list E) : result (list E) :=
  match tokens with
  | [] => Ok vec
  | tok :: tokens' =>
      bind (_hash_to_index self tok) (fun i =>
      bind (add_at vec i (dec 10 1)) (fun vec' =>
      count_tokens self tokens' vec'))
  end.

(** The body of the loop over the texts: the vector of one text. *)
Definition embed_document (self : _LocalHashingEmbeddings) (t : str) : result (list F) :=
  let tokens := _tokenize self (list_or t []) in
  bind (np_zeros (_dimension self)) (fun vec =>
  bind (match tokens with
        | [] => Ok vec
        | _ =>
            bind (count_tokens self tokens vec) (fun vec =>
            (* l2 normalize *)
            let norm := np_norm vec in
            if fltb (of_int 0) norm
            then Ok (List.map (fun x => np_div x norm) vec)
            else Ok vec)
        end) (fun vec =>
  Ok (List.map np_float vec))).

(** The loop over the texts: [vectors] grows by one vector per text. *)
Fixpoint embed_loop (self : _LocalHashingEmbeddings) (texts : list str)
    (vectors : list (list F)) : result (list (list F)) :=
  match texts with
  | [] => Ok vectors
  | t :: texts' =>
      bind (embed_document self t) (fun v =>
      embed_loop self texts' (vectors ++ [v]))
  end.

Definition embed_documents (self : _LocalHashingEmbeddings) (texts : list str)
    : result (list (list F)) :=
  embed_loop self texts [].

End Embeddings.

(** *** The embedding service *)

Section Service.
Context {E F : Type} `{PyFloat F} `{NumPy E F} `{Lower} `{Sha1}.

(** What [self._backend] can be: the local hashing embeddings, or the
    client of the remote service, of which the code calls
    [embed_documents] only.  Both have that method, so the test
    [hasattr(self._backend, "embed_documents")] always holds. *)
Inductive Backend : Type :=
  | LocalBackend (local : _LocalHashingEmbeddings)
  | RemoteBackend (remote_embed_documents : list str -> result (list (list F))).

Record EmbeddingService : Type := { _backend : Backend }.

(** [a or b] on what [os.getenv] returns: None and the empty string are
    false. *)
Definition getenv_or (a b : option str) : option str :=
  match a with
  | Some (_ :: _) => a
  | _ => b
  end.

(** [s.startswith(prefix)] *)
Fixpoint startswith (prefix s : str) : bool :=
  match prefix, s with
  | [], _ => true
  | c :: prefix', d :: s' => (c =? d)%N && startswith prefix' s'
  | _ :: _, [] => false
  end.

(** [os.getenv("GEMINI_EMBED_MODEL", "text-embedding-004")] *)
Definition DEFAULT_GEMINI_EMBED_MODEL (environ : gmap str str) : str :=
  default (lit "text-embedding-004") (environ !! lit "GEMINI_EMBED_MODEL").

(** The model name the remote client is built with. *)
Definition model_name_of (environ : gmap str str) : str :=
  let model_name := strip (DEFAULT_GEMINI_EMBED_MODEL environ) in
  if startswith (lit "models/") model_name then model_name
  else lit "models/" ++ model_name.

(** [EmbeddingService()]: [environ] is the environment of the process and
    [GoogleGenerativeAIEmbeddings] the remote client's constructor, None
    when its import failed; the constructor takes the model and the key. *)
Definition EmbeddingService_init (environ : gmap str str)
    (GoogleGenerativeAIEmbeddings :
       option (str -> str -> result (list str -> result (list (list F)))))
    : EmbeddingService :=
  let api_key := getenv_or (environ !! lit "GEMINI_API_KEY") (environ !! lit "GOOGLE_API_KEY") in
  let model_name := model_name_of environ in
  (* Try remote embeddings first if possible *)
  let backend :=
    match api_key, GoogleGenerativeAIEmbeddings with
    | Some (c :: key), Some construct =>
        match construct model_name (c :: key) with
        | Ok client => Some (RemoteBackend client)
        | Raise _ => None
        end
    | _, _ => None
    end in
  (* Fallback to local hashing embeddings *)
  match backend with
  | Some b => {| _backend := b |}
  | None => {| _backend := LocalBackend (init 768) |}
  end.

Definition service_dimension (self : EmbeddingService) : Z := 768.

(** [embed_texts]: the texts are stripped first; [list(map(float, v))]
    leaves the numbers of a vector as they are. *)
Definition embed_texts (self : EmbeddingService) (texts : list str)
    : result (list (list F)) :=
  let clean_texts := List.map (fun t => match t with [] => [] | _ => strip t end) texts in
  match _backend self with
  | LocalBackend local => embed_documents local clean_texts
  | RemoteBackend remote_embed_documents => remote_embed_documents clean_texts
  end.

Definition embed_query (self : EmbeddingService) (text : str) : result (list F) :=
  bind (embed_texts self [text]) (fun vectors =>
  match vectors with
  | v :: _ => Ok v
  | [] => Raise IndexError
  end).

End Service.

(** *** Instances that run the embedding *)

(** SHA-1 as FIPS 180-4 defines it, on bytes. *)
Definition w32 (x : N) : N := (x mod 0x100000000)%N.

Definition rotl (n x : N) : N :=
  w32 (N.lor (N.shiftl x n) (N.shiftr x (32 - n))).

Definition be_bytes (n : nat) (x : N) : list N :=
  List.map (fun i => ((x / 256 ^ N.of_nat (n - 1 - i)) mod 256)%N) (seq 0 n).

Definition sha1_pad (msg : list N) : list N :=
  let zeros := ((64 + 55 - length msg mod 64) mod 64)%nat in
  msg ++ [0x80%N] ++ repeat 0%N zeros ++ be_bytes 8 (8 * N.of_nat (length msg)).

Fixpoint be_words (b : list N) : list N :=
  match b with
  | b0 :: b1 :: b2 :: b3 :: b' =>
      (((b0 * 256 + b1) * 256 + b2) * 256 + b3)%N :: be_words b'
  | _ => []
  end.

Fixpoint sha1_blocks (fuel : nat) (w : list N) : list (list N) :=
  match fuel, w with
  | S fuel', _ :: _ => firstn 16 w :: sha1_blocks fuel' (skipn 16 w)
  | _, _ => []
  end.

(** The message schedule, latest word first. *)
Fixpoint sha1_extend (n : nat) (w : list N) : list N :=
  match n with
  | O => w
  | S n' =>
      let x := N.lxor (N.lxor (nth 2 w 0%N) (nth 7 w 0%N))
                      (N.lxor (nth 13 w 0%N) (nth 15 w 0%N)) in
      sha1_extend n' (rotl 1 x :: w)
  end.

Definition sha1_round (st : N * N * N * N * N) (iw : nat * N) : N * N * N * N * N :=
  let '(a, b, c, d, e) := st in
  let '(i, w) := iw in
  let '(f, k) :=
    if (i <? 20)%nat then
      (N.lor (N.land b c) (N.land (N.lxor b 0xFFFFFFFF) d), 0x5A827999%N)
    else if (i <? 40)%nat then
      (N.lxor (N.lxor b c) d, 0x6ED9EBA1%N)
    else if (i <? 60)%nat then
      (N.lor (N.lor (N.land b c) (N.land b d)) (N.land c d), 0x8F1BBCDC%N)
    else
      (N.lxor (N.lxor b c) d, 0xCA62C1D6%N) in
  (w32 (rotl 5 a + f + e + k + w), a, rotl 30 b, c, d).

Definition sha1_block (h : N * N * N * N * N) (block : list N) : N * N * N * N * N :=
  let schedule := rev (sha1_extend 64 (rev block)) in
  let '(h0, h1, h2, h3, h4) := h in
  let '(a, b, c, d, e) :=
    fold_left sha1_round (combine (seq 0 80) schedule) h in
  (w32 (h0 + a), w32 (h1 + b), w32 (h2 + c), w32 (h3 + d), w32 (h4 + e)).

Definition sha1 : Sha1 :=
  fun msg =>
    let words := be_words (sha1_pad msg) in
    let '(h0, h1, h2, h3, h4) :=
      fold_left sha1_block (sha1_blocks (length words) words)
        (0x67452301, 0xEFCDAB89, 0x98BADCFE, 0x10325476, 0xC3D2E1F0)%N in
    List.concat (List.map (be_bytes 4) [h0; h1; h2; h3; h4]).

(** [float32] arithmetic without rounding: the real numbers, with the
    norm of [scoring]. *)
Definition np_real : NumPy R R := {|
  np_zero := 0%R;
  np_add := Rplus;
  np_norm := scoring.norm;
  np_div := Rdiv;
  np_float := fun x => x
|}.

End embeddings.

Import scoring parsing workflow embeddings.

(** ** Vocabulary of the statements *)

(** The denominator of [cosine_similarity]: the product of the norms, or
    1.0 when that is zero. *)
Definition denominator (a b : list R) : R :=
  f_or (fmul (norm a) (norm b)) (dec 10 1).

(** The value of [cosine_similarity] over the reals. *)
Definition cosine (a b : list R) : R := (dot a b / denominator a b)%R.

(** The snippets before they are ranked: each text with its similarity to
    the query, in input order. *)
Definition scored (q : list R) (texts : list str) (vecs : list (list R)) : list (str * R) :=
  zip texts (List.map (cosine q) vecs).

(** *** binary64

    The statements about the floats of the program are made on binary64,
    for any [pow_half]. *)

(** The literals 0.0, 0.5, 1.0 and 100.0 of [scoring.py]. *)
Definition b64_zero : PrimFloat.float := @dec _ b64_float 0 1.
Definition b64_half : PrimFloat.float := @dec _ b64_float 5 1.
Definition b64_one : PrimFloat.float := @dec _ b64_float 10 1.
Definition b64_hundred : PrimFloat.float := @dec _ b64_float 1000 1.

(** [2.0 ** n], exact up to [n = 1023]. *)
Definition b64_pow2 (n : nat) : PrimFloat.float :=
  Nat.iter n (PrimFloat.mul (@of_int _ b64_float 2)) (@of_int _ b64_float 1).

(** [2.0 ** -600]: not zero, with a square that underflows to 0.0. *)
Definition b64_tiny : PrimFloat.float :=
  PrimFloat.div (@of_int _ b64_float 1) (b64_pow2 600).

(** What [cosine_similarity] returns when it returns: the dot product over
    the product of the norms, or over 1.0 when that product is zero. *)
Definition cosine_of {F : Type} `{PyFloat F} (a b : list F) : F :=
  fquot (dot a b) (f_or (fmul (norm a) (norm b)) (dec 10 1)).

(** The snippets before they are ranked, in any arithmetic. *)
Definition scored_of {F : Type} `{PyFloat F} (q : list F) (texts : list str)
    (vecs : list (list F)) : list (str * F) :=
  zip texts (List.map (cosine_of q) vecs).

(** No similarity of the ranking is NaN. *)
Definition no_nan (l : list (str * PrimFloat.float)) : Prop :=
  forallb (fun p => negb (PrimFloat.is_nan (snd p))) l = true.

(** A ranking in non-increasing order of similarity: [y <= x] for every
    [x] that stands before a [y]. *)
Definition non_increasing64 (l : list (str * PrimFloat.float)) : Prop :=
  StronglySorted (fun x y => PrimFloat.leb (snd y) (snd x) = true) l.

(** The snippets of a ranking whose similarity equals [s] ([==]). *)
Definition with_similarity64 (s : PrimFloat.float) (l : list (str * PrimFloat.float)) :
    list (str * PrimFloat.float) :=
  List.filter (fun p => PrimFloat.eqb (snd p) s) l.

(** A vector of zeros ([0.0] or [-0.0]), and a vector of finite numbers. *)
Definition zero_vector (a : list PrimFloat.float) : Prop :=
  forallb (fun x => PrimFloat.eqb x PrimFloat.zero) a = true.

Definition finite_vector (a : list PrimFloat.float) : Prop :=
  forallb PrimFloat.is_finite a = true.

(** *** The numbers of the format

    [Prim2SF] reads a float as a sign, a mantissa and an exponent; the
    arithmetic of the format is specified on these.  The definitions below
    serve the proofs about rounding. *)

(** A key that orders the numbers as the comparison of the format does:
    first the sign and kind, then the exponent, then the mantissa. *)
Definition sf_rank (x : spec_float) : Z * (Z * Z) :=
  match x with
  | S754_nan => (0, (0, 0))
  | S754_zero _ => (0, (0, 0))
  | S754_infinity true => (-2, (0, 0))
  | S754_infinity false => (2, (0, 0))
  | S754_finite true m e => (-1, (- e, - Zpos m))
  | S754_finite false m e => (1, (e, Zpos m))
  end%Z.

Definition rank_lt (a b : Z * (Z * Z)) : Prop :=
  (a.1 < b.1 \/ (a.1 = b.1 /\ (a.2.1 < b.2.1 \/ (a.2.1 = b.2.1 /\ a.2.2 < b.2.2))))%Z.

(** Zero or finite. *)
Definition sf_finite (x : spec_float) : bool :=
  match x with S754_zero _ | S754_finite _ _ _ => true | _ => false end.

(** Whether anything was shifted out that is not zero. *)
Definition shr_tail (mrs : shr_record) : bool := shr_r mrs || shr_s mrs.

(** The number with mantissa [q], at most [2^53], and exponent [e]. *)
Definition round_result (s : bool) (q e : Z) : spec_float :=
  match q with
  | Z0 => S754_zero s
  | Zpos m =>
      if (q =? 2 ^ 53)%Z then
        if (e + 1 <=? 971)%Z then S754_finite s (Z.to_pos (2 ^ 52)) (e + 1)
        else S754_infinity s
      else if (e <=? 971)%Z then S754_finite s m e else S754_infinity s
  | Zneg _ => S754_nan
  end.

(** The value [m * 2^e] in units of [2^-c]. *)
Definition scaled (c : Z) (m : positive) (e : Z) : Z := (Zpos m * 2 ^ (e + c))%Z.

(** * Properties *)

(** ** The [result] monad and list helpers *)

Lemma bind_ok {A B : Type} (m : result A) (k : A -> result B) (b : B) :
  bind m k = Ok b -> exists a, m = Ok a /\ k a = Ok b.
Proof.
  destruct m as [a|e]; simpl; intros Hb; [eauto | discriminate].
Qed.

Lemma for_each_ok {A B : Type} (f : A -> result B) (g : A -> B) (l : list A) :
  (forall x, In x l -> f x = Ok (g x)) -> for_each f l = Ok (List.map g l).
Proof.
  induction l as [|x l IH]; intros Hf; simpl; [reflexivity|].
  rewrite (Hf x) by (left; reflexivity). simpl.
  rewrite IH by (intros y Hy; apply Hf; right; exact Hy).
  reflexivity.
Qed.

Lemma zip_firstn {A B : Type} (a : list A) (b : list B) :
  zip a b = zip (firstn (Nat.min (length a) (length b)) a)
                (firstn (Nat.min (length a) (length b)) b).
Proof.
  revert b; induction a as [|x a IH]; intros [|y b]; simpl; try reflexivity.
  f_equal. apply IH.
Qed.

Lemma zip_length {A B : Type} (a : list A) (b : list B) :
  length (zip a b) = Nat.min (length a) (length b).
Proof.
  revert b; induction a as [|x a IH]; intros [|y b]; simpl; auto.
Qed.

Lemma zip_map_snd {A B C : Type} (g : B -> C) (a : list A) (b : list B) :
  List.map (fun p => (fst p, g (snd p))) (zip a b) = zip a (List.map g b).
Proof.
  revert b; induction a as [|x a IH]; intros [|y b]; simpl; try reflexivity.
  f_equal. apply IH.
Qed.

(** ** binary64: the order, the zeros and rounding

    What the properties of the scoring code need of IEEE 754 arithmetic,
    derived from the specification of the format ([SpecFloat]) that the
    primitive floats follow ([FloatAxioms]). *)

Section Binary64Format.
Local Open Scope Z_scope.

(** The comparison of the format is a total preorder on the numbers:
    NaN apart, [<] is asymmetric and its negation is transitive. *)

Lemma SFcompare_refl (x : spec_float) : x <> S754_nan -> SFcompare x x = Some Eq.
Proof.
  destruct x as [[]|[]| |[] m e]; simpl; intros Hn; try reflexivity; try congruence.
  - rewrite Z.compare_refl. fold (Pos.compare m m). rewrite Pos.compare_refl. reflexivity.
  - rewrite Z.compare_refl. fold (Pos.compare m m). rewrite Pos.compare_refl. reflexivity.
Qed.

Lemma SFltb_asym (x y : spec_float) : SFltb x y = true -> SFltb y x = false.
Proof.
  unfold SFltb.
  destruct x as [[]|[]| |[] m e], y as [[]|[]| |[] m' e']; simpl; try congruence.
  - rewrite (Z.compare_antisym e e'). fold (Pos.compare m m') (Pos.compare m' m).
    rewrite (Pos.compare_antisym m m').
    destruct (e ?= e'); simpl; try congruence.
    destruct (m ?= m')%positive; simpl; congruence.
  - rewrite (Z.compare_antisym e e'). fold (Pos.compare m m') (Pos.compare m' m).
    rewrite (Pos.compare_antisym m m').
    destruct (e ?= e'); simpl; try congruence.
    destruct (m ?= m')%positive; simpl; congruence.
Qed.

Lemma SFltb_rank (x y : spec_float) :
  x <> S754_nan -> y <> S754_nan ->
  (SFltb x y = true <-> rank_lt (sf_rank x) (sf_rank y)).
Proof.
  unfold SFltb, rank_lt.
  destruct x as [[]|[]| |[] m e], y as [[]|[]| |[] m' e']; simpl; intros Hx Hy;
    try congruence; try (split; [intros; lia | intros; (reflexivity || (exfalso; lia))]);
    try (split; [discriminate | intros; exfalso; lia]).
  - fold (Pos.compare m m').
    destruct (Z.compare_spec e e'); destruct (Pos.compare_spec m m'); simpl;
      split; intros; try lia; try reflexivity; try discriminate.
  - fold (Pos.compare m m').
    destruct (Z.compare_spec e e'); destruct (Pos.compare_spec m m'); simpl;
      split; intros; try lia; try reflexivity; try discriminate.
Qed.

Lemma rank_total (a b c : Z * (Z * Z)) :
  ~ rank_lt a b -> ~ rank_lt b c -> ~ rank_lt a c.
Proof. unfold rank_lt. destruct a as [a1 [a2 a3]], b as [b1 [b2 b3]], c as [c1 [c2 c3]]; simpl. lia. Qed.

Lemma SFltb_negtrans (x y z : spec_float) :
  y <> S754_nan ->
  SFltb x y = false -> SFltb y z = false -> SFltb x z = false.
Proof.
  intros Hy Hxy Hyz.
  destruct (SFltb x z) eqn:Hxz; [exfalso|reflexivity].
  assert (Hx : x <> S754_nan) by (intros ->; discriminate).
  assert (Hz : z <> S754_nan) by (intros ->; destruct x as [[]|[]| |[] ? ?]; discriminate).
  apply SFltb_rank in Hxz; [|assumption..].
  revert Hxz. apply (rank_total _ (sf_rank y)).
  - intros H. apply SFltb_rank in H; [congruence|assumption..].
  - intros H. apply SFltb_rank in H; [congruence|assumption..].
Qed.

Lemma SFleb_ltb (x y : spec_float) :
  x <> S754_nan -> y <> S754_nan -> SFleb x y = negb (SFltb y x).
Proof.
  unfold SFleb, SFltb.
  destruct x as [[]|[]| |[] m e], y as [[]|[]| |[] m' e']; simpl; intros Hx Hy;
    try congruence.
  - rewrite (Z.compare_antisym e e'). fold (Pos.compare m m') (Pos.compare m' m).
    rewrite (Pos.compare_antisym m m').
    destruct (e ?= e'); simpl; try congruence.
    destruct (m ?= m')%positive; simpl; congruence.
  - rewrite (Z.compare_antisym e e'). fold (Pos.compare m m') (Pos.compare m' m).
    rewrite (Pos.compare_antisym m m').
    destruct (e ?= e'); simpl; try congruence.
    destruct (m ?= m')%positive; simpl; congruence.
Qed.

Lemma SFeqb_ltb (x y : spec_float) :
  x <> S754_nan -> y <> S754_nan ->
  SFeqb x y = negb (SFltb x y) && negb (SFltb y x).
Proof.
  unfold SFeqb, SFltb.
  destruct x as [[]|[]| |[] m e], y as [[]|[]| |[] m' e']; simpl; intros Hx Hy;
    try congruence.
  - rewrite (Z.compare_antisym e e'). fold (Pos.compare m m') (Pos.compare m' m).
    rewrite (Pos.compare_antisym m m').
    destruct (e ?= e'); simpl; try congruence.
    destruct (m ?= m')%positive; simpl; congruence.
  - rewrite (Z.compare_antisym e e'). fold (Pos.compare m m') (Pos.compare m' m).
    rewrite (Pos.compare_antisym m m').
    destruct (e ?= e'); simpl; try congruence.
    destruct (m ?= m')%positive; simpl; congruence.
Qed.

Lemma SFleb_nan_l (y : spec_float) : SFleb S754_nan y = false.
Proof. reflexivity. Qed.
Lemma SFleb_nan_r (x : spec_float) : SFleb x S754_nan = false.
Proof. destruct x as [[]|[]| |[] ? ?]; reflexivity. Qed.
Lemma SFltb_nan_r (x : spec_float) : SFltb x S754_nan = false.
Proof. destruct x as [[]|[]| |[] ? ?]; reflexivity. Qed.

(** The same on the floats. *)
Lemma is_nan_spec (x : PrimFloat.float) :
  PrimFloat.is_nan x = false <-> Prim2SF x <> S754_nan.
Proof.
  unfold PrimFloat.is_nan. rewrite FloatAxioms.eqb_spec. unfold SFeqb.
  split.
  - intros H Hn. rewrite Hn in H. discriminate.
  - intros Hn. rewrite SFcompare_refl by exact Hn. reflexivity.
Qed.

Lemma is_nan_true (x : PrimFloat.float) :
  PrimFloat.is_nan x = true <-> Prim2SF x = S754_nan.
Proof.
  split.
  - intros H. destruct (Prim2SF x) eqn:E; try reflexivity;
      assert (Hf : PrimFloat.is_nan x = false) by (apply is_nan_spec; rewrite E; discriminate);
      congruence.
  - intros H. destruct (PrimFloat.is_nan x) eqn:E; [reflexivity|].
    apply is_nan_spec in E. contradiction.
Qed.

Lemma b64_ltb_asym (x y : PrimFloat.float) :
  PrimFloat.ltb x y = true -> PrimFloat.ltb y x = false.
Proof. rewrite !FloatAxioms.ltb_spec. apply SFltb_asym. Qed.

Lemma b64_ltb_negtrans (x y z : PrimFloat.float) :
  PrimFloat.is_nan y = false ->
  PrimFloat.ltb x y = false -> PrimFloat.ltb y z = false -> PrimFloat.ltb x z = false.
Proof. rewrite !FloatAxioms.ltb_spec, is_nan_spec. apply SFltb_negtrans. Qed.

Lemma b64_leb_ltb (x y : PrimFloat.float) :
  PrimFloat.is_nan x = false -> PrimFloat.is_nan y = false ->
  PrimFloat.leb x y = negb (PrimFloat.ltb y x).
Proof. rewrite FloatAxioms.leb_spec, FloatAxioms.ltb_spec, !is_nan_spec. apply SFleb_ltb. Qed.

Lemma b64_eqb_ltb (x y : PrimFloat.float) :
  PrimFloat.is_nan x = false -> PrimFloat.is_nan y = false ->
  PrimFloat.eqb x y = negb (PrimFloat.ltb x y) && negb (PrimFloat.ltb y x).
Proof. rewrite FloatAxioms.eqb_spec, !FloatAxioms.ltb_spec, !is_nan_spec. apply SFeqb_ltb. Qed.

Lemma b64_leb_nan_l (x y : PrimFloat.float) :
  PrimFloat.is_nan x = true -> PrimFloat.leb x y = false.
Proof. rewrite FloatAxioms.leb_spec, is_nan_true. intros ->. reflexivity. Qed.

Lemma b64_leb_nan_r (x y : PrimFloat.float) :
  PrimFloat.is_nan y = true -> PrimFloat.leb x y = false.
Proof. rewrite FloatAxioms.leb_spec, is_nan_true. intros ->. apply SFleb_nan_r. Qed.

(** Zeros: a product with a zero factor and a finite one is zero, and so
    on; no rounding is involved. *)
Lemma Prim2SF_zero : Prim2SF PrimFloat.zero = S754_zero false.
Proof. vm_compute. reflexivity. Qed.

Lemma b64_zero_spec (x : PrimFloat.float) :
  PrimFloat.eqb x PrimFloat.zero = true <-> exists s, Prim2SF x = S754_zero s.
Proof.
  rewrite FloatAxioms.eqb_spec, Prim2SF_zero. unfold SFeqb.
  destruct (Prim2SF x) as [s|[]| |[] m e]; simpl; split; intros H;
    try discriminate; try (destruct H; discriminate); eauto.
Qed.

Lemma is_finite_spec (x : PrimFloat.float) :
  PrimFloat.is_finite x = sf_finite (Prim2SF x).
Proof.
  unfold PrimFloat.is_finite, PrimFloat.is_nan, PrimFloat.is_infinity.
  rewrite !FloatAxioms.eqb_spec, abs_spec.
  replace (Prim2SF PrimFloat.infinity) with (S754_infinity false) by (vm_compute; reflexivity).
  unfold SFeqb.
  destruct (Prim2SF x) as [s|[]| |[] m e]; simpl; try reflexivity.
  - rewrite Z.compare_refl. fold (Pos.compare m m). rewrite Pos.compare_refl. reflexivity.
  - rewrite Z.compare_refl. fold (Pos.compare m m). rewrite Pos.compare_refl. reflexivity.
Qed.

Lemma b64_mul_zero_l (x y : PrimFloat.float) :
  PrimFloat.eqb x PrimFloat.zero = true -> PrimFloat.is_finite y = true ->
  PrimFloat.eqb (PrimFloat.mul x y) PrimFloat.zero = true.
Proof.
  rewrite is_finite_spec. intros Hx Hy. apply b64_zero_spec in Hx as [s Hx].
  apply b64_zero_spec. rewrite mul_spec, Hx. unfold SF64mul.
  destruct (Prim2SF y) as [s'|[]| |s' m e]; simpl in *; try discriminate; eauto.
Qed.

Lemma b64_mul_zero_r (x y : PrimFloat.float) :
  PrimFloat.is_finite x = true -> PrimFloat.eqb y PrimFloat.zero = true ->
  PrimFloat.eqb (PrimFloat.mul x y) PrimFloat.zero = true.
Proof.
  rewrite is_finite_spec. intros Hx Hy. apply b64_zero_spec in Hy as [s Hy].
  apply b64_zero_spec. rewrite mul_spec, Hy. unfold SF64mul.
  destruct (Prim2SF x) as [s'|[]| |s' m e]; simpl in *; try discriminate; eauto.
Qed.

(** [0.0 + z] for a zero [z] is [0.0] itself, with its sign. *)
Lemma b64_add_zero (z : PrimFloat.float) :
  PrimFloat.eqb z PrimFloat.zero = true ->
  PrimFloat.add PrimFloat.zero z = PrimFloat.zero.
Proof.
  intros Hz. apply b64_zero_spec in Hz as [s Hz].
  apply Prim2SF_inj. rewrite add_spec, Hz, Prim2SF_zero.
  destruct s; reflexivity.
Qed.

(** [x + z] for a zero [z] and a number [x] that is not zero is [x]. *)
Lemma b64_add_zero_r (x z : PrimFloat.float) :
  PrimFloat.eqb x PrimFloat.zero = false ->
  PrimFloat.eqb z PrimFloat.zero = true ->
  PrimFloat.add x z = x.
Proof.
  intros Hx Hz. apply b64_zero_spec in Hz as [s Hz].
  apply Prim2SF_inj. rewrite add_spec, Hz.
  destruct (Prim2SF x) as [s'|[]| |s' m e] eqn:E; try reflexivity.
  exfalso. assert (H : PrimFloat.eqb x PrimFloat.zero = true)
    by (apply b64_zero_spec; eauto). congruence.
Qed.

Lemma b64_div_zero (x y : PrimFloat.float) :
  PrimFloat.eqb x PrimFloat.zero = true ->
  PrimFloat.is_finite y = true -> PrimFloat.eqb y PrimFloat.zero = false ->
  PrimFloat.eqb (PrimFloat.div x y) PrimFloat.zero = true.
Proof.
  rewrite is_finite_spec. intros Hx Hy Hy0. apply b64_zero_spec in Hx as [s Hx].
  apply b64_zero_spec. rewrite div_spec, Hx. unfold SF64div.
  destruct (Prim2SF y) as [s'|[]| |s' m e] eqn:E; simpl in *; try discriminate; eauto.
  exfalso. assert (H : PrimFloat.eqb y PrimFloat.zero = true)
    by (apply b64_zero_spec; eauto). congruence.
Qed.

Lemma fexp64 (e : Z) : fexp prec emax e = Z.max (e - 53) (-1074).
Proof. reflexivity. Qed.

Lemma digits2_pos_bounds (m : positive) :
  2 ^ (Zpos (digits2_pos m) - 1) <= Zpos m < 2 ^ Zpos (digits2_pos m).
Proof.
  induction m as [m IH|m IH|]; simpl digits2_pos.
  - rewrite Pos2Z.inj_succ. change (Z.pos m~1) with (2 * Z.pos m + 1).
    replace (Z.succ (Zpos (digits2_pos m)) - 1) with (Z.succ (Zpos (digits2_pos m) - 1)) by lia.
    rewrite !Z.pow_succ_r by lia. lia.
  - rewrite Pos2Z.inj_succ. change (Z.pos m~0) with (2 * Z.pos m).
    replace (Z.succ (Zpos (digits2_pos m)) - 1) with (Z.succ (Zpos (digits2_pos m) - 1)) by lia.
    rewrite !Z.pow_succ_r by lia. lia.
  - simpl. lia.
Qed.

Lemma digits2_pos_unique (m : positive) (d : Z) :
  2 ^ (d - 1) <= Zpos m < 2 ^ d -> Zpos (digits2_pos m) = d.
Proof.
  intros [Hlo Hhi]. pose proof (digits2_pos_bounds m) as [Hlo' Hhi'].
  set (d' := Zpos (digits2_pos m)) in *.
  assert (Hd : 0 < d).
  { destruct (Z.ltb_spec 0 d) as [|Hle]; [assumption|].
    assert (2 ^ d <= 1).
    { destruct (Z.eq_dec d 0) as [->|]; [simpl; lia|].
      rewrite Z.pow_neg_r by lia. lia. }
    lia. }
  destruct (Z.lt_trichotomy d' d) as [Hlt|[Heq|Hgt]]; [|exact Heq|].
  - assert (2 ^ d' <= 2 ^ (d - 1)) by (apply Z.pow_le_mono_r; lia). lia.
  - assert (2 ^ d <= 2 ^ (d' - 1)) by (apply Z.pow_le_mono_r; lia). lia.
Qed.

Lemma iter_pos_nat {A : Type} (f : A -> A) (p : positive) (x : A) :
  SpecFloat.iter_pos f p x = Nat.iter (Pos.to_nat p) f x.
Proof.
  revert x; induction p as [p IH|p IH|]; intros x; simpl SpecFloat.iter_pos.
  - rewrite !IH, Pos2Nat.inj_xI.
    replace (S (2 * Pos.to_nat p))%nat with (Pos.to_nat p + S (Pos.to_nat p))%nat by lia.
    rewrite Nat.iter_add, Nat.iter_succ_r. reflexivity.
  - rewrite !IH, Pos2Nat.inj_xO.
    replace (2 * Pos.to_nat p)%nat with (Pos.to_nat p + Pos.to_nat p)%nat by lia.
    rewrite Nat.iter_add. reflexivity.
  - reflexivity.
Qed.

Lemma shr_1_spec (mrs : shr_record) :
  0 <= shr_m mrs ->
  shr_m (shr_1 mrs) = shr_m mrs / 2 /\
  (shr_tail (shr_1 mrs) = false <-> shr_tail mrs = false /\ shr_m mrs mod 2 = 0).
Proof.
  destruct mrs as [m r s]. unfold shr_tail. simpl shr_m.
  destruct m as [|[p|p|]|p]; intros Hm; try lia; simpl.
  - split; [reflexivity|]. destruct r, s; simpl; intuition congruence.
  - split.
    + change (Z.pos p~1) with (2 * Z.pos p + 1). apply Z.div_unique with 1; lia.
    + change (Z.pos p~1) with (2 * Z.pos p + 1).
      replace ((2 * Z.pos p + 1) mod 2) with 1
        by (apply Z.mod_unique with (Z.pos p); lia).
      intuition (try discriminate; try lia).
  - split.
    + change (Z.pos p~0) with (2 * Z.pos p). apply Z.div_unique with 0; lia.
    + change (Z.pos p~0) with (2 * Z.pos p).
      replace ((2 * Z.pos p) mod 2) with 0
        by (apply Z.mod_unique with (Z.pos p); lia).
      destruct r, s; simpl; intuition congruence.
  - split; [reflexivity|]. intuition (try discriminate).
Qed.

Lemma shr_iter (k : nat) (mrs : shr_record) :
  0 <= shr_m mrs ->
  shr_m (Nat.iter k shr_1 mrs) = shr_m mrs / 2 ^ Z.of_nat k /\
  (shr_tail (Nat.iter k shr_1 mrs) = false <->
   shr_tail mrs = false /\ shr_m mrs mod 2 ^ Z.of_nat k = 0).
Proof.
  intros Hm. induction k as [|k [IHm IHt]].
  - simpl. rewrite Z.div_1_r, Z.mod_1_r. tauto.
  - rewrite Nat.iter_succ.
    assert (Hp : 0 < 2 ^ Z.of_nat k) by (apply Z.pow_pos_nonneg; lia).
    assert (Hk : 0 <= shr_m (Nat.iter k shr_1 mrs)).
    { rewrite IHm. apply Z.div_pos; lia. }
    destruct (shr_1_spec _ Hk) as [Hm1 Ht1].
    rewrite Nat2Z.inj_succ, Z.pow_succ_r by lia.
    rewrite (Z.mul_comm 2).
    split.
    + rewrite Hm1, IHm. apply Z.div_div; lia.
    + rewrite Ht1, IHt, IHm.
      rewrite Z.rem_mul_r by lia.
      pose proof (Z.mod_pos_bound (shr_m mrs) (2 ^ Z.of_nat k) Hp).
      pose proof (Z.mod_pos_bound (shr_m mrs / 2 ^ Z.of_nat k) 2 ltac:(lia)).
      split.
      * intros [[Ht Hr] Hq]. split; [exact Ht|]. rewrite Hr, Hq. lia.
      * intros [Ht Hs]. split; [split; [exact Ht|]|]; nia.
Qed.

Lemma round_nearest_even_spec (mrs : shr_record) :
  let r := round_nearest_even (shr_m mrs) (loc_of_shr_record mrs) in
  r = shr_m mrs \/ (r = shr_m mrs + 1 /\ shr_tail mrs = true).
Proof.
  destruct mrs as [m [] []]; unfold shr_tail; simpl; try destruct (Z.even m); auto.
Qed.

Lemma shr_fexp_exact (M : positive) (e : Z) :
  let e1 := Z.max (Zpos (digits2_pos M) + e - 53) (-1074) in
  e <= e1 ->
  exists mrs,
    shr_fexp prec emax (Zpos M) e loc_Exact = (mrs, e1) /\
    shr_m mrs = Zpos M / 2 ^ (e1 - e) /\
    (shr_tail mrs = false <-> Zpos M mod 2 ^ (e1 - e) = 0).
Proof.
  intros e1 He. unfold shr_fexp. simpl Zdigits2. simpl shr_record_of_loc.
  rewrite fexp64. fold e1. unfold shr.
  destruct (e1 - e) as [|p|p] eqn:En; [| |lia].
  - eexists; split; [f_equal; lia|]. simpl shr_m. unfold shr_tail. simpl.
    rewrite Z.div_1_r, Z.mod_1_r. tauto.
  - eexists; split; [f_equal; lia|]. rewrite iter_pos_nat.
    pose proof (shr_iter (Pos.to_nat p) {| shr_m := Zpos M; shr_r := false; shr_s := false |})
      as Hs.
    rewrite positive_nat_Z in Hs. simpl shr_m in Hs. unfold shr_tail at 2 in Hs. simpl in Hs.
    destruct Hs as [Hm Ht]; [lia|]. split; [exact Hm|]. rewrite Ht. tauto.
Qed.

Lemma shr_fexp_again (q e1 : Z) :
  -1074 <= e1 -> 0 <= q <= 2 ^ 53 ->
  shr_fexp prec emax q e1 loc_Exact =
  if q =? 2 ^ 53 then ({| shr_m := 2 ^ 52; shr_r := false; shr_s := false |}, e1 + 1)
  else ({| shr_m := q; shr_r := false; shr_s := false |}, e1).
Proof.
  intros He Hq. unfold shr_fexp. rewrite fexp64. simpl shr_record_of_loc.
  destruct (Z.eqb_spec q (2 ^ 53)) as [->|Hne].
  - replace (Z.max (Zdigits2 (2 ^ 53) + e1 - 53) (-1074) - e1) with 1
      by (change (Zdigits2 (2 ^ 53)) with 54; lia).
    reflexivity.
  - assert (Hd : Zdigits2 q <= 53).
    { destruct q as [|p|p]; simpl; [lia| |lia].
      pose proof (digits2_pos_bounds p) as [Hlo _].
      destruct (Z.leb_spec (Zpos (digits2_pos p)) 53) as [|Hgt]; [assumption|].
      assert (2 ^ 53 <= 2 ^ (Zpos (digits2_pos p) - 1)) by (apply Z.pow_le_mono_r; lia).
      lia. }
    unfold shr.
    destruct (Z.max (Zdigits2 q + e1 - 53) (-1074) - e1) as [|p|p] eqn:En; [f_equal; lia|lia|reflexivity].
Qed.

Lemma binary_round_aux_spec (s : bool) (M : positive) (e : Z) :
  let e1 := Z.max (Zpos (digits2_pos M) + e - 53) (-1074) in
  e <= e1 ->
  exists q,
    (q = Zpos M / 2 ^ (e1 - e) \/
     (q = Zpos M / 2 ^ (e1 - e) + 1 /\ Zpos M mod 2 ^ (e1 - e) <> 0)) /\
    0 <= q <= 2 ^ 53 /\
    (e1 = -1074 \/ 2 ^ 52 <= Zpos M / 2 ^ (e1 - e)) /\
    binary_round_aux prec emax s (Zpos M) e loc_Exact = round_result s q e1.
Proof.
  intros e1 He.
  destruct (shr_fexp_exact M e He) as (mrs & Hshr & Hm & Ht). fold e1 in Hshr, Hm, Ht.
  pose proof (digits2_pos_bounds M) as [Hlo Hhi].
  set (d := Zpos (digits2_pos M)) in *.
  set (n := e1 - e) in *.
  assert (Hn : 0 <= n) by (unfold n; lia).
  assert (Hp : 0 < 2 ^ n) by (apply Z.pow_pos_nonneg; lia).
  assert (Hq0 : 0 <= Zpos M / 2 ^ n) by (apply Z.div_pos; lia).
  assert (Hq1 : Zpos M / 2 ^ n < 2 ^ 53).
  { apply Z.div_lt_upper_bound; [exact Hp|].
    rewrite <- Z.pow_add_r by lia.
    assert (2 ^ d <= 2 ^ (n + 53)) by (apply Z.pow_le_mono_r; unfold n, e1; lia).
    lia. }
  assert (Hq2 : e1 = -1074 \/ 2 ^ 52 <= Zpos M / 2 ^ n).
  { destruct (Z.eq_dec e1 (-1074)) as [|Hne]; [left; assumption|right].
    apply Z.div_le_lower_bound; [exact Hp|].
    rewrite <- Z.pow_add_r by lia.
    replace (n + 52) with (d - 1) by (unfold n, e1 in *; lia). exact Hlo. }
  pose proof (round_nearest_even_spec mrs) as Hr. cbv zeta in Hr.
  set (q := round_nearest_even (shr_m mrs) (loc_of_shr_record mrs)) in *.
  rewrite Hm in Hr.
  exists q.
  assert (Hq : 0 <= q <= 2 ^ 53) by (destruct Hr as [->|[-> _]]; lia).
  split.
  { destruct Hr as [Hr|[Hr Htl]]; [left; exact Hr|right; split; [exact Hr|]].
    intros Hz. apply Ht in Hz. congruence. }
  split; [exact Hq|].
  split; [exact Hq2|].
  unfold binary_round_aux. rewrite Hshr. fold q.
  rewrite shr_fexp_again by (unfold e1; lia).
  unfold round_result.
  destruct (Z.eqb_spec q (2 ^ 53)) as [Heq|Hne].
  - rewrite Heq. simpl shr_m. reflexivity.
  - simpl shr_m. destruct q as [|m|m]; [reflexivity|reflexivity|lia].
Qed.

Lemma pow2_pos (n : Z) : 0 <= n -> 0 < 2 ^ n.
Proof. intros. apply Z.pow_pos_nonneg; lia. Qed.

Lemma pow2_split (a b : Z) : 0 <= a -> 0 <= b -> 2 ^ (a + b) = 2 ^ a * 2 ^ b.
Proof. intros. apply Z.pow_add_r; assumption. Qed.

Lemma bounded_inv (m : positive) (e : Z) :
  bounded prec emax m e = true ->
  -1074 <= e <= 971 /\ Zpos m < 2 ^ 53 /\ (e = -1074 \/ 2 ^ 52 <= Zpos m).
Proof.
  unfold bounded, canonical_mantissa. rewrite fexp64.
  intros H. apply andb_prop in H as [Hc He].
  apply Z.eqb_eq in Hc. apply Z.leb_le in He. change (emax - prec) with 971 in He.
  pose proof (digits2_pos_bounds m) as [Hlo Hhi].
  set (d := Zpos (digits2_pos m)) in *.
  split; [lia|]. split.
  - assert (2 ^ d <= 2 ^ 53) by (apply Z.pow_le_mono_r; lia). lia.
  - destruct (Z.eq_dec e (-1074)) as [|Hne]; [left; assumption|right].
    replace d with 53 in Hlo by lia. exact Hlo.
Qed.

Lemma bounded_intro (q e : Z) :
  -1074 <= e <= 971 -> 0 < q < 2 ^ 53 -> (e = -1074 \/ 2 ^ 52 <= q) ->
  bounded prec emax (Z.to_pos q) e = true.
Proof.
  intros He Hq Hn. destruct q as [|p|p]; try lia. simpl Z.to_pos.
  unfold bounded, canonical_mantissa. rewrite fexp64.
  apply andb_true_intro. split; [|apply Z.leb_le; change (emax - prec) with 971; lia].
  apply Z.eqb_eq.
  pose proof (digits2_pos_bounds p) as [Hlo Hhi].
  destruct (Z.le_gt_cases (2 ^ 52) (Zpos p)) as [Hge|Hlt].
  - rewrite (digits2_pos_unique p 53) by (simpl Z.sub; lia). lia.
  - assert (He' : e = -1074) by lia.
    assert (Zpos (digits2_pos p) <= 53); [|lia].
    destruct (Z.leb_spec (Zpos (digits2_pos p)) 53) as [|Hgt]; [assumption|].
    assert (2 ^ 53 <= 2 ^ (Zpos (digits2_pos p) - 1)) by (apply Z.pow_le_mono_r; lia).
    lia.
Qed.

Lemma round_result_cases (s : bool) (q e1 c : Z) :
  1074 <= c -> -1074 <= e1 -> 0 < q <= 2 ^ 53 -> (e1 = -1074 \/ 2 ^ 52 <= q) ->
  (round_result s q e1 = S754_infinity s /\ 2 ^ (1024 + c) <= q * 2 ^ (e1 + c)) \/
  (exists m e, round_result s q e1 = S754_finite s m e /\
               bounded prec emax m e = true /\ scaled c m e = q * 2 ^ (e1 + c)).
Proof.
  intros Hc He Hq Hn. unfold round_result.
  destruct q as [|p|p]; try lia.
  destruct (Z.eqb_spec (Zpos p) (2 ^ 53)) as [Heq|Hne].
  - destruct (Z.leb_spec (e1 + 1) 971) as [Hle|Hgt].
    + right. exists (Z.to_pos (2 ^ 52)), (e1 + 1). split; [reflexivity|]. split.
      * apply bounded_intro; [lia|simpl; lia|right; lia].
      * unfold scaled. rewrite Heq.
        replace (e1 + 1 + c) with (1 + (e1 + c)) by lia.
        rewrite pow2_split by lia. simpl Z.to_pos. simpl (2 ^ 1). lia.
    + left. split; [reflexivity|]. rewrite Heq.
      change (2 ^ 53) with (2 ^ 53 * 1) at 1.
      replace (1024 + c) with (53 + (971 + c)) by lia.
      rewrite pow2_split by lia.
      assert (2 ^ (971 + c) <= 2 ^ (e1 + c)) by (apply Z.pow_le_mono_r; lia).
      nia.
  - destruct (Z.leb_spec e1 971) as [Hle|Hgt].
    + right. exists p, e1. split; [reflexivity|]. split; [|reflexivity].
      apply (bounded_intro (Zpos p)); [lia|lia|exact Hn].
    + left. split; [reflexivity|].
      destruct Hn as [Hn|Hn]; [lia|].
      replace (1024 + c) with (52 + (972 + c)) by lia.
      rewrite pow2_split by lia.
      assert (2 ^ (972 + c) <= 2 ^ (e1 + c)) by (apply Z.pow_le_mono_r; lia).
      assert (0 < 2 ^ (972 + c)) by (apply pow2_pos; lia).
      nia.
Qed.

Lemma scaled_pos (c : Z) (m : positive) (e : Z) : 0 <= e + c -> 0 < scaled c m e.
Proof. intros. unfold scaled. pose proof (pow2_pos (e + c)). nia. Qed.

Lemma scaled_lt_exp (c : Z) (m1 : positive) (e1 : Z) (m2 : positive) (e2 : Z) :
  1074 <= c -> bounded prec emax m1 e1 = true -> bounded prec emax m2 e2 = true ->
  e1 < e2 -> scaled c m1 e1 < scaled c m2 e2.
Proof.
  intros Hc H1 H2 Hlt.
  apply bounded_inv in H1 as (He1 & Hm1 & _).
  apply bounded_inv in H2 as (He2 & _ & Hn2).
  destruct Hn2 as [Hn2|Hn2]; [lia|].
  unfold scaled.
  assert (Hp1 : 0 < 2 ^ (e1 + c)) by (apply pow2_pos; lia).
  assert (Hle : 2 * 2 ^ (e1 + c) <= 2 ^ (e2 + c)).
  { replace (2 * 2 ^ (e1 + c)) with (2 ^ (1 + (e1 + c))) by (rewrite pow2_split by lia; reflexivity).
    apply Z.pow_le_mono_r; lia. }
  assert (Zpos m1 * 2 ^ (e1 + c) < 2 ^ 53 * 2 ^ (e1 + c)) by nia.
  assert (2 ^ 52 * 2 ^ (e2 + c) <= Zpos m2 * 2 ^ (e2 + c)) by nia.
  change (2 ^ 53) with (2 ^ 52 * 2) in *. nia.
Qed.

Lemma scaled_le_compare (c : Z) (m1 : positive) (e1 : Z) (m2 : positive) (e2 : Z) :
  1074 <= c -> bounded prec emax m1 e1 = true -> bounded prec emax m2 e2 = true ->
  (scaled c m1 e1 <= scaled c m2 e2 <->
   SFleb (S754_finite false m1 e1) (S754_finite false m2 e2) = true).
Proof.
  intros Hc H1 H2. unfold SFleb. simpl SFcompare. fold (Pos.compare m1 m2).
  destruct (Z.compare_spec e1 e2) as [Heq|Hlt|Hgt].
  - subst e2. unfold scaled.
    pose proof (bounded_inv _ _ H1) as (He1 & _ & _).
    assert (Hp1 : 0 < 2 ^ (e1 + c)) by (apply pow2_pos; lia).
    destruct (Pos.compare_spec m1 m2) as [Hm|Hm|Hm].
    + subst. split; [reflexivity|lia].
    + split; [reflexivity|]. intros _. nia.
    + split; [|discriminate]. intros. exfalso. nia.
  - pose proof (scaled_lt_exp c m1 e1 m2 e2 Hc H1 H2 Hlt). split; [reflexivity|lia].
  - pose proof (scaled_lt_exp c m2 e2 m1 e1 Hc H2 H1 Hgt). split; [lia|discriminate].
Qed.

(** Rounding does not cross a number of the format: upwards. *)
Lemma round_up_le (M n q u : Z) (e1 c : Z) (B : positive) (eb : Z) :
  1074 <= c -> 0 <= n -> 0 < u -> 2 ^ (e1 + c) = u * 2 ^ n ->
  -1074 <= e1 ->
  0 < M ->
  (q = M / 2 ^ n \/ (q = M / 2 ^ n + 1 /\ M mod 2 ^ n <> 0)) ->
  (e1 = -1074 \/ 2 ^ 52 <= M / 2 ^ n) ->
  bounded prec emax B eb = true ->
  M * u <= scaled c B eb ->
  q * 2 ^ (e1 + c) <= scaled c B eb.
Proof.
  intros Hc Hn Hu Hpow He1 HM Hq Hnorm HB Hle.
  assert (HP : 0 < 2 ^ n) by (apply pow2_pos; lia).
  pose proof (Z.div_mod M (2 ^ n) ltac:(lia)) as Hdm.
  pose proof (Z.mod_pos_bound M (2 ^ n) HP) as Hrem.
  set (P := 2 ^ n) in *. set (q0 := M / P) in *. set (rem := M mod P) in *.
  rewrite Hpow.
  destruct Hq as [->|[-> Hr]].
  - assert (q0 * (u * P) <= M * u) by nia. lia.
  - pose proof (bounded_inv _ _ HB) as (Heb & HBm & HBn).
    unfold scaled in *.
    destruct (Z.le_gt_cases e1 eb) as [Hge|Hlt].
    + assert (Ht : 2 ^ (eb + c) = 2 ^ (eb - e1) * (u * P)).
      { rewrite <- Hpow, <- pow2_split by lia. f_equal. lia. }
      assert (Ht0 : 0 < 2 ^ (eb - e1)) by (apply pow2_pos; lia).
      set (t := 2 ^ (eb - e1)) in *. rewrite Ht in *.
      assert (HMB : M <= Zpos B * t * P).
      { apply Z.mul_le_mono_pos_r with u; [exact Hu|]. lia. }
      assert (Hq1 : q0 + 1 <= Zpos B * t).
      { assert (P * q0 < Zpos B * t * P) by lia.
        assert (q0 < Zpos B * t) by nia. lia. }
      replace (Zpos B * (t * (u * P))) with (Zpos B * t * (u * P)) by ring.
      apply Z.mul_le_mono_nonneg_r; [nia|exact Hq1].
    + exfalso.
      destruct Hnorm as [Hnorm|Hnorm]; [lia|].
      assert (H2 : 2 * 2 ^ (eb + c) <= 2 ^ (e1 + c)).
      { replace (2 * 2 ^ (eb + c)) with (2 ^ (1 + (eb + c)))
          by (rewrite pow2_split by lia; reflexivity).
        apply Z.pow_le_mono_r; lia. }
      assert (H0 : 0 < 2 ^ (eb + c)) by (apply pow2_pos; lia).
      assert (HB' : Zpos B * 2 ^ (eb + c) < 2 ^ 53 * 2 ^ (eb + c)) by nia.
      change (2 ^ 53) with (2 ^ 52 * 2) in HB'.
      assert (Hlow : 2 ^ 52 * (u * P) <= M * u) by nia.
      rewrite <- Hpow in Hlow. nia.
Qed.

(** Downwards. *)
Lemma round_down_ge (M n q u : Z) (e1 c : Z) (B : positive) (eb : Z) :
  1074 <= c -> 0 <= n -> 0 < u -> 2 ^ (e1 + c) = u * 2 ^ n ->
  -1074 <= e1 ->
  0 < M ->
  (q = M / 2 ^ n \/ (q = M / 2 ^ n + 1 /\ M mod 2 ^ n <> 0)) ->
  (e1 = -1074 \/ 2 ^ 52 <= M / 2 ^ n) ->
  bounded prec emax B eb = true ->
  scaled c B eb <= M * u ->
  scaled c B eb <= q * 2 ^ (e1 + c).
Proof.
  intros Hc Hn Hu Hpow He1 HM Hq Hnorm HB Hle.
  assert (HP : 0 < 2 ^ n) by (apply pow2_pos; lia).
  pose proof (Z.div_mod M (2 ^ n) ltac:(lia)) as Hdm.
  pose proof (Z.mod_pos_bound M (2 ^ n) HP) as Hrem.
  set (P := 2 ^ n) in *. set (q0 := M / P) in *. set (rem := M mod P) in *.
  rewrite Hpow.
  destruct Hq as [->|[-> Hr]].
  - pose proof (bounded_inv _ _ HB) as (Heb & HBm & HBn).
    unfold scaled in *.
    destruct (Z.le_gt_cases e1 eb) as [Hge|Hlt].
    + assert (Ht : 2 ^ (eb + c) = 2 ^ (eb - e1) * (u * P)).
      { rewrite <- Hpow, <- pow2_split by lia. f_equal. lia. }
      assert (Ht0 : 0 < 2 ^ (eb - e1)) by (apply pow2_pos; lia).
      set (t := 2 ^ (eb - e1)) in *. rewrite Ht in *.
      assert (HMB : Zpos B * t * P <= M).
      { apply Z.mul_le_mono_pos_r with u; [exact Hu|]. lia. }
      assert (Hq1 : Zpos B * t <= q0).
      { assert (Zpos B * t * P < P * (q0 + 1)) by lia.
        assert (Zpos B * t < q0 + 1) by nia. lia. }
      replace (Zpos B * (t * (u * P))) with (Zpos B * t * (u * P)) by ring.
      apply Z.mul_le_mono_nonneg_r; [nia|exact Hq1].
    + destruct Hnorm as [Hnorm|Hnorm]; [lia|].
      assert (H2 : 2 * 2 ^ (eb + c) <= 2 ^ (e1 + c)).
      { replace (2 * 2 ^ (eb + c)) with (2 ^ (1 + (eb + c)))
          by (rewrite pow2_split by lia; reflexivity).
        apply Z.pow_le_mono_r; lia. }
      assert (H0 : 0 < 2 ^ (eb + c)) by (apply pow2_pos; lia).
      assert (HB' : Zpos B * 2 ^ (eb + c) < 2 ^ 53 * 2 ^ (eb + c)) by nia.
      change (2 ^ 53) with (2 ^ 52 * 2) in HB'.
      rewrite <- Hpow.
      assert (2 ^ 52 * 2 ^ (e1 + c) <= q0 * 2 ^ (e1 + c)) by nia.
      nia.
  - assert (M * u <= (q0 + 1) * (u * P)) by nia. lia.
Qed.

(** The rounded product or sum of a positive exact value that does not
    exceed a number of the format does not exceed it either. *)
Lemma binary_round_aux_le (c : Z) (s : bool) (M : positive) (e : Z) (B : positive) (eb : Z) :
  1074 <= c -> 0 <= e + c ->
  e <= Z.max (Zpos (digits2_pos M) + e - 53) (-1074) ->
  bounded prec emax B eb = true ->
  Zpos M * 2 ^ (e + c) <= scaled c B eb ->
  binary_round_aux prec emax s (Zpos M) e loc_Exact = S754_zero s \/
  exists m' e',
    binary_round_aux prec emax s (Zpos M) e loc_Exact = S754_finite s m' e' /\
    bounded prec emax m' e' = true /\ scaled c m' e' <= scaled c B eb.
Proof.
  intros Hc Hec He HB Hle.
  destruct (binary_round_aux_spec s M e He) as (q & Hq & Hq53 & Hnorm & ->).
  set (e1 := Z.max (Zpos (digits2_pos M) + e - 53) (-1074)) in *.
  assert (Hpow : 2 ^ (e1 + c) = 2 ^ (e + c) * 2 ^ (e1 - e)).
  { rewrite <- pow2_split by lia. f_equal. lia. }
  assert (Hu : 0 < 2 ^ (e + c)) by (apply pow2_pos; lia).
  pose proof (round_up_le (Zpos M) (e1 - e) q (2 ^ (e + c)) e1 c B eb
                Hc ltac:(lia) Hu Hpow ltac:(unfold e1; lia) ltac:(lia) Hq Hnorm HB Hle) as Hval.
  destruct (Z.eq_dec q 0) as [->|Hq0]; [left; reflexivity|right].
  assert (Hn' : e1 = -1074 \/ 2 ^ 52 <= q).
  { destruct Hnorm as [|Hn]; [left; assumption|right].
    destruct Hq as [->|[-> _]]; lia. }
  destruct (round_result_cases s q e1 c Hc ltac:(unfold e1; lia) ltac:(lia) Hn')
    as [[_ Hov]|(m' & e' & Hr & Hb & Hs)].
  - exfalso. pose proof (bounded_inv _ _ HB) as (Heb & HBm & _).
    unfold scaled in *.
    assert (2 ^ (eb + c) <= 2 ^ (971 + c)) by (apply Z.pow_le_mono_r; lia).
    assert (0 < 2 ^ (eb + c)) by (apply pow2_pos; lia).
    replace (1024 + c) with (53 + (971 + c)) in Hov by lia.
    rewrite pow2_split in Hov by lia. nia.
  - exists m', e'. split; [exact Hr|]. split; [exact Hb|]. rewrite Hs. exact Hval.
Qed.

Lemma binary_round_aux_ge (c : Z) (s : bool) (M : positive) (e : Z) (B : positive) (eb : Z) :
  1074 <= c -> 0 <= e + c ->
  e <= Z.max (Zpos (digits2_pos M) + e - 53) (-1074) ->
  bounded prec emax B eb = true ->
  scaled c B eb <= Zpos M * 2 ^ (e + c) ->
  binary_round_aux prec emax s (Zpos M) e loc_Exact = S754_infinity s \/
  exists m' e',
    binary_round_aux prec emax s (Zpos M) e loc_Exact = S754_finite s m' e' /\
    bounded prec emax m' e' = true /\ scaled c B eb <= scaled c m' e'.
Proof.
  intros Hc Hec He HB Hle.
  destruct (binary_round_aux_spec s M e He) as (q & Hq & Hq53 & Hnorm & ->).
  set (e1 := Z.max (Zpos (digits2_pos M) + e - 53) (-1074)) in *.
  assert (Hpow : 2 ^ (e1 + c) = 2 ^ (e + c) * 2 ^ (e1 - e)).
  { rewrite <- pow2_split by lia. f_equal. lia. }
  assert (Hu : 0 < 2 ^ (e + c)) by (apply pow2_pos; lia).
  pose proof (round_down_ge (Zpos M) (e1 - e) q (2 ^ (e + c)) e1 c B eb
                Hc ltac:(lia) Hu Hpow ltac:(unfold e1; lia) ltac:(lia) Hq Hnorm HB Hle) as Hval.
  assert (Hq0 : 0 < q).
  { pose proof (scaled_pos c B eb) as Hp.
    pose proof (bounded_inv _ _ HB) as (Heb & _ & _).
    specialize (Hp ltac:(lia)).
    assert (0 < 2 ^ (e1 + c)) by (apply pow2_pos; unfold e1; lia). nia. }
  assert (Hn' : e1 = -1074 \/ 2 ^ 52 <= q).
  { destruct Hnorm as [|Hn]; [left; assumption|right].
    destruct Hq as [->|[-> _]]; lia. }
  destruct (round_result_cases s q e1 c Hc ltac:(unfold e1; lia) ltac:(lia) Hn')
    as [[Hr _]|(m' & e' & Hr & Hb & Hs)].
  - left. exact Hr.
  - right. exists m', e'. split; [exact Hr|]. split; [exact Hb|]. rewrite Hs. exact Hval.
Qed.

Lemma scaled_shift (c : Z) (m : positive) (e : Z) :
  0 <= c -> 0 <= e + c -> scaled (c + c) m e = scaled c m e * 2 ^ c.
Proof.
  intros Hc He. unfold scaled.
  replace (e + (c + c)) with ((e + c) + c) by lia.
  rewrite pow2_split by lia. ring.
Qed.

Lemma digits2_pos_ge (m : positive) (k : Z) :
  2 ^ k <= Zpos m -> k < Zpos (digits2_pos m).
Proof.
  intros Hk. pose proof (digits2_pos_bounds m) as [_ Hhi].
  destruct (Z.lt_ge_cases k (Zpos (digits2_pos m))) as [|Hge]; [assumption|].
  assert (2 ^ Zpos (digits2_pos m) <= 2 ^ k) by (apply Z.pow_le_mono_r; lia). lia.
Qed.

(** What rounding a positive exact value gives, whatever its size. *)
Lemma binary_round_aux_sign (s : bool) (M : positive) (e : Z) :
  e <= Z.max (Zpos (digits2_pos M) + e - 53) (-1074) ->
  binary_round_aux prec emax s (Zpos M) e loc_Exact = S754_zero s \/
  binary_round_aux prec emax s (Zpos M) e loc_Exact = S754_infinity s \/
  exists m' e',
    binary_round_aux prec emax s (Zpos M) e loc_Exact = S754_finite s m' e' /\
    bounded prec emax m' e' = true.
Proof.
  intros He.
  destruct (binary_round_aux_spec s M e He) as (q & Hq & Hq53 & Hnorm & ->).
  set (e1 := Z.max (Zpos (digits2_pos M) + e - 53) (-1074)) in *.
  destruct (Z.eq_dec q 0) as [->|Hq0]; [left; reflexivity|right].
  assert (Hn' : e1 = -1074 \/ 2 ^ 52 <= q).
  { destruct Hnorm as [|Hn]; [left; assumption|right].
    destruct Hq as [->|[-> _]]; lia. }
  destruct (round_result_cases s q e1 1074 ltac:(lia) ltac:(unfold e1; lia) ltac:(lia) Hn')
    as [[Hr _]|(m' & e' & Hr & Hb & _)]; [left; exact Hr|right; eauto].
Qed.

(** The product of two positive numbers of the format, one of them
    normal. *)
Lemma SFmul_normal (mx : positive) (ex : Z) (my : positive) (ey : Z) :
  2 ^ 52 <= Zpos mx \/ 2 ^ 52 <= Zpos my ->
  ex + ey <= Z.max (Zpos (digits2_pos (mx * my)) + (ex + ey) - 53) (-1074).
Proof.
  intros Hy.
  assert (2 ^ 52 <= Zpos (mx * my)) by (rewrite Pos2Z.inj_mul; nia).
  pose proof (digits2_pos_ge (mx * my) 52 H). lia.
Qed.

Lemma SFmul_le (c : Z) (sx sy : bool) (mx : positive) (ex : Z) (my : positive) (ey : Z)
    (B : positive) (eb : Z) :
  1074 <= c ->
  bounded prec emax mx ex = true -> bounded prec emax my ey = true ->
  2 ^ 52 <= Zpos mx \/ 2 ^ 52 <= Zpos my ->
  bounded prec emax B eb = true ->
  scaled c mx ex * scaled c my ey <= scaled c B eb * 2 ^ c ->
  SF64mul (S754_finite sx mx ex) (S754_finite sy my ey) = S754_zero (xorb sx sy) \/
  exists m' e',
    SF64mul (S754_finite sx mx ex) (S754_finite sy my ey) = S754_finite (xorb sx sy) m' e' /\
    bounded prec emax m' e' = true /\ scaled c m' e' <= scaled c B eb.
Proof.
  intros Hc Hx Hy Hny HB Hle. unfold SF64mul, SFmul.
  pose proof (bounded_inv _ _ Hx) as (Hex & _ & _).
  pose proof (bounded_inv _ _ Hy) as (Hey & _ & _).
  pose proof (bounded_inv _ _ HB) as (Heb & _ & _).
  destruct (binary_round_aux_le (c + c) (xorb sx sy) (mx * my) (ex + ey) B eb
              ltac:(lia) ltac:(lia) (SFmul_normal mx ex my ey Hny) HB) as [Hz|(m' & e' & Hr & Hb & Hs)].
  - rewrite scaled_shift by lia.
    unfold scaled in *. rewrite Pos2Z.inj_mul.
    replace (ex + ey + (c + c)) with ((ex + c) + (ey + c)) by lia.
    rewrite pow2_split by lia.
    replace (Z.pos mx * Z.pos my * (2 ^ (ex + c) * 2 ^ (ey + c)))
      with (Z.pos mx * 2 ^ (ex + c) * (Z.pos my * 2 ^ (ey + c))) by ring.
    exact Hle.
  - left. exact Hz.
  - right. exists m', e'. split; [exact Hr|]. split; [exact Hb|].
    pose proof (bounded_inv _ _ Hb) as (He' & _ & _).
    rewrite !scaled_shift in Hs by lia.
    assert (0 < 2 ^ c) by (apply pow2_pos; lia). nia.
Qed.

Lemma SFmul_sign (sx sy : bool) (mx : positive) (ex : Z) (my : positive) (ey : Z) :
  2 ^ 52 <= Zpos mx \/ 2 ^ 52 <= Zpos my ->
  SF64mul (S754_finite sx mx ex) (S754_finite sy my ey) = S754_zero (xorb sx sy) \/
  SF64mul (S754_finite sx mx ex) (S754_finite sy my ey) = S754_infinity (xorb sx sy) \/
  exists m' e',
    SF64mul (S754_finite sx mx ex) (S754_finite sy my ey) = S754_finite (xorb sx sy) m' e' /\
    bounded prec emax m' e' = true.
Proof.
  intros Hny. unfold SF64mul, SFmul.
  apply binary_round_aux_sign, SFmul_normal; assumption.
Qed.

(** [shl_align] moves the exponent down and shifts the mantissa. *)
Lemma pos_iter_xO (m d : positive) : Zpos (Pos.iter xO m d) = Zpos m * 2 ^ Zpos d.
Proof.
  induction d as [|d IHd] using Pos.peano_ind.
  - simpl. lia.
  - rewrite Pos.iter_succ, Pos2Z.inj_succ, Z.pow_succ_r by lia.
    change (Z.pos (Pos.iter xO m d)~0) with (2 * Z.pos (Pos.iter xO m d)).
    rewrite IHd. ring.
Qed.

Lemma shl_align_spec (m : positive) (e e' : Z) :
  let r := shl_align m e e' in
  snd r = Z.min e e' /\ Zpos (fst r) = Zpos m * 2 ^ (e - Z.min e e').
Proof.
  unfold shl_align. destruct (e' - e) as [|d|d] eqn:Ed; simpl.
  - replace (e - Z.min e e') with 0 by lia. simpl. lia.
  - replace (e - Z.min e e') with 0 by lia. simpl. lia.
  - rewrite pos_iter_xO. replace (e - Z.min e e') with (Zpos d) by lia. lia.
Qed.

Lemma digits2_pos_shift (m m' : positive) (k : Z) :
  0 <= k -> Zpos m' = Zpos m * 2 ^ k ->
  Zpos (digits2_pos m') = Zpos (digits2_pos m) + k.
Proof.
  intros Hk Hm. apply digits2_pos_unique.
  pose proof (digits2_pos_bounds m) as [Hlo Hhi].
  assert (0 < 2 ^ k) by (apply pow2_pos; lia).
  rewrite Hm.
  replace (Zpos (digits2_pos m) + k - 1) with ((Zpos (digits2_pos m) - 1) + k) by lia.
  rewrite !pow2_split by lia. nia.
Qed.

(** [binary_round] is [binary_round_aux] at an exponent that leaves no
    digit to gain. *)
Lemma binary_round_aligned (s : bool) (m : positive) (e c : Z) :
  1074 <= c -> 0 <= e + c ->
  exists mz ez,
    binary_round prec emax s m e = binary_round_aux prec emax s (Zpos mz) ez loc_Exact /\
    ez <= Z.max (Zpos (digits2_pos mz) + ez - 53) (-1074) /\
    0 <= ez + c /\
    Zpos mz * 2 ^ (ez + c) = Zpos m * 2 ^ (e + c).
Proof.
  intros Hc He. unfold binary_round. rewrite fexp64.
  set (fe := Z.max (Zpos (digits2_pos m) + e - 53) (-1074)).
  pose proof (shl_align_spec m e fe) as Hs. cbv zeta in Hs.
  destruct (shl_align m e fe) as [mz ez]. simpl in Hs. destruct Hs as [Hez Hmz].
  exists mz, ez. split; [reflexivity|].
  assert (Hd : Zpos (digits2_pos mz) = Zpos (digits2_pos m) + (e - Z.min e fe))
    by (apply digits2_pos_shift; [lia|exact Hmz]).
  split; [unfold fe in *; lia|]. split; [unfold fe in *; lia|].
  rewrite Hmz, Hez.
  replace (e + c) with ((e - Z.min e fe) + (Z.min e fe + c)) by lia.
  rewrite (pow2_split (e - Z.min e fe) (Z.min e fe + c)) by (unfold fe; lia). ring.
Qed.

Lemma binary_round_le (c : Z) (s : bool) (m : positive) (e : Z) (B : positive) (eb : Z) :
  1074 <= c -> 0 <= e + c ->
  bounded prec emax B eb = true ->
  Zpos m * 2 ^ (e + c) <= scaled c B eb ->
  binary_round prec emax s m e = S754_zero s \/
  exists m' e',
    binary_round prec emax s m e = S754_finite s m' e' /\
    bounded prec emax m' e' = true /\ scaled c m' e' <= scaled c B eb.
Proof.
  intros Hc He HB Hle.
  destruct (binary_round_aligned s m e c Hc He) as (mz & ez & -> & Hn & Hez & Hv).
  apply binary_round_aux_le; try assumption. rewrite Hv. exact Hle.
Qed.

Lemma binary_round_ge (c : Z) (s : bool) (m : positive) (e : Z) (B : positive) (eb : Z) :
  1074 <= c -> 0 <= e + c ->
  bounded prec emax B eb = true ->
  scaled c B eb <= Zpos m * 2 ^ (e + c) ->
  binary_round prec emax s m e = S754_infinity s \/
  exists m' e',
    binary_round prec emax s m e = S754_finite s m' e' /\
    bounded prec emax m' e' = true /\ scaled c B eb <= scaled c m' e'.
Proof.
  intros Hc He HB Hle.
  destruct (binary_round_aligned s m e c Hc He) as (mz & ez & -> & Hn & Hez & Hv).
  apply binary_round_aux_ge; try assumption. rewrite Hv. exact Hle.
Qed.

Lemma binary_round_sign (s : bool) (m : positive) (e : Z) :
  -1074 <= e ->
  binary_round prec emax s m e = S754_zero s \/
  binary_round prec emax s m e = S754_infinity s \/
  exists m' e',
    binary_round prec emax s m e = S754_finite s m' e' /\
    bounded prec emax m' e' = true.
Proof.
  intros He.
  destruct (binary_round_aligned s m e 1074 ltac:(lia) ltac:(lia)) as (mz & ez & -> & Hn & _).
  apply binary_round_aux_sign. exact Hn.
Qed.

(** The sum of two numbers of the format, as exact integers at the
    smaller exponent. *)
Lemma SFadd_finite (sx : bool) (mx : positive) (ex : Z) (sy : bool) (my : positive) (ey : Z) :
  SF64add (S754_finite sx mx ex) (S754_finite sy my ey) =
  binary_normalize prec emax
    (cond_Zopp sx (Zpos mx * 2 ^ (ex - Z.min ex ey)) +
     cond_Zopp sy (Zpos my * 2 ^ (ey - Z.min ex ey))) (Z.min ex ey) false.
Proof.
  unfold SF64add, SFadd.
  pose proof (shl_align_spec mx ex (Z.min ex ey)) as [_ Hx].
  pose proof (shl_align_spec my ey (Z.min ex ey)) as [_ Hy].
  rewrite Hx, Hy.
  replace (Z.min ex (Z.min ex ey)) with (Z.min ex ey) by lia.
  replace (Z.min ey (Z.min ex ey)) with (Z.min ex ey) by lia.
  reflexivity.
Qed.

Local Abbreviation sf_half := (S754_finite false 4503599627370496 (-53)).
Local Abbreviation sf_one := (S754_finite false 4503599627370496 (-52)).
Local Abbreviation sf_hundred := (S754_finite false 7036874417766400 (-46)).

Lemma scaled_half (c : Z) : 53 <= c -> scaled c 4503599627370496 (-53) = 2 ^ 52 * 2 ^ (c - 53).
Proof. intros. unfold scaled. replace (-53 + c) with (c - 53) by lia. reflexivity. Qed.

Lemma scaled_one (c : Z) : 53 <= c -> scaled c 4503599627370496 (-52) = 2 ^ 52 * (2 * 2 ^ (c - 53)).
Proof.
  intros. unfold scaled. replace (-52 + c) with (1 + (c - 53)) by lia.
  rewrite pow2_split by lia. reflexivity.
Qed.

Lemma pow2_c (c : Z) : 53 <= c -> 2 ^ c = 2 ^ 52 * (2 * 2 ^ (c - 53)).
Proof.
  intros. replace c with (52 + (1 + (c - 53))) at 1 by lia.
  rewrite !pow2_split by lia. reflexivity.
Qed.

Lemma SFleb_of_ltb_false (x y : spec_float) :
  x <> S754_nan -> y <> S754_nan -> SFltb y x = false -> SFleb x y = true.
Proof. intros Hx Hy H. rewrite SFleb_ltb, H by assumption. reflexivity. Qed.

Lemma SFltb_of_leb (x y : spec_float) : SFleb x y = true -> SFltb y x = false.
Proof.
  intros H.
  assert (Hx : x <> S754_nan) by (intros ->; discriminate).
  assert (Hy : y <> S754_nan) by (intros ->; rewrite SFleb_nan_r in H; discriminate).
  rewrite SFleb_ltb in H by assumption. destruct (SFltb y x); [discriminate|reflexivity].
Qed.

(** [0.5 + 0.5 * x] for a positive [x] of the format that is at most 1. *)
Lemma sf_conf_pos (m : positive) (e : Z) :
  bounded prec emax m e = true ->
  SFleb (S754_finite false m e) sf_one = true ->
  exists m' e',
    SF64add sf_half (SF64mul sf_half (S754_finite false m e)) = S754_finite false m' e' /\
    bounded prec emax m' e' = true /\
    SFleb sf_half (S754_finite false m' e') = true /\
    SFleb (S754_finite false m' e') sf_one = true.
Proof.
  intros Hb Hle. set (c := 1074).
  assert (Hc : 1074 <= c) by (unfold c; lia).
  assert (Hbh : bounded prec emax 4503599627370496 (-53) = true) by reflexivity.
  assert (Hbo : bounded prec emax 4503599627370496 (-52) = true) by reflexivity.
  apply (scaled_le_compare c) in Hle; [|assumption..].
  rewrite scaled_one in Hle by lia.
  assert (Hu : 0 < 2 ^ (c - 53)) by (apply pow2_pos; lia).
  destruct (SFmul_le c false false 4503599627370496 (-53) m e 4503599627370496 (-53)
              Hc Hbh Hb ltac:(left; simpl; lia) Hbh) as [Hp|(mp & ep & Hp & Hbp & Hvp)].
  { rewrite pow2_c by lia. rewrite scaled_half by lia.
    apply Z.mul_le_mono_nonneg_l; [|exact Hle].
    set (u := 2 ^ (c - 53)) in *. lia. }
  - rewrite Hp. exists 4503599627370496%positive, (-53). repeat split; reflexivity.
  - rewrite Hp. simpl xorb. rewrite SFadd_finite. simpl cond_Zopp.
    pose proof (bounded_inv _ _ Hbp) as (Hep & _ & _).
    set (ez := Z.min (-53) ep).
    assert (Hval : (4503599627370496 * 2 ^ (-53 - ez) + Zpos mp * 2 ^ (ep - ez)) * 2 ^ (ez + c)
                   = scaled c 4503599627370496 (-53) + scaled c mp ep).
    { unfold scaled.
      replace (-53 + c) with ((-53 - ez) + (ez + c)) by lia.
      replace (ep + c) with ((ep - ez) + (ez + c)) by lia.
      rewrite (pow2_split (-53 - ez)), (pow2_split (ep - ez)) by (unfold ez; lia). ring. }
    assert (Hpos : 0 < 4503599627370496 * 2 ^ (-53 - ez) + Zpos mp * 2 ^ (ep - ez)).
    { pose proof (pow2_pos (-53 - ez) ltac:(unfold ez; lia)).
      pose proof (pow2_pos (ep - ez) ltac:(unfold ez; lia)). nia. }
    destruct (4503599627370496 * 2 ^ (-53 - ez) + Zpos mp * 2 ^ (ep - ez)) as [|S|S] eqn:ES;
      try lia.
    simpl binary_normalize.
    rewrite scaled_half in Hvp, Hval by lia.
    pose proof (scaled_pos c mp ep ltac:(lia)) as Hpp.
    destruct (binary_round_le c false S ez 4503599627370496 (-52) Hc ltac:(unfold ez; lia) Hbo)
      as [Hz|(m1 & e1 & Hr1 & Hb1 & Hv1)].
    { rewrite Hval, scaled_one by lia. lia. }
    + exfalso.
      destruct (binary_round_ge c false S ez 4503599627370496 (-53) Hc ltac:(unfold ez; lia) Hbh)
        as [Hi|(m2 & e2 & Hr2 & _)]; [rewrite Hval, scaled_half by lia; lia| |]; congruence.
    + destruct (binary_round_ge c false S ez 4503599627370496 (-53) Hc ltac:(unfold ez; lia) Hbh)
        as [Hi|(m2 & e2 & Hr2 & Hb2 & Hv2)]; [rewrite Hval, scaled_half by lia; lia|congruence|].
      rewrite Hr1 in Hr2. injection Hr2 as <- <-.
      exists m1, e1. split; [exact Hr1|]. split; [exact Hb1|].
      split; apply (scaled_le_compare c); assumption.
Qed.

(** [0.5 + 0.5 * x] for a negative [x] of the format. *)
Lemma sf_conf_neg (m : positive) (e : Z) :
  bounded prec emax m e = true ->
  SFltb sf_one (SF64add sf_half (SF64mul sf_half (S754_finite true m e))) = false.
Proof.
  intros Hb. set (c := 1074).
  assert (Hc : 1074 <= c) by (unfold c; lia).
  assert (Hbh : bounded prec emax 4503599627370496 (-53) = true) by reflexivity.
  assert (Hbo : bounded prec emax 4503599627370496 (-52) = true) by reflexivity.
  destruct (SFmul_sign false true 4503599627370496 (-53) m e ltac:(left; simpl; lia))
    as [Hp|[Hp|(mp & ep & Hp & Hbp)]]; rewrite Hp; try reflexivity.
  simpl xorb. rewrite SFadd_finite. simpl cond_Zopp.
  pose proof (bounded_inv _ _ Hbp) as (Hep & _ & _).
  set (ez := Z.min (-53) ep).
  assert (Hval : (4503599627370496 * 2 ^ (-53 - ez) + - (Zpos mp * 2 ^ (ep - ez))) * 2 ^ (ez + c)
                 = scaled c 4503599627370496 (-53) - scaled c mp ep).
  { unfold scaled.
    replace (-53 + c) with ((-53 - ez) + (ez + c)) by lia.
    replace (ep + c) with ((ep - ez) + (ez + c)) by lia.
    rewrite (pow2_split (-53 - ez)), (pow2_split (ep - ez)) by (unfold ez; lia). ring. }
  pose proof (scaled_pos c mp ep ltac:(lia)) as Hpp.
  destruct (4503599627370496 * 2 ^ (-53 - ez) + - (Zpos mp * 2 ^ (ep - ez))) as [|S|S] eqn:ES.
  - reflexivity.
  - simpl binary_normalize.
    destruct (binary_round_le c false S ez 4503599627370496 (-53) Hc ltac:(unfold ez; lia) Hbh)
      as [Hz|(m1 & e1 & Hr1 & Hb1 & Hv1)]; [rewrite Hval; lia| |].
    + rewrite Hz. reflexivity.
    + rewrite Hr1. apply SFltb_of_leb. apply (scaled_le_compare c); try assumption.
      rewrite scaled_half in Hv1 by lia. rewrite scaled_one by lia.
      assert (Hu : 0 < 2 ^ (c - 53)) by (apply pow2_pos; lia). lia.
  - simpl binary_normalize.
    destruct (binary_round_sign true S ez ltac:(unfold ez; lia))
      as [Hr|[Hr|(m1 & e1 & Hr & _)]]; rewrite Hr; reflexivity.
Qed.

Lemma sf_conf_le_one (x : spec_float) :
  valid_binary x = true ->
  SFltb sf_one x = false ->
  SFltb sf_one (SF64add sf_half (SF64mul sf_half x)) = false.
Proof.
  intros Hv Hx. destruct x as [s|[]| |[] m e]; try reflexivity; try discriminate.
  - apply sf_conf_neg. exact Hv.
  - destruct (sf_conf_pos m e Hv) as (m' & e' & -> & _ & _ & Hle).
    + apply SFleb_of_ltb_false; [discriminate|discriminate|exact Hx].
    + apply SFltb_of_leb, Hle.
Qed.

Lemma sf_conf_range (x : spec_float) :
  valid_binary x = true ->
  SFleb (S754_zero false) x = true ->
  SFltb sf_one x = false ->
  SFleb sf_half (SF64add sf_half (SF64mul sf_half x)) = true /\
  SFleb (SF64add sf_half (SF64mul sf_half x)) sf_one = true.
Proof.
  intros Hv H0 Hx. destruct x as [s|[]| |[] m e]; try discriminate.
  - destruct s; split; reflexivity.
  - destruct (sf_conf_pos m e Hv) as (m' & e' & -> & _ & Hlo & Hhi).
    + apply SFleb_of_ltb_false; [discriminate|discriminate|exact Hx].
    + split; assumption.
Qed.

(** [x * 100.0] for [x] between 0 and 1. *)
Lemma sf_score_range (x : spec_float) :
  valid_binary x = true ->
  SFleb (S754_zero false) x = true ->
  SFleb x sf_one = true ->
  SFleb (S754_zero false) (SF64mul x sf_hundred) = true /\
  SFleb (SF64mul x sf_hundred) sf_hundred = true.
Proof.
  intros Hv H0 Hx. destruct x as [s|[]| |[] m e]; try discriminate.
  - destruct s; split; reflexivity.
  - set (c := 1074).
    assert (Hc : 1074 <= c) by (unfold c; lia).
    assert (Hbh : bounded prec emax 7036874417766400 (-46) = true) by reflexivity.
    assert (Hbo : bounded prec emax 4503599627370496 (-52) = true) by reflexivity.
    simpl in Hv.
    apply (scaled_le_compare c) in Hx; [|assumption..].
    rewrite scaled_one in Hx by lia.
    destruct (SFmul_le c false false m e 7036874417766400 (-46) 7036874417766400 (-46)
                Hc Hv Hbh ltac:(right; simpl; lia) Hbh) as [Hp|(mp & ep & Hp & Hbp & Hvp)].
    { rewrite pow2_c by lia. rewrite Z.mul_comm.
      apply Z.mul_le_mono_nonneg_l; [|exact Hx].
      pose proof (scaled_pos c 7036874417766400 (-46) ltac:(lia)). lia. }
    + rewrite Hp. split; reflexivity.
    + rewrite Hp. split; [reflexivity|]. apply (scaled_le_compare c); assumption.
Qed.

End Binary64Format.

(** ** The operations of the scoring code in binary64 *)

Section Binary64Scoring.

Lemma Prim2SF_b64_zero : Prim2SF b64_zero = S754_zero false.
Proof. vm_compute. reflexivity. Qed.

Lemma Prim2SF_b64_half : Prim2SF b64_half = S754_finite false 4503599627370496 (-53).
Proof. vm_compute. reflexivity. Qed.

Lemma Prim2SF_b64_one : Prim2SF b64_one = S754_finite false 4503599627370496 (-52).
Proof. vm_compute. reflexivity. Qed.

Lemma Prim2SF_b64_hundred : Prim2SF b64_hundred = S754_finite false 7036874417766400 (-46).
Proof. vm_compute. reflexivity. Qed.

(** [0.5 + 0.5 * x] is not above 1.0 when [x] is not. *)
Lemma b64_confidence_le_one (x : PrimFloat.float) :
  PrimFloat.ltb b64_one x = false ->
  PrimFloat.ltb b64_one (PrimFloat.add b64_half (PrimFloat.mul b64_half x)) = false.
Proof.
  rewrite !FloatAxioms.ltb_spec, add_spec, mul_spec, Prim2SF_b64_one, Prim2SF_b64_half.
  apply sf_conf_le_one, Prim2SF_valid.
Qed.

(** [0.5 + 0.5 * x] is between 0.5 and 1.0 when [x] is between 0.0 and
    1.0. *)
Lemma b64_confidence_range (x : PrimFloat.float) :
  PrimFloat.leb b64_zero x = true -> PrimFloat.ltb b64_one x = false ->
  PrimFloat.leb b64_half (PrimFloat.add b64_half (PrimFloat.mul b64_half x)) = true /\
  PrimFloat.leb (PrimFloat.add b64_half (PrimFloat.mul b64_half x)) b64_one = true.
Proof.
  rewrite !FloatAxioms.leb_spec, FloatAxioms.ltb_spec, add_spec, mul_spec,
    Prim2SF_b64_one, Prim2SF_b64_half, Prim2SF_b64_zero.
  apply sf_conf_range, Prim2SF_valid.
Qed.

(** [x * 100.0] is between 0.0 and 100.0 when [x] is between 0.0 and
    1.0. *)
Lemma b64_score_range (x : PrimFloat.float) :
  PrimFloat.leb b64_zero x = true -> PrimFloat.leb x b64_one = true ->
  PrimFloat.leb b64_zero (PrimFloat.mul x b64_hundred) = true /\
  PrimFloat.leb (PrimFloat.mul x b64_hundred) b64_hundred = true.
Proof.
  rewrite !FloatAxioms.leb_spec, mul_spec,
    Prim2SF_b64_one, Prim2SF_b64_hundred, Prim2SF_b64_zero.
  apply sf_score_range, Prim2SF_valid.
Qed.

Lemma b64_ltb_leb (x y : PrimFloat.float) :
  PrimFloat.ltb x y = true -> PrimFloat.leb x y = true.
Proof.
  rewrite FloatAxioms.ltb_spec, FloatAxioms.leb_spec. unfold SFltb, SFleb.
  destruct (SFcompare (Prim2SF x) (Prim2SF y)) as [[]|]; congruence.
Qed.

Lemma b64_ltb_not_nan (x y : PrimFloat.float) :
  PrimFloat.ltb x y = true -> PrimFloat.is_nan x = false /\ PrimFloat.is_nan y = false.
Proof.
  rewrite FloatAxioms.ltb_spec, !is_nan_spec. intros H. split; intros Hn; rewrite Hn in H.
  - discriminate.
  - rewrite SFltb_nan_r in H. discriminate.
Qed.

Lemma b64_leb_not_nan (x y : PrimFloat.float) :
  PrimFloat.leb x y = true -> PrimFloat.is_nan x = false /\ PrimFloat.is_nan y = false.
Proof.
  rewrite FloatAxioms.leb_spec, !is_nan_spec. intros H. split; intros Hn; rewrite Hn in H.
  - discriminate.
  - rewrite SFleb_nan_r in H. discriminate.
Qed.

Lemma b64_eqb_not_nan (x y : PrimFloat.float) :
  PrimFloat.eqb x y = true -> PrimFloat.is_nan x = false /\ PrimFloat.is_nan y = false.
Proof.
  rewrite FloatAxioms.eqb_spec, !is_nan_spec. unfold SFeqb.
  intros H. split; intros Hn; rewrite Hn in H.
  - discriminate.
  - destruct (Prim2SF x) as [[]|[]| |[] ? ?]; discriminate.
Qed.

Lemma b64_leb_trans (x y z : PrimFloat.float) :
  PrimFloat.leb x y = true -> PrimFloat.leb y z = true -> PrimFloat.leb x z = true.
Proof.
  intros Hxy Hyz.
  destruct (b64_leb_not_nan _ _ Hxy) as [Hx Hy].
  destruct (b64_leb_not_nan _ _ Hyz) as [_ Hz].
  rewrite b64_leb_ltb in * by assumption.
  apply negb_true_iff in Hxy, Hyz. apply negb_true_iff.
  exact (b64_ltb_negtrans z y x Hy Hyz Hxy).
Qed.

(** The clamp [max(0.0, min(1.0, s))] lies between 0.0 and 1.0 for every
    [s], NaN included: for a NaN it is 1.0. *)
Lemma b64_clamp_range (pow_half : PrimFloat.float -> PrimFloat.float) (s : PrimFloat.float) :
  let c := @fmax _ (binary64 pow_half) b64_zero (@fmin _ (binary64 pow_half) b64_one s) in
  PrimFloat.leb b64_zero c = true /\ PrimFloat.leb c b64_one = true.
Proof.
  unfold fmax, fmin. cbn [fltb binary64].
  destruct (PrimFloat.ltb s b64_one) eqn:Hs1.
  - destruct (PrimFloat.ltb b64_zero s) eqn:Hs0.
    + split; apply b64_ltb_leb; assumption.
    + split; vm_compute; reflexivity.
  - replace (PrimFloat.ltb b64_zero b64_one) with true by (vm_compute; reflexivity).
    split; vm_compute; reflexivity.
Qed.

(** [min(s, 1.0)] is not above 1.0, whatever [s]. *)
Lemma b64_min_one (pow_half : PrimFloat.float -> PrimFloat.float) (s : PrimFloat.float) :
  PrimFloat.ltb b64_one (@fmin _ (binary64 pow_half) s b64_one) = false.
Proof.
  unfold fmin. cbn [fltb binary64].
  destruct (PrimFloat.ltb b64_one s) eqn:Hs; [vm_compute; reflexivity|exact Hs].
Qed.

End Binary64Scoring.

(** ** The scoring code in any arithmetic *)

Section AnyArithmetic.
Context {F : Type} `{PyFloat F}.
Hypothesis one_not_zero : fzerob (dec 10 1) = false.

(** The divisor of [cosine_similarity] is never zero. *)
Lemma cosine_similarity_of (a b : list F) : cosine_similarity a b = Ok (cosine_of a b).
Proof.
  unfold cosine_similarity, cosine_of, truediv, f_or.
  destruct (fzerob (fmul (norm a) (norm b))) eqn:Hz.
  - rewrite one_not_zero. reflexivity.
  - rewrite Hz. reflexivity.
Qed.

(** What [compute_match_score] returns: it never raises. *)
Lemma compute_match_score_fields {L : Lower} (a b : list F) (rs js : list str) :
  exists r,
    compute_match_score a b rs js = Ok r /\
    similarity r = cosine_of a b /\
    score r = fmul (fmax (dec 0 1) (fmin (dec 10 1)
                (fadd (fmul (dec 7 1) (similarity r)) (fmul (dec 3 1) (jaccard r)))))
                (dec 1000 1) /\
    confidence r = fadd (dec 5 1) (fmul (dec 5 1) (fmin (similarity r) (dec 10 1))).
Proof.
  unfold compute_match_score. rewrite cosine_similarity_of. cbn [bind].
  unfold int_truediv.
  set (n := Z.of_nat (size (lowered rs ∪ lowered js))).
  assert (Hn : ((if (n =? 0)%Z then 1%Z else n) =? 0)%Z = false).
  { destruct (Z.eqb_spec n 0); [reflexivity|]. apply Z.eqb_neq. assumption. }
  rewrite Hn. cbn [bind]. eexists. split; [reflexivity|].
  cbn [similarity score confidence jaccard]. repeat split.
Qed.

(** What [top_k_matches] returns: it never raises. *)
Lemma top_k_matches_of (q : list F) (texts : list str) (vecs : list (list F)) (k : Z) :
  top_k_matches q texts vecs k =
  Ok (slice_to (py_sorted (fun x y => fltb (snd y) (snd x)) (scored_of q texts vecs)) k).
Proof.
  unfold top_k_matches.
  rewrite (for_each_ok _ (fun tv => (fst tv, cosine_of q (snd tv)))).
  - cbn [bind]. unfold scored_of. rewrite zip_map_snd. reflexivity.
  - intros tv _. rewrite cosine_similarity_of. reflexivity.
Qed.

Lemma scored_of_length (q : list F) (texts : list str) (vecs : list (list F)) :
  length (scored_of q texts vecs) = Nat.min (length texts) (length vecs).
Proof. unfold scored_of. rewrite zip_length, length_map. reflexivity. Qed.

End AnyArithmetic.

Lemma b64_one_not_zero (pow_half : PrimFloat.float -> PrimFloat.float) :
  @fzerob _ (binary64 pow_half) (@dec _ (binary64 pow_half) 10 1) = false.
Proof. vm_compute. reflexivity. Qed.

(** ** Real arithmetic of the scoring code *)

Section RealScoring.
Local Open Scope R_scope.

Lemma fold_left_Rplus (l : list R) (acc : R) :
  fold_left Rplus l acc = acc + fold_right Rplus 0 l.
Proof.
  revert acc; induction l as [|x l IH]; intros acc; simpl; [lra|].
  rewrite IH. lra.
Qed.

Lemma fsum_cons (x : R) (l : list R) : fsum (x :: l) = x + fsum l.
Proof.
  unfold fsum; simpl. rewrite !fold_left_Rplus. lra.
Qed.

Lemma fsum_nil : fsum (@nil R) = 0.
Proof. reflexivity. Qed.

Lemma dot_cons (x y : R) (a b : list R) : dot (x :: a) (y :: b) = x * y + dot a b.
Proof. unfold dot; simpl. apply fsum_cons. Qed.

Lemma dot_nil_l (b : list R) : dot [] b = 0.
Proof. reflexivity. Qed.

Lemma dot_nil_r (a : list R) : dot a [] = 0.
Proof. destruct a; reflexivity. Qed.

(** The sum of squares under the root of [norm]. *)
Lemma sumsq_cons (x : R) (a : list R) :
  fsum (List.map (fun x => fmul x x) (x :: a)) = x * x + fsum (List.map (fun x => fmul x x) a).
Proof. simpl List.map. apply fsum_cons. Qed.

Lemma sumsq_nonneg (a : list R) : 0 <= fsum (List.map (fun x => fmul x x) a).
Proof.
  induction a as [|x a IH]; [unfold fsum; simpl; lra|].
  rewrite sumsq_cons. nra.
Qed.

Lemma norm_nonneg (a : list R) : 0 <= norm a.
Proof. apply sqrt_pos. Qed.

Lemma norm_sqr (a : list R) : norm a * norm a = fsum (List.map (fun x => fmul x x) a).
Proof. apply sqrt_sqrt, sumsq_nonneg. Qed.

Lemma norm_zero_all (a : list R) : norm a = 0 -> Forall (fun x => x = 0) a.
Proof.
  intros Hn. assert (Hs : fsum (List.map (fun x => fmul x x) a) = 0).
  { rewrite <- norm_sqr, Hn. lra. }
  clear Hn. induction a as [|x a IH]; constructor.
  - rewrite sumsq_cons in Hs. pose proof (sumsq_nonneg a). nra.
  - apply IH. rewrite sumsq_cons in Hs. pose proof (sumsq_nonneg a). nra.
Qed.

Lemma dot_zero_l (a b : list R) : Forall (fun x => x = 0) a -> dot a b = 0.
Proof.
  intros Ha; revert b; induction Ha as [|x a Hx Ha IH]; intros b.
  - apply dot_nil_l.
  - destruct b as [|y b]; [apply dot_nil_r|].
    rewrite dot_cons, IH, Hx. lra.
Qed.

Lemma dot_zero_r (a b : list R) : Forall (fun x => x = 0) b -> dot a b = 0.
Proof.
  intros Hb; revert a; induction Hb as [|y b Hy Hb IH]; intros a.
  - apply dot_nil_r.
  - destruct a as [|x a]; [apply dot_nil_l|].
    rewrite dot_cons, IH, Hy. lra.
Qed.

Lemma Rabs_bounds (x y : R) : Rabs x <= y -> - y <= x <= y.
Proof. unfold Rabs; destruct (Rcase_abs x); lra. Qed.

(** Cauchy-Schwarz, for lists of any two lengths. *)
Lemma dot_le_norms (a b : list R) : Rabs (dot a b) <= norm a * norm b.
Proof.
  revert b; induction a as [|x a IH]; intros b.
  - rewrite dot_nil_l, Rabs_R0.
    apply Rmult_le_pos; apply norm_nonneg.
  - destruct b as [|y b].
    + rewrite dot_nil_r, Rabs_R0. apply Rmult_le_pos; apply norm_nonneg.
    + specialize (IH b).
      pose proof (norm_nonneg a) as Ha. pose proof (norm_nonneg b) as Hb.
      pose proof (norm_nonneg (x :: a)) as Hxa.
      pose proof (norm_nonneg (y :: b)) as Hyb.
      pose proof (norm_sqr (x :: a)) as Sxa. rewrite sumsq_cons, <- norm_sqr in Sxa.
      pose proof (norm_sqr (y :: b)) as Syb. rewrite sumsq_cons, <- norm_sqr in Syb.
      rewrite dot_cons.
      set (d := dot a b) in *. set (s := norm a) in *. set (t := norm b) in *.
      set (p := norm (x :: a)) in *. set (q := norm (y :: b)) in *.
      apply Rsqr_incr_0_var; [|apply Rmult_le_pos; assumption].
      rewrite <- Rsqr_abs. unfold Rsqr.
      assert (Hd : d * d <= (s * t) * (s * t)).
      { apply Rabs_bounds in IH. nra. }
      assert (Hdd : 2 * (x * y) * d <= x * x * (t * t) + y * y * (s * s)).
      { apply Rabs_bounds in IH.
        assert (H1 := Rle_0_sqr (x * t - y * s)).
        assert (H2 := Rle_0_sqr (x * t + y * s)). unfold Rsqr in H1, H2.
        destruct (Rle_dec 0 (x * y)) as [Hxy|Hxy].
        - assert (x * y * d <= x * y * (s * t)) by (apply Rmult_le_compat_l; lra). nra.
        - assert (- (x * y) * - d <= - (x * y) * (s * t)) by (apply Rmult_le_compat_l; lra). nra. }
      replace (p * q * (p * q)) with ((p * p) * (q * q)) by ring.
      rewrite Sxa, Syb. nra.
Qed.

End RealScoring.

(** ** [cosine_similarity] *)

Section Cosine.
Local Open Scope R_scope.

Lemma dec_R_one : @dec R _ 10 1 = 1.
Proof. simpl. lra. Qed.

Lemma dec_R_half : @dec R _ 5 1 = 1 / 2.
Proof. simpl. lra. Qed.

Lemma dec_R_zero : @dec R _ 0 1 = 0.
Proof. simpl. lra. Qed.

Lemma fzerob_R_true (x : R) : fzerob x = true <-> x = 0.
Proof. simpl. destruct (Req_dec_T x 0); split; intros; congruence. Qed.

Lemma fzerob_R_false (x : R) : fzerob x = false <-> x <> 0.
Proof. simpl. destruct (Req_dec_T x 0); split; intros; congruence. Qed.

Lemma fltb_R_true (x y : R) : fltb x y = true <-> x < y.
Proof. simpl. destruct (Rlt_dec x y); split; intros; try congruence; lra. Qed.

Lemma fmin_R (x y : R) : fmin x y = Rmin x y.
Proof.
  unfold fmin; simpl. destruct (Rlt_dec y x) as [Hlt|Hge].
  - rewrite Rmin_right; lra.
  - rewrite Rmin_left; lra.
Qed.

Lemma fmax_R (x y : R) : fmax x y = Rmax x y.
Proof.
  unfold fmax; simpl. destruct (Rlt_dec x y) as [Hlt|Hge].
  - rewrite Rmax_right; lra.
  - rewrite Rmax_left; lra.
Qed.

Lemma denominator_zero (a b : list R) :
  norm a * norm b = 0 -> denominator a b = 1.
Proof.
  intros Hz. unfold denominator, f_or.
  replace (fzerob (fmul (norm a) (norm b))) with true
    by (symmetry; apply fzerob_R_true; exact Hz).
  apply dec_R_one.
Qed.

Lemma denominator_nonzero (a b : list R) :
  norm a * norm b <> 0 -> denominator a b = norm a * norm b.
Proof.
  intros Hz. unfold denominator, f_or.
  replace (fzerob (fmul (norm a) (norm b))) with false
    by (symmetry; apply fzerob_R_false; exact Hz).
  reflexivity.
Qed.

Lemma denominator_pos (a b : list R) : 0 < denominator a b.
Proof.
  destruct (Req_dec_T (norm a * norm b) 0) as [Hz|Hz].
  - rewrite denominator_zero by exact Hz. lra.
  - rewrite denominator_nonzero by exact Hz.
    pose proof (norm_nonneg a). pose proof (norm_nonneg b). nra.
Qed.

(** The division of [cosine_similarity] never has a zero divisor. *)
Lemma cosine_similarity_value (a b : list R) :
  cosine_similarity a b = Ok (dot a b / denominator a b).
Proof.
  unfold cosine_similarity, truediv. fold (denominator a b).
  replace (fzerob (denominator a b)) with false; [reflexivity|].
  symmetry; apply fzerob_R_false. pose proof (denominator_pos a b). lra.
Qed.

Lemma cosine_bounds (a b : list R) : -1 <= dot a b / denominator a b <= 1.
Proof.
  pose proof (dot_le_norms a b) as Hcs. apply Rabs_bounds in Hcs.
  destruct (Req_dec_T (norm a * norm b) 0) as [Hz|Hz].
  - rewrite denominator_zero by exact Hz. lra.
  - rewrite denominator_nonzero by exact Hz.
    assert (Hp : 0 < norm a * norm b).
    { pose proof (norm_nonneg a). pose proof (norm_nonneg b). nra. }
    split.
    + apply Rmult_le_reg_r with (norm a * norm b); [exact Hp|].
      unfold Rdiv. rewrite Rmult_assoc, Rinv_l by exact Hz. lra.
    + apply Rmult_le_reg_r with (norm a * norm b); [exact Hp|].
      unfold Rdiv. rewrite Rmult_assoc, Rinv_l by exact Hz. lra.
Qed.

Lemma zero_norm_dot (a b : list R) : norm a = 0 \/ norm b = 0 -> dot a b = 0.
Proof.
  intros [Ha|Hb].
  - apply dot_zero_l, norm_zero_all, Ha.
  - apply dot_zero_r, norm_zero_all, Hb.
Qed.

End Cosine.

(** The same for any arithmetic in which 1.0 is not zero, binary64
    included: the divisor of [cosine_similarity] is never zero. *)
Lemma cosine_similarity_no_raise {F : Type} `{PyFloat F} (a b : list F) :
  fzerob (dec 10 1) = false -> is_ok (cosine_similarity a b) = true.
Proof.
  intros H1. unfold cosine_similarity, truediv, f_or.
  destruct (fzerob (fmul (norm a) (norm b))) eqn:Hz.
  - rewrite H1. reflexivity.
  - rewrite Hz. reflexivity.
Qed.

Lemma cosine_similarity_no_raise_b64 (a b : list PrimFloat.float) :
  is_ok (cosine_similarity a b) = true.
Proof. apply cosine_similarity_no_raise. vm_compute. reflexivity. Qed.

(** A zero vector in binary64: the product of the norms is 0.0, the
    divisor 1.0 and the similarity 0.0. *)
Example cosine_similarity_zero_b64 :
  norm [@of_int PrimFloat.float _ 0; of_int 0] = of_int 0 /\
  cosine_similarity [@of_int PrimFloat.float _ 0; of_int 0] [of_int 3; of_int 4]
  = Ok (of_int 0).
Proof. split; vm_compute; reflexivity. Qed.

(** ** Zero vectors in binary64 *)

Section ZeroVectors.
Variable pow_half : PrimFloat.float -> PrimFloat.float.
Local Abbreviation F64 := (binary64 pow_half).

Lemma b64_zero_finite (x : PrimFloat.float) :
  PrimFloat.eqb x PrimFloat.zero = true -> PrimFloat.is_finite x = true.
Proof.
  intros Hx. apply b64_zero_spec in Hx as [s Hx].
  rewrite is_finite_spec, Hx. reflexivity.
Qed.

(** A sum of zeros is [0.0]. *)
Lemma fsum_zeros (l : list PrimFloat.float) :
  Forall (fun x => PrimFloat.eqb x PrimFloat.zero = true) l ->
  @fsum _ F64 l = PrimFloat.zero.
Proof.
  unfold fsum. change (@of_int _ F64 0) with PrimFloat.zero. cbn [fadd binary64].
  induction 1 as [|x l Hx _ IH]; [reflexivity|].
  cbn [fold_left]. rewrite (b64_add_zero x Hx). exact IH.
Qed.

Lemma zero_vector_all (a : list PrimFloat.float) :
  zero_vector a <-> Forall (fun x => PrimFloat.eqb x PrimFloat.zero = true) a.
Proof.
  unfold zero_vector. rewrite forallb_forall, List.Forall_forall. reflexivity.
Qed.

Lemma finite_vector_all (a : list PrimFloat.float) :
  finite_vector a <-> Forall (fun x => PrimFloat.is_finite x = true) a.
Proof.
  unfold finite_vector. rewrite forallb_forall, List.Forall_forall. reflexivity.
Qed.

Lemma dot_zero_vector_l (a b : list PrimFloat.float) :
  zero_vector a -> finite_vector b -> @dot _ F64 a b = PrimFloat.zero.
Proof.
  rewrite zero_vector_all, finite_vector_all. intros Ha Hb.
  unfold dot. apply fsum_zeros.
  revert b Hb; induction Ha as [|x a Hx Ha IH]; intros b Hb; [constructor|].
  destruct Hb as [|y b Hy Hb]; [constructor|].
  cbn [zip List.map fst snd]. constructor; [|apply IH, Hb].
  apply b64_mul_zero_l; assumption.
Qed.

Lemma dot_zero_vector_r (a b : list PrimFloat.float) :
  finite_vector a -> zero_vector b -> @dot _ F64 a b = PrimFloat.zero.
Proof.
  rewrite zero_vector_all, finite_vector_all. intros Ha Hb.
  unfold dot. apply fsum_zeros.
  revert b Hb; induction Ha as [|x a Hx Ha IH]; intros b Hb; [constructor|].
  destruct Hb as [|y b Hy Hb]; [constructor|].
  cbn [zip List.map fst snd]. constructor; [|apply IH, Hb].
  apply b64_mul_zero_r; assumption.
Qed.

(** The norm of a zero vector is [0.0 ** 0.5]. *)
Lemma norm_zero_vector (a : list PrimFloat.float) :
  zero_vector a -> @norm _ F64 a = pow_half PrimFloat.zero.
Proof.
  rewrite zero_vector_all. intros Ha. unfold norm. cbn [fsqrt binary64]. f_equal.
  apply fsum_zeros.
  induction Ha as [|x a Hx Ha IH]; [constructor|].
  cbn [List.map]. constructor; [|exact IH].
  apply b64_mul_zero_l; [exact Hx|apply b64_zero_finite, Hx].
Qed.

Lemma cosine_zero_vector_l (a b : list PrimFloat.float) :
  PrimFloat.eqb (pow_half PrimFloat.zero) PrimFloat.zero = true ->
  zero_vector a -> finite_vector b -> PrimFloat.is_finite (@norm _ F64 b) = true ->
  @cosine_of _ F64 a b = PrimFloat.zero.
Proof.
  intros Hp Ha Hb Hn. unfold cosine_of, f_or.
  rewrite (dot_zero_vector_l a b Ha Hb), (norm_zero_vector a Ha).
  cbn [fzerob fmul fquot binary64].
  rewrite (b64_mul_zero_l _ _ Hp Hn). vm_compute. reflexivity.
Qed.

Lemma cosine_zero_vector_r (a b : list PrimFloat.float) :
  PrimFloat.eqb (pow_half PrimFloat.zero) PrimFloat.zero = true ->
  finite_vector a -> zero_vector b -> PrimFloat.is_finite (@norm _ F64 a) = true ->
  @cosine_of _ F64 a b = PrimFloat.zero.
Proof.
  intros Hp Ha Hb Hn. unfold cosine_of, f_or.
  rewrite (dot_zero_vector_r a b Ha Hb), (norm_zero_vector b Hb).
  cbn [fzerob fmul fquot binary64].
  rewrite (b64_mul_zero_r _ _ Hn Hp). vm_compute. reflexivity.
Qed.

(** C8, as amended.  [cosine_similarity] raises no division error,
    whatever the two vectors.  When the computed product of the norms is
    zero, the divisor is taken to be 1.0 and the result is the dot product.
    When one vector is a zero vector and the other has finite components
    and a finite computed norm, the result is 0.0; this uses of [x ** 0.5]
    only that it is zero at 0.0. *)
Theorem cosine_similarity_zero_norm (a b : list PrimFloat.float) :
  (exists s, @cosine_similarity _ F64 a b = Ok s) /\
  (PrimFloat.eqb (PrimFloat.mul (@norm _ F64 a) (@norm _ F64 b)) PrimFloat.zero = true ->
   @cosine_similarity _ F64 a b = Ok (PrimFloat.div (@dot _ F64 a b) b64_one)) /\
  (PrimFloat.eqb (pow_half PrimFloat.zero) PrimFloat.zero = true ->
   (zero_vector a /\ finite_vector b /\ PrimFloat.is_finite (@norm _ F64 b) = true) \/
   (zero_vector b /\ finite_vector a /\ PrimFloat.is_finite (@norm _ F64 a) = true) ->
   @cosine_similarity _ F64 a b = Ok PrimFloat.zero).
Proof.
  pose proof (@cosine_similarity_of _ F64 (b64_one_not_zero pow_half) a b) as Hc.
  split; [eexists; exact Hc|]. split.
  - intros Hz. rewrite Hc. unfold cosine_of, f_or. cbn [fzerob fmul fquot binary64].
    rewrite Hz. reflexivity.
  - intros Hp [(Ha & Hb & Hn)|(Hb & Ha & Hn)]; rewrite Hc; f_equal.
    + apply cosine_zero_vector_l; assumption.
    + apply cosine_zero_vector_r; assumption.
Qed.

End ZeroVectors.

Lemma cosine_similarity_zero_norm_witness :
  @cosine_similarity _ (binary64 PrimFloat.sqrt)
    [@of_int _ b64_float 0; PrimFloat.opp (of_int 0)] [of_int 3; of_int 4] = Ok PrimFloat.zero.
Proof.
  apply (proj2 (proj2 (cosine_similarity_zero_norm PrimFloat.sqrt
           [@of_int _ b64_float 0; PrimFloat.opp (of_int 0)] [of_int 3; of_int 4]))).
  - vm_compute. reflexivity.
  - left. repeat split; vm_compute; reflexivity.
Defined.

(** C8, the claim as stated fails: the vector [0.0] has norm 0.0, the
    vector [2.0 ** 600] is finite, but its norm overflows to infinity; the
    product of the norms, and with it the divisor, is NaN, not 1.0, and the
    similarity returned is NaN, not 0.  Evaluated in binary64. *)
Lemma cosine_similarity_zero_norm_nan :
  @norm _ b64_float [@of_int _ b64_float 0] = PrimFloat.zero /\
  PrimFloat.is_finite (b64_pow2 600) = true /\
  @f_or _ b64_float (fmul (norm [@of_int _ b64_float 0]) (norm [b64_pow2 600])) (dec 10 1)
    = PrimFloat.nan /\
  @cosine_similarity _ b64_float [of_int 0] [b64_pow2 600] = Ok PrimFloat.nan.
Proof. repeat split; vm_compute; reflexivity. Qed.

(** A zero norm that comes from underflow: [2.0 ** -600] is not zero, its
    square is.  The divisor is then 1.0 and the similarity returned is the
    dot product [2.0 ** -300], not 0. *)
Example cosine_similarity_underflow :
  let tiny := PrimFloat.div (@of_int _ b64_float 1) (b64_pow2 600) in
  PrimFloat.eqb tiny PrimFloat.zero = false /\
  @norm _ b64_float [tiny] = PrimFloat.zero /\
  @cosine_similarity _ b64_float [tiny] [b64_pow2 300]
    = Ok (PrimFloat.div (@of_int _ b64_float 1) (b64_pow2 300)).
Proof. repeat split; vm_compute; reflexivity. Qed.

(** ** [compute_match_score] *)

Section MatchScore.
Context {L : Lower}.
Local Open Scope R_scope.

(** What [compute_match_score] returns, field by field: it never raises. *)
Lemma compute_match_score_value (a b : list R) (rs js : list str) :
  exists r,
    compute_match_score a b rs js = Ok r /\
    similarity r = dot a b / denominator a b /\
    jaccard r = IZR (Z.of_nat (size (lowered rs ∩ lowered js)))
                / IZR (Z.max 1 (Z.of_nat (size (lowered rs ∪ lowered js)))) /\
    score r = Rmax 0 (Rmin 1 (7 / 10 * similarity r + 3 / 10 * jaccard r)) * 100 /\
    confidence r = 1 / 2 + 1 / 2 * Rmin (similarity r) 1 /\
    missing_skills r = py_sorted str_ltb (elements (lowered js ∖ lowered rs)).
Proof.
  unfold compute_match_score. rewrite cosine_similarity_value. simpl bind.
  unfold int_truediv.
  set (n := Z.of_nat (size (lowered rs ∪ lowered js))).
  assert (Hn : (if (n =? 0)%Z then 1%Z else n) = Z.max 1 n).
  { destruct (Z.eqb_spec n 0); subst n; lia. }
  rewrite Hn.
  replace (Z.max 1 n =? 0)%Z with false by (symmetry; apply Z.eqb_neq; lia).
  simpl bind. eexists; split; [reflexivity|]. simpl.
  repeat split.
  - rewrite fmax_R, fmin_R. simpl.
    replace (0 / (10 * 1)) with 0 by lra.
    replace (10 / (10 * 1)) with 1 by lra.
    replace (7 / (10 * 1)) with (7 / 10) by lra.
    replace (3 / (10 * 1)) with (3 / 10) by lra.
    replace (1000 / (10 * 1)) with 100 by lra.
    reflexivity.
  - rewrite fmin_R. simpl.
    replace (10 / (10 * 1)) with 1 by lra. lra.
Qed.

(** The dot product of vectors without negative components, those of the
    hashing embedding among them, is not negative. *)
Lemma dot_nonneg (a b : list R) :
  Forall (fun x => 0 <= x) a -> Forall (fun x => 0 <= x) b -> 0 <= dot a b.
Proof.
  intros Ha; revert b; induction Ha as [|x a Hx Ha IH]; intros b Hb.
  - rewrite dot_nil_l. lra.
  - destruct Hb as [|y b Hy Hb]; [rewrite dot_nil_r; lra|].
    rewrite dot_cons. specialize (IH b Hb). nra.
Qed.

End MatchScore.

Lemma norm_unit (x : R) : (x * x = 1)%R -> norm [x] = 1%R.
Proof.
  intros Hx. unfold norm, fsum; simpl.
  replace (0 + x * x)%R with 1%R by lra. apply sqrt_1.
Qed.

(** C1, as amended.  In binary64, whatever [x ** 0.5] returns,
    [compute_match_score] returns a result whose confidence is never above
    1.0; when the similarity is a number that is not negative, the
    confidence lies between 0.5 and 1.0.  Nothing floors it at 0.5. *)
Theorem confidence_range (pow_half : PrimFloat.float -> PrimFloat.float) (L : Lower)
    (a b : list PrimFloat.float) (rs js : list str) :
  exists r,
    @compute_match_score _ (binary64 pow_half) L a b rs js = Ok r /\
    @cosine_similarity _ (binary64 pow_half) a b = Ok (similarity r) /\
    PrimFloat.ltb b64_one (confidence r) = false /\
    (PrimFloat.leb b64_zero (similarity r) = true ->
     PrimFloat.leb b64_half (confidence r) = true /\
     PrimFloat.leb (confidence r) b64_one = true).
Proof.
  destruct (@compute_match_score_fields _ (binary64 pow_half) (b64_one_not_zero pow_half)
              L a b rs js) as (r & Hr & Hsim & _ & Hconf).
  exists r. split; [exact Hr|].
  split; [rewrite Hsim; apply cosine_similarity_of, b64_one_not_zero|].
  rewrite Hconf. clear Hconf Hr Hsim.
  change (@dec _ (binary64 pow_half) 5 1) with b64_half.
  change (@dec _ (binary64 pow_half) 10 1) with b64_one.
  cbn [fadd fmul binary64].
  split.
  - apply b64_confidence_le_one, b64_min_one.
  - intros Hpos. unfold fmin. cbn [fltb binary64].
    destruct (PrimFloat.ltb b64_one (similarity r)) eqn:Hs.
    + split; vm_compute; reflexivity.
    + apply b64_confidence_range; assumption.
Qed.

(** C1, the claim as stated fails: for the opposite vectors [1.0] and
    [-1.0] the similarity is -1.0 and the confidence is 0.0, below 0.5.
    Evaluated in binary64. *)
Lemma confidence_below_floor :
  exists r : MatchResult PrimFloat.float,
    @compute_match_score _ _ lower_ascii [of_int 1] [of_int (-1)] [] [] = Ok r /\
    similarity r = of_int (-1) /\
    confidence r = of_int 0 /\
    fltb (confidence r) (dec 5 1) = true.
Proof.
  eexists. split; [vm_compute; reflexivity|].
  repeat split; vm_compute; reflexivity.
Qed.

(** The same input over the reals. *)
Lemma confidence_below_floor_real :
  exists r : MatchResult R,
    @compute_match_score _ _ lower_ascii [of_int 1] [of_int (-1)] [] [] = Ok r /\
    confidence r = 0%R.
Proof.
  destruct (@compute_match_score_value lower_ascii [1%R] [(-1)%R] [] [])
    as (r & Hr & Hsim & _ & _ & Hconf & _).
  exists r. split; [exact Hr|].
  assert (Hd : denominator [1%R] [(-1)%R] = 1%R).
  { rewrite denominator_nonzero; rewrite !norm_unit by lra; lra. }
  rewrite Hd in Hsim. rewrite dot_cons, dot_nil_l in Hsim.
  rewrite Hconf, Hsim, Rmin_left; lra.
Qed.

(** Within the range: [3.0, 4.0] against [4.0, 3.0] has the similarity
    24/25, which is not negative, and the confidence is 0.5 plus half of
    it.  Evaluated in binary64. *)
Example confidence_in_range :
  exists r : MatchResult PrimFloat.float,
    @compute_match_score _ _ lower_ascii [of_int 3; of_int 4] [of_int 4; of_int 3] [] [] = Ok r /\
    similarity r = PrimFloat.div (of_int 24) (of_int 25) /\
    PrimFloat.leb b64_zero (similarity r) = true /\
    PrimFloat.leb b64_half (confidence r) = true /\
    PrimFloat.leb (confidence r) b64_one = true.
Proof.
  eexists. split; [vm_compute; reflexivity|].
  repeat split; vm_compute; reflexivity.
Qed.

(** Nor is the confidence always a number: for the finite vector
    [2.0 ** 600] against itself the norms and the dot product overflow, the
    similarity is NaN and so is the confidence, which is then neither above
    nor within any bound.  Evaluated in binary64. *)
Example confidence_overflow_nan :
  PrimFloat.is_finite (b64_pow2 600) = true /\
  exists r : MatchResult PrimFloat.float,
    @compute_match_score _ _ lower_ascii [b64_pow2 600] [b64_pow2 600] [] [] = Ok r /\
    similarity r = PrimFloat.nan /\
    confidence r = PrimFloat.nan /\
    PrimFloat.leb (confidence r) b64_one = false.
Proof.
  split; [vm_compute; reflexivity|].
  eexists. split; [vm_compute; reflexivity|].
  repeat split; vm_compute; reflexivity.
Qed.

(** ** The Jaccard index of the skill sets *)

Section Jaccard.
Context {L : Lower}.
Local Open Scope R_scope.

Lemma lowered_nonempty (A : list str) : A <> [] -> (0 < size (lowered A))%nat.
Proof.
  destruct A as [|s A]; [congruence|]. intros _.
  unfold lowered; simpl.
  assert (Hne : ({[str_lower s]} ∪ list_to_set (List.map str_lower A) : gset str) ≢ ∅)
    by set_solver.
  apply size_non_empty_iff in Hne. lia.
Qed.

(** C7.  The Jaccard index that [compute_match_score] returns is the same
    when the two skill lists change places, whatever the vectors; it is 1.0
    for a non-empty list against itself, and 0.0 for two empty lists, where
    the size of the union is taken to be 1. *)
Theorem jaccard_symmetric (v w v' w' : list R) (A B : list str) :
  (exists r r',
     compute_match_score v w A B = Ok r /\
     compute_match_score v' w' B A = Ok r' /\
     jaccard r = jaccard r') /\
  (A <> [] ->
   exists r, compute_match_score v w A A = Ok r /\ jaccard r = 1) /\
  (exists r, compute_match_score v w [] [] = Ok r /\ jaccard r = 0).
Proof.
  split; [|split].
  - destruct (compute_match_score_value v w A B) as (r & Hr & _ & Hj & _).
    destruct (compute_match_score_value v' w' B A) as (r' & Hr' & _ & Hj' & _).
    exists r, r'. split; [exact Hr|]. split; [exact Hr'|].
    rewrite Hj, Hj'.
    rewrite (comm_L (∩) (lowered B) (lowered A)).
    rewrite (comm_L (∪) (lowered B) (lowered A)).
    reflexivity.
  - intros HA.
    destruct (compute_match_score_value v w A A) as (r & Hr & _ & Hj & _).
    exists r. split; [exact Hr|]. rewrite Hj.
    rewrite (idemp_L (∩) (lowered A)), (idemp_L (∪) (lowered A)).
    pose proof (lowered_nonempty A HA) as Hpos.
    rewrite Z.max_r by lia.
    apply Rinv_r. apply not_0_IZR. lia.
  - destruct (compute_match_score_value v w [] []) as (r & Hr & _ & Hj & _).
    exists r. split; [exact Hr|]. rewrite Hj.
    change (lowered []) with (∅ : gset str).
    rewrite (idemp_L (∩) (∅ : gset str)), size_empty.
    unfold Rdiv. simpl. apply Rmult_0_l.
Qed.

End Jaccard.

Lemma jaccard_symmetric_witness :
  exists r,
    @compute_match_score _ _ lower_ascii [1; 0]%R [0; 1]%R [lit "python"] [lit "python"] = Ok r /\
    jaccard r = 1%R.
Proof.
  apply (proj1 (proj2 (@jaccard_symmetric lower_ascii [1; 0]%R [0; 1]%R [] []
                         [lit "python"] [lit "sql"]))).
  discriminate.
Defined.

(** Scenario A of the specification, in binary64: skills {python, sql}
    against {python, aws} give the Jaccard index 1/3 and the missing skill
    aws. *)
Example jaccard_scenario_a :
  exists r : MatchResult PrimFloat.float,
    @compute_match_score _ _ lower_ascii [of_int 1] [of_int 1]
      [lit "python"; lit "sql"] [lit "python"; lit "aws"] = Ok r /\
    jaccard r = fquot (of_int 1) (of_int 3) /\
    missing_skills r = [lit "aws"].
Proof.
  eexists. split; [vm_compute; reflexivity|].
  split; vm_compute; reflexivity.
Qed.

(** ** The stable sort *)

Section StableSort.
Context {A : Type} (lt : A -> A -> bool).

Lemma py_insert_perm (x : A) (l : list A) : Permutation (py_insert lt x l) (x :: l).
Proof.
  induction l as [|y l IH]; simpl; [reflexivity|].
  destruct (lt y x); [|reflexivity].
  rewrite IH. apply perm_swap.
Qed.

Lemma py_sorted_perm (l : list A) : Permutation (py_sorted lt l) l.
Proof.
  induction l as [|x l IH]; simpl; [reflexivity|].
  rewrite py_insert_perm. apply perm_skip, IH.
Qed.

Lemma py_sorted_length (l : list A) : length (py_sorted lt l) = length l.
Proof. apply Permutation_length, py_sorted_perm. Qed.

(** Sortedness, for an order [le] that holds wherever [lt] fails the other
    way round. *)
Variable le : A -> A -> Prop.
Hypothesis le_trans : forall x y z, le x y -> le y z -> le x z.
Hypothesis lt_le : forall x y, lt y x = true -> le y x.
Hypothesis not_lt_le : forall x y, lt y x = false -> le x y.

Lemma py_insert_sorted (x : A) (l : list A) :
  StronglySorted le l -> StronglySorted le (py_insert lt x l).
Proof.
  induction 1 as [|y l Hl IH Hy]; simpl.
  - constructor; constructor.
  - destruct (lt y x) eqn:Hlt.
    + constructor; [exact IH|].
      apply List.Forall_forall. intros z Hz.
      apply (Permutation_in _ (py_insert_perm x l)) in Hz.
      destruct Hz as [<-|Hz]; [apply lt_le, Hlt|].
      rewrite List.Forall_forall in Hy. apply Hy, Hz.
    + constructor; [constructor; assumption|].
      constructor; [apply not_lt_le, Hlt|].
      apply List.Forall_forall. intros z Hz.
      rewrite List.Forall_forall in Hy.
      apply le_trans with y; [apply not_lt_le, Hlt | apply Hy, Hz].
Qed.

Lemma py_sorted_sorted (l : list A) : StronglySorted le (py_sorted lt l).
Proof.
  induction l as [|x l IH]; simpl; [constructor|].
  apply py_insert_sorted, IH.
Qed.

End StableSort.

Lemma StronglySorted_firstn {A : Type} (R : A -> A -> Prop) (n : nat) (l : list A) :
  StronglySorted R l -> StronglySorted R (firstn n l).
Proof.
  intros Hl; revert n; induction Hl as [|x l Hl IH Hx]; intros [|n]; simpl;
    try constructor.
  - apply IH.
  - apply List.Forall_forall. intros y Hy.
    rewrite List.Forall_forall in Hx. apply Hx.
    rewrite <- (firstn_skipn n l). apply in_or_app. left. exact Hy.
Qed.

(** Stability: moving an item past items of another key leaves the items
    of each single key in their order. *)
Lemma py_insert_filter {A : Type} (lt : A -> A -> bool) (p : A -> bool) (x : A) (l : list A) :
  (forall y, lt y x = true -> p x = true -> p y = false) ->
  List.filter p (py_insert lt x l) = List.filter p (x :: l).
Proof.
  intros Hsep. induction l as [|y l IH]; simpl; [reflexivity|].
  destruct (lt y x) eqn:Hlt; [|reflexivity].
  simpl. rewrite IH. simpl.
  destruct (p x) eqn:Hx; [|reflexivity].
  rewrite (Hsep y Hlt eq_refl). reflexivity.
Qed.

Lemma py_sorted_filter {A : Type} (lt : A -> A -> bool) (p : A -> bool) (l : list A) :
  (forall x y, lt y x = true -> p x = true -> p y = false) ->
  List.filter p (py_sorted lt l) = List.filter p l.
Proof.
  intros Hsep. induction l as [|x l IH]; simpl; [reflexivity|].
  rewrite py_insert_filter by (apply Hsep). simpl. rewrite IH. reflexivity.
Qed.

(** ** [top_k_matches] *)

Section TopK.
Local Open Scope R_scope.

Lemma cosine_similarity_cosine (a b : list R) : cosine_similarity a b = Ok (cosine a b).
Proof. apply cosine_similarity_value. Qed.

(** What [top_k_matches] returns: it never raises, whatever the lengths of
    its arguments. *)
Lemma top_k_matches_value (q : list R) (texts : list str) (vecs : list (list R)) (k : Z) :
  top_k_matches q texts vecs k =
  Ok (slice_to (py_sorted (fun x y => fltb (snd y) (snd x)) (scored q texts vecs)) k).
Proof.
  unfold top_k_matches.
  rewrite (for_each_ok _ (fun tv => (fst tv, cosine q (snd tv)))).
  - simpl bind. unfold scored. rewrite zip_map_snd. reflexivity.
  - intros tv _. rewrite cosine_similarity_cosine. reflexivity.
Qed.

Lemma scored_length (q : list R) (texts : list str) (vecs : list (list R)) :
  length (scored q texts vecs) = Nat.min (length texts) (length vecs).
Proof. unfold scored. rewrite zip_length, length_map. reflexivity. Qed.

(** C3, as amended.  When the texts and the vectors differ in length the
    ranker raises nothing: it pairs them up to the shorter of the two and
    ranks those pairs, as for the two arguments cut to that length. *)
Theorem top_k_matches_mismatch (q : list R) (texts : list str) (vecs : list (list R)) (k : Z) :
  let m := Nat.min (length texts) (length vecs) in
  (exists out, top_k_matches q texts vecs k = Ok out) /\
  top_k_matches q texts vecs k = top_k_matches q (firstn m texts) (firstn m vecs) k.
Proof.
  intros m. split.
  - eexists. apply top_k_matches_value.
  - unfold top_k_matches. rewrite (zip_firstn texts vecs). reflexivity.
Qed.

End TopK.

(** C3, the claim as stated fails: two texts against one vector raise no
    error; the ranker returns the one pair it could form.  Evaluated in
    binary64. *)
Lemma top_k_matches_mismatch_silent :
  length [lit "a"; lit "b"] = 2%nat /\
  length [[@of_int PrimFloat.float _ 1]] = 1%nat /\
  top_k_matches [of_int 1] [lit "a"; lit "b"] [[@of_int PrimFloat.float _ 1]] 5
  = Ok [(lit "a", of_int 1)].
Proof. repeat split; vm_compute; reflexivity. Qed.

(** A ranking in binary64: equal similarities keep their input order. *)
Example top_k_matches_ties :
  top_k_matches [@of_int PrimFloat.float _ 1; of_int 0]
    [lit "a"; lit "b"; lit "c"; lit "d"]
    [[of_int 0; of_int 1]; [of_int 1; of_int 0]; [of_int 2; of_int 0]; [of_int 3; of_int 0]] 3
  = Ok [(lit "b", of_int 1); (lit "c", of_int 1); (lit "d", of_int 1)].
Proof. vm_compute. reflexivity. Qed.

(** ** The stable sort on keys that are ordered on a part of the items *)

Section StableSortOn.
Context {A : Type} (lt : A -> A -> bool) (le : A -> A -> Prop) (P : A -> Prop).
Hypothesis le_trans : forall x y z, le x y -> le y z -> le x z.
Hypothesis lt_le : forall x y, lt y x = true -> le y x.
Hypothesis not_lt_le : forall x y, P x -> P y -> lt y x = false -> le x y.

Lemma py_insert_sorted_on (x : A) (l : list A) :
  P x -> Forall P l -> StronglySorted le l -> StronglySorted le (py_insert lt x l).
Proof.
  intros Hx Hl Hs. induction Hs as [|y l Hs IH Hy]; simpl.
  - constructor; constructor.
  - apply Forall_cons_1 in Hl as [Py Hl].
    destruct (lt y x) eqn:Hlt.
    + constructor; [apply IH, Hl|].
      apply List.Forall_forall. intros z Hz.
      apply (Permutation_in _ (py_insert_perm lt x l)) in Hz.
      destruct Hz as [<-|Hz]; [apply lt_le, Hlt|].
      rewrite List.Forall_forall in Hy. apply Hy, Hz.
    + constructor; [constructor; assumption|].
      constructor; [apply not_lt_le; assumption|].
      apply List.Forall_forall. intros z Hz.
      rewrite List.Forall_forall in Hy.
      apply le_trans with y; [apply not_lt_le; assumption | apply Hy, Hz].
Qed.

Lemma py_sorted_sorted_on (l : list A) :
  Forall P l -> StronglySorted le (py_sorted lt l).
Proof.
  induction 1 as [|x l Hx Hl IH]; simpl; [constructor|].
  apply py_insert_sorted_on; [exact Hx| |exact IH].
  apply List.Forall_forall. intros y Hy.
  apply (Permutation_in _ (py_sorted_perm lt l)) in Hy.
  rewrite List.Forall_forall in Hl. apply Hl, Hy.
Qed.

End StableSortOn.

(** ** [top_k_matches] in binary64 *)

Section TopK64.
Variable pow_half : PrimFloat.float -> PrimFloat.float.
Local Abbreviation F64 := (binary64 pow_half).
Local Abbreviation rank64 :=
  (py_sorted (fun x y : str * PrimFloat.float => PrimFloat.ltb (snd y) (snd x))).

Lemma no_nan_all (l : list (str * PrimFloat.float)) :
  no_nan l <-> Forall (fun p => PrimFloat.is_nan (snd p) = false) l.
Proof.
  unfold no_nan. rewrite forallb_forall, List.Forall_forall.
  split; intros Hl p Hp; specialize (Hl p Hp).
  - apply negb_true_iff, Hl.
  - apply negb_true_iff, Hl.
Qed.

Lemma ranked_sorted64 (l : list (str * PrimFloat.float)) :
  no_nan l -> non_increasing64 (rank64 l).
Proof.
  intros Hl. apply no_nan_all in Hl.
  apply (py_sorted_sorted_on _ _ (fun p => PrimFloat.is_nan (snd p) = false)).
  - intros x y z Hxy Hyz. exact (b64_leb_trans _ _ _ Hyz Hxy).
  - intros x y Hlt. apply b64_ltb_leb, Hlt.
  - intros x y Hx Hy Hlt. rewrite b64_leb_ltb by assumption. rewrite Hlt. reflexivity.
  - exact Hl.
Qed.

Lemma ranked_stable64 (s : PrimFloat.float) (l : list (str * PrimFloat.float)) :
  with_similarity64 s (rank64 l) = with_similarity64 s l.
Proof.
  apply py_sorted_filter. intros x y Hlt Hx.
  destruct (PrimFloat.eqb (snd y) s) eqn:Hy; [exfalso|reflexivity].
  destruct (b64_eqb_not_nan _ _ Hx) as [Hnx Hns].
  destruct (b64_eqb_not_nan _ _ Hy) as [Hny _].
  rewrite b64_eqb_ltb in Hx, Hy by assumption.
  apply andb_prop in Hx as [Hx1 _]. apply andb_prop in Hy as [_ Hy2].
  apply negb_true_iff in Hx1, Hy2.
  pose proof (b64_ltb_negtrans _ _ _ Hns Hx1 Hy2). congruence.
Qed.

(** C6, as amended.  For texts and vectors of one length and [k] not
    negative, the ranker returns [min(k, len(candidate_texts))] snippets,
    taken from the scored candidates.  When no similarity is NaN they stand
    in non-increasing order of similarity, and the snippets of any one
    similarity stand in their input order. *)
Theorem top_k_matches_ranked (q : list PrimFloat.float) (texts : list str)
    (vecs : list (list PrimFloat.float)) (k : Z) :
  length texts = length vecs ->
  (0 <= k)%Z ->
  exists out rest,
    @top_k_matches _ F64 q texts vecs k = Ok out /\
    length out = Nat.min (Z.to_nat k) (length texts) /\
    Permutation (out ++ rest) (@scored_of _ F64 q texts vecs) /\
    (no_nan (@scored_of _ F64 q texts vecs) ->
     non_increasing64 out /\
     forall s, exists later,
       with_similarity64 s (@scored_of _ F64 q texts vecs) = with_similarity64 s out ++ later).
Proof.
  intros Hlen Hk.
  set (ranked := rank64 (@scored_of _ F64 q texts vecs)).
  exists (firstn (Z.to_nat k) ranked), (skipn (Z.to_nat k) ranked).
  split.
  { rewrite (@top_k_matches_of _ F64 (b64_one_not_zero pow_half)). unfold slice_to.
    replace (0 <=? k)%Z with true by (symmetry; apply Z.leb_le; exact Hk).
    reflexivity. }
  split.
  { rewrite length_firstn. unfold ranked.
    rewrite py_sorted_length, scored_of_length, <- Hlen, Nat.min_id. reflexivity. }
  split.
  { rewrite firstn_skipn. apply py_sorted_perm. }
  intros Hnan. split.
  { apply StronglySorted_firstn, ranked_sorted64, Hnan. }
  intros s. exists (with_similarity64 s (skipn (Z.to_nat k) ranked)).
  unfold with_similarity64. rewrite <- List.filter_app, firstn_skipn.
  symmetry. apply ranked_stable64.
Qed.

End TopK64.

Lemma top_k_matches_ranked_witness :
  exists out rest,
    @top_k_matches _ (binary64 PrimFloat.sqrt) [of_int 1; of_int 0]
      [lit "a"; lit "b"; lit "c"] [[of_int 0; of_int 1]; [of_int 1; of_int 0]; [of_int 2; of_int 0]] 2
    = Ok out /\
    length out = Nat.min (Z.to_nat 2) (length [lit "a"; lit "b"; lit "c"]) /\
    Permutation (out ++ rest)
      (@scored_of _ (binary64 PrimFloat.sqrt) [of_int 1; of_int 0]
         [lit "a"; lit "b"; lit "c"] [[of_int 0; of_int 1]; [of_int 1; of_int 0]; [of_int 2; of_int 0]]) /\
    non_increasing64 out /\
    forall s, exists later,
      with_similarity64 s
        (@scored_of _ (binary64 PrimFloat.sqrt) [of_int 1; of_int 0]
           [lit "a"; lit "b"; lit "c"] [[of_int 0; of_int 1]; [of_int 1; of_int 0]; [of_int 2; of_int 0]])
      = with_similarity64 s out ++ later.
Proof.
  destruct (top_k_matches_ranked PrimFloat.sqrt [of_int 1; of_int 0]
              [lit "a"; lit "b"; lit "c"]
              [[of_int 0; of_int 1]; [of_int 1; of_int 0]; [of_int 2; of_int 0]] 2
              eq_refl ltac:(lia)) as (out & rest & Hout & Hlen & Hperm & Hsorted).
  exists out, rest. split; [exact Hout|]. split; [exact Hlen|]. split; [exact Hperm|].
  apply Hsorted. vm_compute. reflexivity.
Defined.

(** A NaN among the similarities leaves no arrangement in order. *)
Lemma nan_not_sorted (l : list (str * PrimFloat.float)) :
  (2 <= length l)%nat ->
  Exists (fun p => PrimFloat.is_nan (snd p) = true) l ->
  ~ non_increasing64 l.
Proof.
  intros Hlen Hex Hs. destruct Hs as [|x l Hs Hx]; [simpl in Hlen; lia|].
  rewrite List.Forall_forall in Hx.
  apply Exists_cons in Hex as [Hn|Hex].
  - destruct l as [|y l]; [simpl in Hlen; lia|].
    specialize (Hx y (or_introl eq_refl)).
    rewrite (b64_leb_nan_r _ _ Hn) in Hx. discriminate.
  - rewrite List.Exists_exists in Hex. destruct Hex as (y & Hy & Hn).
    specialize (Hx y Hy). rewrite (b64_leb_nan_l _ _ Hn) in Hx. discriminate.
Qed.

(** C6, the claim as stated fails: the finite query [2.0 ** 500] against
    the finite vectors [-1.0], [2.0 ** 600] and [1.0] has the similarities
    -1.0, NaN (infinity over infinity) and 1.0.  The ranker returns them in
    this order, -1.0 before 1.0; and no arrangement of the three is in
    non-increasing order, since no comparison with NaN holds.  Evaluated in
    binary64. *)
Lemma top_k_matches_nan_unsorted :
  length [lit "a"; lit "b"; lit "c"]
  = length [[@of_int _ b64_float (-1)]; [b64_pow2 600]; [of_int 1]] /\
  forallb (forallb PrimFloat.is_finite)
    [[b64_pow2 500]; [@of_int _ b64_float (-1)]; [b64_pow2 600]; [of_int 1]] = true /\
  @top_k_matches _ b64_float [b64_pow2 500] [lit "a"; lit "b"; lit "c"]
    [[of_int (-1)]; [b64_pow2 600]; [of_int 1]] 3
  = Ok [(lit "a", of_int (-1)); (lit "b", PrimFloat.nan); (lit "c", of_int 1)] /\
  PrimFloat.ltb (@of_int _ b64_float (-1)) (of_int 1) = true /\
  (forall l,
     Permutation l
       (@scored_of _ b64_float [b64_pow2 500] [lit "a"; lit "b"; lit "c"]
          [[of_int (-1)]; [b64_pow2 600]; [of_int 1]]) ->
     ~ non_increasing64 l).
Proof.
  split; [reflexivity|]. split; [vm_compute; reflexivity|].
  split; [vm_compute; reflexivity|]. split; [vm_compute; reflexivity|].
  intros l Hl. apply nan_not_sorted.
  - rewrite (Permutation_length Hl). unfold scored_of. rewrite zip_length, length_map.
    simpl. lia.
  - apply List.Exists_exists. exists (lit "b", PrimFloat.nan). split; [|reflexivity].
    apply (Permutation_in _ (Permutation_sym Hl)).
    right. left. vm_compute. reflexivity.
Qed.

(** ** The order of [str] *)

Lemma str_ltb_irrefl (s : str) : str_ltb s s = false.
Proof.
  induction s as [|a s IH]; simpl; [reflexivity|].
  rewrite N.ltb_irrefl, N.eqb_refl, IH. reflexivity.
Qed.

Lemma str_ltb_cons (a b : N) (s t : str) :
  str_ltb (a :: s) (b :: t) = true <-> (a < b)%N \/ (a = b /\ str_ltb s t = true).
Proof.
  simpl. rewrite orb_true_iff, andb_true_iff, N.ltb_lt, N.eqb_eq. reflexivity.
Qed.

Lemma str_ltb_trans (s t u : str) :
  str_ltb s t = true -> str_ltb t u = true -> str_ltb s u = true.
Proof.
  revert t u; induction s as [|a s IH]; intros [|b t] [|c u]; try discriminate;
    try reflexivity.
  rewrite !str_ltb_cons. intros [Hab|[-> Hst]] [Hbc|[-> Htu]].
  - left. lia.
  - left. exact Hab.
  - left. exact Hbc.
  - right. split; [reflexivity|]. apply (IH t u Hst Htu).
Qed.

Lemma str_ltb_total (s t : str) :
  str_ltb s t = false -> str_ltb t s = true \/ s = t.
Proof.
  revert t; induction s as [|a s IH]; intros [|b t]; simpl; try discriminate; auto.
  rewrite orb_false_iff, andb_false_iff. intros [Hlt Heq].
  apply N.ltb_ge in Hlt.
  destruct (N.eqb_spec a b) as [->|Hne].
  - destruct Heq as [Heq|Heq]; [discriminate|].
    destruct (IH t Heq) as [Hts| ->].
    + left. rewrite N.ltb_irrefl, N.eqb_refl, Hts. reflexivity.
    + right. reflexivity.
  - left. replace (b <? a)%N with true by (symmetry; apply N.ltb_lt; lia).
    reflexivity.
Qed.

(** [sorted] puts a list without repetition in strictly increasing
    order. *)
Lemma sorted_strict (l : list str) :
  List.NoDup l -> StronglySorted (fun s t => str_ltb s t = true) (py_sorted str_ltb l).
Proof.
  intros Hnd.
  assert (Hnd' : List.NoDup (py_sorted str_ltb l)).
  { apply (Permutation_NoDup (l := l)); [|exact Hnd].
    symmetry. apply py_sorted_perm. }
  assert (Hs : StronglySorted (fun s t => str_ltb s t = true \/ s = t) (py_sorted str_ltb l)).
  { apply py_sorted_sorted.
    - intros x y z [Hxy| ->] [Hyz| ->]; auto.
      left. apply (str_ltb_trans x y z Hxy Hyz).
    - intros x y Hlt. left. exact Hlt.
    - intros x y Hlt. destruct (str_ltb_total y x Hlt) as [H| ->]; auto. }
  revert Hnd'. induction Hs as [|x l' Hl' IH Hx]; intros Hnd'; constructor.
  - apply IH. inversion Hnd'; assumption.
  - inversion Hnd' as [|? ? Hnotin _]; subst.
    rewrite List.Forall_forall in Hx. apply List.Forall_forall. intros y Hy.
    destruct (Hx y Hy) as [H| ->]; [exact H|contradiction].
Qed.

(** Two strictly increasing lists with the same items are the same list. *)
Lemma strict_sorted_unique (l1 l2 : list str) :
  StronglySorted (fun s t => str_ltb s t = true) l1 ->
  StronglySorted (fun s t => str_ltb s t = true) l2 ->
  (forall s, In s l1 <-> In s l2) -> l1 = l2.
Proof.
  intros H1; revert l2; induction H1 as [|x l1 Hl1 IH Hx]; intros l2 H2 Hin.
  - destruct l2 as [|y l2]; [reflexivity|].
    exfalso. apply (proj2 (Hin y)). left. reflexivity.
  - destruct H2 as [|y l2 Hl2 Hy].
    + exfalso. apply (proj1 (Hin x)). left. reflexivity.
    + rewrite List.Forall_forall in Hx, Hy.
      assert (Hxy : x = y).
      { destruct (proj1 (Hin x) (or_introl eq_refl)) as [Heq|Hx2]; [congruence|].
        destruct (proj2 (Hin y) (or_introl eq_refl)) as [Heq|Hy1]; [congruence|].
        pose proof (str_ltb_trans _ _ _ (Hx y Hy1) (Hy x Hx2)) as Hxx.
        rewrite str_ltb_irrefl in Hxx. discriminate. }
      subst y. f_equal. apply IH; [exact Hl2|].
      intros s. split; intros Hs.
      * destruct (proj1 (Hin s) (or_intror Hs)) as [Heq|H]; [|exact H].
        subst s. pose proof (Hx x Hs) as Hxx.
        rewrite str_ltb_irrefl in Hxx. discriminate.
      * destruct (proj2 (Hin s) (or_intror Hs)) as [Heq|H]; [|exact H].
        subst s. pose proof (Hy x Hs) as Hxx.
        rewrite str_ltb_irrefl in Hxx. discriminate.
Qed.

Lemma py_sorted_In {A : Type} (lt : A -> A -> bool) (l : list A) (x : A) :
  In x (py_sorted lt l) <-> In x l.
Proof.
  split; apply Permutation_in; [|symmetry]; apply py_sorted_perm.
Qed.

(** ** Tokens *)

Lemma runs_from_class (cls : N -> bool) (cur s : str) :
  forallb cls cur = true ->
  Forall (fun t => t <> [] /\ forallb cls t = true) (runs_from cls cur s).
Proof.
  revert cur; induction s as [|c s IH]; intros cur Hcur; simpl.
  - destruct cur as [|a cur]; constructor; [|constructor].
    split; [discriminate|exact Hcur].
  - destruct (cls c) eqn:Hc.
    + apply IH. rewrite forallb_app, Hcur. simpl. rewrite Hc. reflexivity.
    + destruct cur as [|a cur]; [apply IH; reflexivity|].
      constructor; [split; [discriminate|exact Hcur]|].
      apply IH. reflexivity.
Qed.

Lemma findall_class_tokens (cls : N -> bool) (s : str) :
  Forall (fun t => t <> [] /\ forallb cls t = true) (findall_class cls s).
Proof. apply runs_from_class. reflexivity. Qed.

Lemma token_no_slash (text : str) :
  ~ In (lit "ci/cd") (findall_class skill_char text).
Proof.
  intros Hin.
  pose proof (findall_class_tokens skill_char text) as Hall.
  rewrite List.Forall_forall in Hall.
  destruct (Hall _ Hin) as [_ Hcls]. vm_compute in Hcls. discriminate.
Qed.

(** ** [extract_skills] *)

Section Skills.
Context {L : Lower}.

Lemma extract_skills_In (text : str) (s : str) :
  In s (extract_skills text) <->
  s ∈ BASIC_SKILLS /\ In s (findall_class skill_char (str_lower text)).
Proof.
  unfold extract_skills.
  rewrite py_sorted_In.
  rewrite filter_In, <- list_elem_of_In, elem_of_elements, bool_decide_eq_true.
  rewrite elem_of_list_to_set, list_elem_of_In. reflexivity.
Qed.

Lemma extract_skills_sorted (text : str) :
  StronglySorted (fun s t => str_ltb s t = true) (extract_skills text).
Proof.
  unfold extract_skills. apply sorted_strict.
  apply List.NoDup_filter, NoDup_ListNoDup, NoDup_elements.
Qed.

(** C5, as amended.  The skill extractor cuts the lowered text into the
    maximal runs of the letters A-Z, a-z and the four signs # + . - (a
    digit ends a token as any other character does), and returns the
    vocabulary entries among these tokens, each once, in increasing order:
    the sorted intersection of the vocabulary with the set of tokens. *)
Theorem extract_skills_intersection (text : str) :
  let tokens := findall_class skill_char (str_lower text) in
  Forall (fun t => t <> [] /\ forallb skill_char t = true) tokens /\
  (forall s, In s (extract_skills text) <-> s ∈ BASIC_SKILLS /\ In s tokens) /\
  StronglySorted (fun s t => str_ltb s t = true) (extract_skills text) /\
  extract_skills text = py_sorted str_ltb (elements (BASIC_SKILLS ∩ list_to_set tokens)).
Proof.
  intros tokens.
  split; [apply findall_class_tokens|].
  split; [apply extract_skills_In|].
  split; [apply extract_skills_sorted|].
  apply strict_sorted_unique.
  - apply extract_skills_sorted.
  - apply sorted_strict, NoDup_ListNoDup, NoDup_elements.
  - intros s. rewrite extract_skills_In, py_sorted_In. split.
    + intros [Hv Ht].
      apply list_elem_of_In, elem_of_elements, elem_of_intersection.
      split; [exact Hv|]. apply elem_of_list_to_set, list_elem_of_In, Ht.
    + intros Hs.
      apply list_elem_of_In, elem_of_elements, elem_of_intersection in Hs.
      destruct Hs as [Hv Ht]. split; [exact Hv|].
      apply elem_of_list_to_set in Ht. apply list_elem_of_In, Ht.
Qed.

(** C10.  The vocabulary holds "ci/cd", but the tokenizer's class has no
    "/": no token is "ci/cd", so the skill extractor never returns it,
    neither for a resume nor for a job description; and, [str.lower]
    leaving the vocabulary as it is, the missing skills computed from
    extracted skills never hold it either. *)
Theorem cicd_never_extracted (text : str) :
  lit "ci/cd" ∈ BASIC_SKILLS /\
  skill_char (chr "/") = false /\
  ~ In (lit "ci/cd") (findall_class skill_char (str_lower text)) /\
  ~ In (lit "ci/cd") (extract_skills text) /\
  ~ In (lit "ci/cd") (parse_job_description text) /\
  ((forall s, s ∈ BASIC_SKILLS -> str_lower s = s) ->
   forall (v w : list R) (resume_text : str),
   exists r,
     compute_match_score v w (extract_skills resume_text) (parse_job_description text) = Ok r /\
     ~ In (lit "ci/cd") (missing_skills r)).
Proof.
  assert (Hskills : forall t, ~ In (lit "ci/cd") (extract_skills t)).
  { intros t Hin.
    destruct (proj1 (extract_skills_In t (lit "ci/cd")) Hin) as [_ Htok].
    exact (token_no_slash (str_lower t) Htok). }
  assert (Hjob : forall t, parse_job_description t = extract_skills t).
  { intros t. unfold parse_job_description. cbv zeta.
    destruct t; unfold list_or; reflexivity. }
  split.
  { unfold BASIC_SKILLS. apply elem_of_list_to_set, list_elem_of_In.
    simpl. repeat (first [left; reflexivity | right]). }
  split; [reflexivity|].
  split; [apply token_no_slash|].
  split; [apply Hskills|].
  split; [rewrite Hjob; apply Hskills|].
  intros Hlower v w resume_text.
  destruct (compute_match_score_value v w (extract_skills resume_text)
              (parse_job_description text)) as (r & Hr & _ & _ & _ & _ & Hmiss).
  exists r. split; [exact Hr|].
  rewrite Hmiss, Hjob.
  rewrite py_sorted_In.
  rewrite <- list_elem_of_In, elem_of_elements, elem_of_difference.
  intros [Hin _]. unfold lowered in Hin.
  rewrite elem_of_list_to_set, list_elem_of_In, in_map_iff in Hin.
  destruct Hin as (s & Hs & Hin).
  pose proof (proj1 (extract_skills_In text s) Hin) as [Hvoc _].
  rewrite (Hlower s Hvoc) in Hs. subst s.
  exact (Hskills text Hin).
Qed.

End Skills.

Lemma lower_ascii_vocabulary (s : str) : s ∈ BASIC_SKILLS -> lower_ascii s = s.
Proof.
  unfold BASIC_SKILLS. intros Hs.
  apply elem_of_list_to_set, list_elem_of_In in Hs. simpl in Hs.
  repeat (destruct Hs as [<-|Hs]; [reflexivity|]). contradiction.
Qed.

Lemma cicd_never_extracted_witness :
  exists r,
    @compute_match_score R _ lower_ascii [1%R] [1%R]
      (@extract_skills lower_ascii (lit "python and ci/cd"))
      (@parse_job_description lower_ascii (lit "CI/CD, docker")) = Ok r /\
    ~ In (lit "ci/cd") (missing_skills r).
Proof.
  apply (proj2 (proj2 (proj2 (proj2 (proj2
           (@cicd_never_extracted lower_ascii (lit "CI/CD, docker"))))))
           lower_ascii_vocabulary [1%R] [1%R] (lit "python and ci/cd")).
Defined.

(** A job description that names "ci/cd" and docker yields docker only. *)
Example extract_skills_cicd :
  @parse_job_description lower_ascii (lit "CI/CD, Docker and ci/cd pipelines") = [lit "docker"].
Proof. vm_compute. reflexivity. Qed.

(** C5, the claim as stated fails: with digits in the class, "python3" is
    one token and no vocabulary entry; the extractor's class has no digits,
    so it reads the token "python" and returns the skill python. *)
Lemma extract_skills_digits :
  @extract_skills lower_ascii (lit "python3") = [lit "python"] /\
  @extract_skills_spec lower_ascii (lit "python3") = [].
Proof. split; vm_compute; reflexivity. Qed.

(** ** [extract_name] *)

(** The first item of [splitlines], or the empty string when there is
    none, is the text up to its first line break. *)
Lemma splitlines_from_first (cur s : str) :
  hd [] (list_or (splitlines_from false cur s) [[]])
  = cur ++ take_while (fun c => negb (is_linebreak c)) s.
Proof.
  revert cur; induction s as [|c s IH]; intros cur; simpl.
  - destruct cur; simpl; [reflexivity|]. rewrite app_nil_r. reflexivity.
  - destruct (is_linebreak c); simpl.
    + rewrite app_nil_r. reflexivity.
    + rewrite IH, <- app_assoc. reflexivity.
Qed.

Lemma splitlines_first (text : str) :
  hd [] (list_or (splitlines text) [[]])
  = take_while (fun c => negb (is_linebreak c)) text.
Proof. apply (splitlines_from_first [] text). Qed.

(** [strip] removes whitespace at the two ends and nothing else. *)
Lemma drop_while_decompose {A : Type} (p : A -> bool) (l : list A) :
  exists pre, l = pre ++ drop_while p l /\ forallb p pre = true /\
              match drop_while p l with [] => True | x :: _ => p x = false end.
Proof.
  induction l as [|x l (pre & Hl & Hpre & Hhd)]; simpl.
  - exists []. auto.
  - destruct (p x) eqn:Hx.
    + exists (x :: pre). simpl. rewrite Hx, Hpre, <- Hl. auto.
    + exists []. simpl. auto.
Qed.

Lemma strip_decompose (s : str) :
  exists pre post,
    s = pre ++ strip s ++ post /\
    forallb is_space pre = true /\ forallb is_space post = true /\
    match strip s with [] => True | c :: _ => is_space c = false end /\
    match rev (strip s) with [] => True | c :: _ => is_space c = false end.
Proof.
  unfold strip, rstrip, lstrip.
  destruct (drop_while_decompose is_space s) as (pre & Hs & Hpre & Hhd).
  set (m := drop_while is_space s) in *.
  destruct (drop_while_decompose is_space (rev m)) as (post & Hm & Hpost & Hlast).
  set (t := drop_while is_space (rev m)) in *.
  assert (Hm' : m = rev t ++ rev post).
  { rewrite <- (rev_involutive m), Hm, rev_app_distr. reflexivity. }
  exists pre, (rev post). repeat split.
  - rewrite <- Hm'. exact Hs.
  - exact Hpre.
  - rewrite forallb_forall in *. intros c Hc. apply Hpost, in_rev, Hc.
  - destruct (rev t) as [|c r] eqn:Hr; [exact I|].
    rewrite Hm' in Hhd. simpl in Hhd. exact Hhd.
  - rewrite rev_involutive. exact Hlast.
Qed.

(** C4, as amended.  The name extractor takes the first line of the text,
    that is the text up to its first line break (empty when the text is
    empty or begins with a break), strips the whitespace at its two ends,
    and returns the stripped line exactly when it has 2 to 5 words and at
    most 64 characters; otherwise it returns None.  It does not look for
    the first line that is not empty. *)
Theorem extract_name_first_line (text : str) :
  let line := strip (take_while (fun c => negb (is_linebreak c)) text) in
  let words := length (split line) in
  (2 <= words <= 5 /\ length line <= 64 -> extract_name text = Some line) /\
  (~ (2 <= words <= 5 /\ length line <= 64) -> extract_name text = None).
Proof.
  intros line words. unfold extract_name. rewrite splitlines_first.
  fold line. fold words.
  destruct (Nat.leb_spec 2 words); destruct (Nat.leb_spec words 5);
    destruct (Nat.leb_spec (length line) 64); simpl;
    split; intros Hc; try reflexivity; exfalso; lia.
Qed.

Lemma extract_name_first_line_witness :
  extract_name (lit "  Ada  Lovelace " ++ [10%N] ++ lit "Engineer")
  = Some (lit "Ada  Lovelace").
Proof.
  apply (proj1 (extract_name_first_line
                  (lit "  Ada  Lovelace " ++ [10%N] ++ lit "Engineer"))).
  vm_compute. lia.
Defined.

(** C4, the claim as stated fails: for a text whose first line is empty
    and whose second line is "John Smith" the extractor returns None,
    where the first line that is not empty would be accepted. *)
Lemma extract_name_leading_blank_line :
  extract_name ([10%N] ++ lit "John Smith") = None /\
  extract_name_spec ([10%N] ++ lit "John Smith") = Some (lit "John Smith").
Proof. split; vm_compute; reflexivity. Qed.

Example extract_name_examples :
  extract_name (lit "John Smith") = Some (lit "John Smith") /\
  extract_name [] = None /\
  extract_name (lit "Resume") = None /\
  extract_name (lit "a b c d e f") = None /\
  extract_name (lit "John Smith" ++ [13; 10]%N ++ lit "Engineer") = Some (lit "John Smith").
Proof. repeat split; vm_compute; reflexivity. Qed.

(** ** The workflow trace *)

Section Trace.
Context {object : Type}.

Lemma item_middle {A : Type} (p l : list A) (x : A) :
  item (p ++ x :: l) (length p) = Ok x.
Proof.
  unfold item. rewrite lookup_app_r by lia.
  rewrite Nat.sub_diag. reflexivity.
Qed.

Lemma edges_from (p l : list str) :
  for_each (fun i => bind (item (p ++ l) i) (fun u =>
                     bind (item (p ++ l) (i + 1)) (fun v => Ok (u, v))))
           (seq (length p) (length l - 1))
  = Ok (zip l (tl l)).
Proof.
  revert p; induction l as [|x l IH]; intros p; [reflexivity|].
  destruct l as [|y l]; [reflexivity|].
  replace (length (x :: y :: l) - 1) with (S (length (y :: l) - 1)) by (simpl; lia).
  simpl seq. simpl for_each.
  rewrite item_middle. simpl bind.
  replace (p ++ x :: y :: l) with ((p ++ [x]) ++ y :: l) by (rewrite <- app_assoc; reflexivity).
  replace (length p + 1) with (length (p ++ [x])) by (rewrite length_app; reflexivity).
  rewrite item_middle. simpl bind.
  replace (S (length p)) with (length (p ++ [x])) by (rewrite length_app; simpl; lia).
  rewrite IH. reflexivity.
Qed.

(** Building the trace never fails: the edges are the pairs of each name
    with the next. *)
Lemma build_workflow_trace_value (l : list (AgentResult object)) :
  build_workflow_trace l
  = Ok {| steps := l; edges := zip (List.map name l) (tl (List.map name l)) |}.
Proof.
  unfold build_workflow_trace, range.
  replace (Z.to_nat (Z.of_nat (length (List.map name l)) - 1))
    with (length (List.map name l) - 1) by lia.
  pose proof (edges_from [] (List.map name l)) as He. simpl in He.
  rewrite He. reflexivity.
Qed.

Context {bytes service : Type}.
Variable resume_parser_agent : bytes -> result (AgentResult object).
Variable job_parser_agent : str -> result (AgentResult object).
Variable content_enhancer_agent : object -> result (AgentResult object).
Variable matcher_and_scoring_agent :
  object -> str -> object -> object -> service -> result (AgentResult object).

(** C2, as amended.  A run that succeeds yields a trace of exactly four
    stages, the results of the resume parser, the job parser, the content
    enhancer and the matcher in this order, and its edges are exactly the
    three pairs of consecutive names.  Building the trace is the fifth step
    of the run, not a stage of the trace. *)
Theorem run_analysis_trace (embed : service) (resume_bytes : bytes) (job_desc : str)
    (tr : WorkflowTrace object) :
  run_analysis resume_parser_agent job_parser_agent content_enhancer_agent
               matcher_and_scoring_agent embed resume_bytes job_desc = Ok tr ->
  exists a1 a2 a3 a4 raw_text resume_skills job_skills,
    resume_parser_agent resume_bytes = Ok a1 /\
    job_parser_agent job_desc = Ok a2 /\
    content_enhancer_agent raw_text = Ok a3 /\
    matcher_and_scoring_agent raw_text job_desc resume_skills job_skills embed = Ok a4 /\
    steps tr = [a1; a2; a3; a4] /\
    edges tr = [(name a1, name a2); (name a2, name a3); (name a3, name a4)].
Proof.
  unfold run_analysis. intros Hrun.
  apply bind_ok in Hrun as (a1 & H1 & Hrun).
  apply bind_ok in Hrun as (a2 & H2 & Hrun).
  apply bind_ok in Hrun as (raw & Hraw & Hrun).
  apply bind_ok in Hrun as (a3 & H3 & Hrun).
  apply bind_ok in Hrun as (raw' & Hraw' & Hrun).
  apply bind_ok in Hrun as (rs & Hrs & Hrun).
  apply bind_ok in Hrun as (js & Hjs & Hrun).
  apply bind_ok in Hrun as (a4 & H4 & Hrun).
  assert (raw' = raw) by congruence. subst raw'.
  rewrite build_workflow_trace_value in Hrun. injection Hrun as <-.
  exists a1, a2, a3, a4, raw, rs, js. repeat split; assumption || reflexivity.
Qed.

End Trace.

Lemma run_analysis_trace_witness :
  exists tr,
    agents.run [lit "Ada Lovelace"] (lit "python") = Ok tr /\
    length (steps tr) = 4 /\ length (edges tr) = 3.
Proof.
  assert (Hrun : exists tr, agents.run [lit "Ada Lovelace"] (lit "python") = Ok tr).
  { eexists. vm_compute. reflexivity. }
  destruct Hrun as [tr Hrun]. exists tr. split; [exact Hrun|].
  destruct (run_analysis_trace agents.resume_parser_agent agents.job_parser_agent
              agents.content_enhancer_agent agents.matcher_and_scoring_agent
              tt [lit "Ada Lovelace"] (lit "python") tr Hrun)
    as (a1 & a2 & a3 & a4 & raw & rs & js & _ & _ & _ & _ & Hsteps & Hedges).
  rewrite Hsteps, Hedges. split; reflexivity.
Defined.

(** C2, the claim as stated fails: with the agents named as the
    specification names them, the trace of a run has four stages and three
    edges; no stage is called BuildTrace. *)
Lemma run_analysis_four_stages :
  exists tr,
    agents.run [lit "Ada Lovelace"] (lit "python") = Ok tr /\
    List.map name (steps tr)
    = [lit "ParseResume"; lit "ParseJob"; lit "EnhanceContent"; lit "MatchAndScore"] /\
    length (steps tr) = 4 /\
    edges tr
    = [(lit "ParseResume", lit "ParseJob"); (lit "ParseJob", lit "EnhanceContent");
       (lit "EnhanceContent", lit "MatchAndScore")] /\
    length (edges tr) = 3.
Proof.
  eexists. split; [vm_compute; reflexivity|].
  repeat split; vm_compute; reflexivity.
Qed.

(** ** The hashing embedding *)

Section Hashing.
Context {E F : Type} `{PyFloat F} `{NumPy E F} `{Lower} `{Sha1}.

Lemma hash_to_index_range (d : Z) (token : str) :
  (0 < d)%Z ->
  exists i, _hash_to_index (init d) token = Ok i /\ (0 <= i < d)%Z.
Proof.
  intros Hd. unfold _hash_to_index, int_mod. simpl.
  replace (d =? 0)%Z with false by (symmetry; apply Z.eqb_neq; lia).
  eexists. split; [reflexivity|]. apply Z.mod_pos_bound, Hd.
Qed.

Lemma add_at_length (vec : list E) (i : Z) (y : F) :
  (0 <= i < Z.of_nat (length vec))%Z ->
  exists vec', add_at vec i y = Ok vec' /\ length vec' = length vec.
Proof.
  intros Hi. unfold add_at.
  destruct (lookup_lt_is_Some_2 vec (Z.to_nat i)) as [x Hx]; [lia|].
  rewrite Hx. eexists. split; [reflexivity|]. apply length_insert.
Qed.

Lemma count_tokens_length (d : nat) (tokens : list str) (vec : list E) :
  (0 < d)%nat -> length vec = d ->
  exists vec', count_tokens (init (Z.of_nat d)) tokens vec = Ok vec' /\ length vec' = d.
Proof.
  intros Hd. revert vec; induction tokens as [|tok tokens IH]; intros vec Hlen; simpl.
  - exists vec. split; [reflexivity|exact Hlen].
  - destruct (hash_to_index_range (Z.of_nat d) tok) as (i & Hi & Hrange); [lia|].
    rewrite Hi. simpl bind.
    destruct (add_at_length vec i (dec 10 1)) as (vec' & Hadd & Hlen'); [lia|].
    rewrite Hadd. simpl bind. apply IH. congruence.
Qed.

(** One text, for a positive dimension: a vector of that length, and no
    exception. *)
Lemma embed_document_length (d : nat) (t : str) :
  (0 < d)%nat ->
  exists v, embed_document (init (Z.of_nat d)) t = Ok v /\ length v = d.
Proof.
  intros Hd. unfold embed_document, np_zeros. simpl _dimension.
  replace (Z.of_nat d <? 0)%Z with false by (symmetry; apply Z.ltb_ge; lia).
  simpl bind. rewrite Nat2Z.id.
  destruct (_tokenize (init (Z.of_nat d)) (list_or t [])) as [|tok tokens].
  - simpl bind. eexists. split; [reflexivity|].
    rewrite length_map, length_replicate. reflexivity.
  - destruct (count_tokens_length d (tok :: tokens) (replicate d np_zero) Hd)
      as (vec & Hvec & Hlen); [apply length_replicate|].
    rewrite Hvec. simpl bind.
    destruct (fltb (of_int 0) (np_norm vec)); simpl bind;
      (eexists; split; [reflexivity|]); rewrite ?length_map; exact Hlen.
Qed.

(** Whatever the dimension: a vector that is returned has as many entries
    as [np.zeros] allocated. *)
Lemma add_at_ok_length (vec vec' : list E) (i : Z) (y : F) :
  add_at vec i y = Ok vec' -> length vec' = length vec.
Proof.
  unfold add_at. destruct (vec !! Z.to_nat i) as [x|]; [|discriminate].
  intros Hv. injection Hv as <-. apply length_insert.
Qed.

Lemma count_tokens_ok_length (self : _LocalHashingEmbeddings) (tokens : list str)
    (vec vec' : list E) :
  count_tokens self tokens vec = Ok vec' -> length vec' = length vec.
Proof.
  revert vec; induction tokens as [|tok tokens IH]; intros vec; cbn [count_tokens].
  - intros Hv. injection Hv as <-. reflexivity.
  - intros Hv. apply bind_ok in Hv as (i & _ & Hv).
    apply bind_ok in Hv as (vec1 & Hadd & Hv).
    rewrite (IH _ Hv). exact (add_at_ok_length _ _ _ _ Hadd).
Qed.

Lemma embed_document_ok_length (d : Z) (t : str) (v : list F) :
  embed_document (init d) t = Ok v -> length v = Z.to_nat d.
Proof.
  unfold embed_document, np_zeros. cbn [_dimension init].
  destruct (d <? 0)%Z; [discriminate|]. cbn [bind].
  intros Hv. apply bind_ok in Hv as (vec & Hvec & Hv).
  injection Hv as <-. rewrite length_map.
  destruct (_tokenize (init d) (list_or t [])) as [|tok tokens].
  - injection Hvec as <-. apply length_replicate.
  - apply bind_ok in Hvec as (vec1 & Hcount & Hvec).
    apply count_tokens_ok_length in Hcount. rewrite length_replicate in Hcount.
    destruct (fltb (of_int 0) (np_norm vec1)); injection Hvec as <-;
      rewrite ?length_map; exact Hcount.
Qed.

Lemma embed_loop_ok_shape (d : Z) (texts : list str) (acc vectors : list (list F)) :
  embed_loop (init d) texts acc = Ok vectors ->
  length vectors = (length acc + length texts)%nat /\
  (Forall (fun v => length v = Z.to_nat d) acc ->
   Forall (fun v => length v = Z.to_nat d) vectors).
Proof.
  revert acc; induction texts as [|t texts IH]; intros acc; cbn [embed_loop].
  - intros Hv. injection Hv as <-. split; [simpl; lia|tauto].
  - intros Hv. apply bind_ok in Hv as (v & Hdoc & Hv).
    destruct (IH _ Hv) as [Hlen Hall]. split.
    + rewrite Hlen, length_app. simpl. lia.
    + intros Hacc. apply Hall. apply Forall_app. split; [exact Hacc|].
      constructor; [|constructor]. exact (embed_document_ok_length _ _ _ Hdoc).
Qed.

(** The loop over the texts carries nothing from one text to the next. *)
Lemma embed_loop_map (self : _LocalHashingEmbeddings) (g : str -> list F)
    (texts : list str) (vectors : list (list F)) :
  (forall t, embed_document self t = Ok (g t)) ->
  embed_loop self texts vectors = Ok (vectors ++ List.map g texts).
Proof.
  intros Hg. revert vectors; induction texts as [|t texts IH]; intros vectors; simpl.
  - rewrite app_nil_r. reflexivity.
  - rewrite Hg. simpl bind. rewrite IH, <- app_assoc. reflexivity.
Qed.

(** X30.  For the provider of dimension 768 no call raises, and the
    vector of a text does not depend on the texts embedded with it or
    before it: a call returns, text by text, what the call on that text
    alone returns.  The loop allocates a new vector for each text and
    carries nothing over. *)
Theorem embed_documents_per_text :
  exists embed_one : str -> list F,
    (forall t, length (embed_one t) = 768) /\
    (forall texts,
        embed_documents (init 768) texts = Ok (List.map embed_one texts)) /\
    (forall t, embed_documents (init 768) [t] = Ok [embed_one t]) /\
    (forall t, embed_documents (init 768) [t; t] = Ok [embed_one t; embed_one t]) /\
    (forall self, _dimension self = 768%Z -> self = init 768).
Proof.
  assert (Hdoc : forall t, exists v, embed_document (init 768) t = Ok v /\ length v = 768).
  { intros t. apply (embed_document_length 768 t). lia. }
  exists (fun t => match embed_document (init 768) t with Ok v => v | Raise _ => [] end).
  assert (Hg : forall t, embed_document (init 768) t
                 = Ok (match embed_document (init 768) t with Ok v => v | Raise _ => [] end)).
  { intros t. destruct (Hdoc t) as (v & Hv & _). rewrite Hv. reflexivity. }
  split; [|split; [|split; [|split]]].
  - intros t. destruct (Hdoc t) as (v & Hv & Hlen). rewrite Hv. exact Hlen.
  - intros texts. unfold embed_documents.
    rewrite (embed_loop_map _ _ texts [] Hg). reflexivity.
  - intros t. unfold embed_documents.
    rewrite (embed_loop_map _ _ [t] [] Hg). reflexivity.
  - intros t. unfold embed_documents.
    rewrite (embed_loop_map _ _ [t; t] [] Hg). reflexivity.
  - intros [d] Hd. simpl in Hd. subst d. reflexivity.
Qed.

End Hashing.

(** * Further properties of the scoring code *)

Section CosineFacts.
Local Open Scope R_scope.

Lemma dot_comm (a b : list R) : dot a b = dot b a.
Proof.
  revert b; induction a as [|x a IH]; intros [|y b];
    rewrite ?dot_nil_l, ?dot_nil_r; try reflexivity.
  rewrite !dot_cons, IH. lra.
Qed.

Lemma dot_self (v : list R) : dot v v = norm v * norm v.
Proof.
  rewrite norm_sqr. induction v as [|x v IH]; [reflexivity|].
  rewrite dot_cons, sumsq_cons, IH. reflexivity.
Qed.

Lemma norm_nonzero (v : list R) : Exists (fun x => x <> 0) v -> norm v <> 0.
Proof.
  intros Hex Hn. apply norm_zero_all in Hn.
  rewrite List.Exists_exists in Hex. destruct Hex as (x & Hin & Hx).
  rewrite List.Forall_forall in Hn. exact (Hx (Hn x Hin)).
Qed.

Lemma dot_scale (c : R) (a b : list R) : dot (List.map (Rmult c) a) b = c * dot a b.
Proof.
  revert b; induction a as [|x a IH]; intros [|y b]; simpl List.map;
    rewrite ?dot_nil_l, ?dot_nil_r; try lra.
  rewrite !dot_cons, IH. lra.
Qed.

Lemma norm_scale (c : R) (a : list R) : 0 <= c -> norm (List.map (Rmult c) a) = c * norm a.
Proof.
  intros Hc.
  assert (Hs : fsum (List.map (fun x => fmul x x) (List.map (Rmult c) a))
               = (c * c) * fsum (List.map (fun x => fmul x x) a)).
  { induction a as [|x a IH]; [unfold fsum; simpl; lra|].
    cbn [List.map]. rewrite !fsum_cons, IH. simpl. lra. }
  unfold norm. rewrite Hs. cbn [fsqrt R_float].
  rewrite sqrt_mult by (try apply sumsq_nonneg; nra).
  rewrite sqrt_square by exact Hc. reflexivity.
Qed.




(** X3.  The similarity does not depend on the order of its two
    arguments. *)
Theorem cosine_similarity_sym (a b : list R) :
  cosine_similarity a b = cosine_similarity b a.
Proof.
  rewrite !cosine_similarity_value. f_equal.
  rewrite (dot_comm a b). f_equal.
  destruct (Req_dec_T (norm a * norm b) 0) as [Hz|Hz].
  - rewrite !denominator_zero by lra. reflexivity.
  - rewrite !denominator_nonzero by lra. lra.
Qed.

(** X4.  In exact arithmetic the similarity does not change when a vector
    is scaled by a positive factor: only the direction counts.  In binary64
    the scale matters once squares underflow: [3.0, 4.0] against
    [4.0, 3.0] gives 24/25, and scaled by [2.0 ** -600] it gives the dot
    product [24 * 2.0 ** -600], its norm being computed as 0.0. *)
Theorem cosine_similarity_scale :
  (forall (c : R) (a b : list R),
      0 < c -> cosine_similarity (List.map (Rmult c) a) b = cosine_similarity a b) /\
  @cosine_similarity _ b64_float [of_int 3; of_int 4] [of_int 4; of_int 3]
  = Ok (PrimFloat.div (of_int 24) (of_int 25)) /\
  @cosine_similarity _ b64_float
    (List.map (PrimFloat.mul b64_tiny) [of_int 3; of_int 4]) [of_int 4; of_int 3]
  = Ok (PrimFloat.mul (of_int 24) b64_tiny).
Proof.
  split; [|split; vm_compute; reflexivity].
  intros c a b Hc. rewrite !cosine_similarity_value. f_equal.
  rewrite dot_scale.
  destruct (Req_dec_T (norm a * norm b) 0) as [Hz|Hz].
  - rewrite (denominator_zero a b Hz).
    rewrite denominator_zero by (rewrite norm_scale by lra; nra).
    rewrite (zero_norm_dot a b).
    + lra.
    + destruct (Req_dec_T (norm a) 0); [left; assumption|right; nra].
  - rewrite (denominator_nonzero a b Hz).
    rewrite denominator_nonzero by (rewrite norm_scale by lra; nra).
    rewrite norm_scale by lra. field. split; nra.
Qed.

Lemma cosine_similarity_scale_witness :
  cosine_similarity (List.map (Rmult 3) [1; 2]) [2; 1] = cosine_similarity [1; 2] [2; 1].
Proof. apply (proj1 cosine_similarity_scale 3 [1; 2] [2; 1]). lra. Defined.

End CosineFacts.

Section MatchFacts.
Context {L : Lower}.
Local Open Scope R_scope.

Lemma clamp_id (x : R) : 0 <= x <= 1 -> Rmax 0 (Rmin 1 x) = x.
Proof.
  intros Hx. destruct (Req_dec_T x 1) as [->|Hne].
  - rewrite Rmin_left, Rmax_right; lra.
  - rewrite Rmin_right, Rmax_right; lra.
Qed.

(** X6.  The missing skills are exactly the lowered job skills that are not
    among the lowered resume skills, each once and in increasing order;
    there are none exactly when every job skill is a resume skill. *)
Theorem missing_skills_difference (a b : list R) (rs js : list str) :
  exists r,
    compute_match_score a b rs js = Ok r /\
    (forall s, In s (missing_skills r) <-> s ∈ lowered js /\ s ∉ lowered rs) /\
    StronglySorted (fun s t => str_ltb s t = true) (missing_skills r) /\
    (missing_skills r = [] <-> lowered js ⊆ lowered rs).
Proof.
  destruct (compute_match_score_value a b rs js)
    as (r & Hr & _ & _ & _ & _ & Hmiss).
  exists r. split; [exact Hr|].
  assert (Hin : forall s, In s (missing_skills r) <-> s ∈ lowered js /\ s ∉ lowered rs).
  { intros s. rewrite Hmiss, py_sorted_In. split.
    - intros Hs. apply list_elem_of_In, elem_of_elements, elem_of_difference in Hs.
      exact Hs.
    - intros Hs. apply list_elem_of_In, elem_of_elements, elem_of_difference.
      exact Hs. }
  split; [exact Hin|].
  split.
  { rewrite Hmiss. apply sorted_strict, NoDup_ListNoDup, NoDup_elements. }
  split.
  - intros Hnil s Hs.
    destruct (decide (s ∈ lowered rs)) as [Hrs|Hrs]; [exact Hrs|].
    exfalso. pose proof (proj2 (Hin s) (conj Hs Hrs)) as Hmem.
    rewrite Hnil in Hmem. exact Hmem.
  - intros Hsub. destruct (missing_skills r) as [|s l] eqn:Hl; [reflexivity|].
    exfalso. destruct (proj1 (Hin s) (or_introl eq_refl)) as [Hjs Hrs].
    exact (Hrs (Hsub s Hjs)).
Qed.

(** X7.  A perfect match in exact arithmetic: a vector that is not zero
    against itself, with one non-empty skill list on both sides, scores 100
    with confidence 1 and no missing skill.  In binary64 this needs squares
    that do not underflow: [2.0 ** -600] against itself has similarity 0.0,
    a score below 100.0 and confidence 0.5. *)
Theorem perfect_match :
  (forall (v : list R) (A : list str),
      Exists (fun x => x <> 0) v -> A <> [] ->
      exists r,
        compute_match_score v v A A = Ok r /\
        score r = 100 /\ confidence r = 1 /\ missing_skills r = []) /\
  (exists r,
      @compute_match_score _ b64_float lower_ascii [b64_tiny] [b64_tiny]
        [lit "python"] [lit "python"] = Ok r /\
      similarity r = PrimFloat.zero /\
      PrimFloat.ltb (score r) b64_hundred = true /\
      confidence r = b64_half).
Proof.
  split.
  - intros v A Hv HA.
    destruct (compute_match_score_value v v A A)
      as (r & Hr & Hsim & Hjac & Hscore & Hconf & Hmiss).
    exists r. split; [exact Hr|].
    assert (Hs1 : similarity r = 1).
    { rewrite Hsim. pose proof (norm_nonzero v Hv) as Hn.
      rewrite denominator_nonzero by nra. rewrite dot_self. apply Rinv_r. nra. }
    assert (Hj1 : jaccard r = 1).
    { rewrite Hjac.
      rewrite (idemp_L (∩) (lowered A)), (idemp_L (∪) (lowered A)).
      pose proof (lowered_nonempty A HA) as Hpos.
      rewrite Z.max_r by lia. apply Rinv_r. apply not_0_IZR. lia. }
    split; [|split].
    + rewrite Hscore, Hs1, Hj1, clamp_id; lra.
    + rewrite Hconf, Hs1, Rmin_left; lra.
    + rewrite Hmiss.
      rewrite difference_diag_L, elements_empty. reflexivity.
  - eexists. split; [vm_compute; reflexivity|].
    repeat split; vm_compute; reflexivity.
Qed.

End MatchFacts.

Lemma perfect_match_witness :
  exists r,
    @compute_match_score _ _ lower_ascii [3; 4]%R [3; 4]%R [lit "python"] [lit "python"] = Ok r /\
    score r = 100%R /\ confidence r = 1%R /\ missing_skills r = [].
Proof.
  apply (proj1 (@perfect_match lower_ascii) [3; 4]%R [lit "python"]).
  - apply Exists_cons_hd. lra.
  - discriminate.
Defined.

(** X5.  In binary64, whatever [x ** 0.5] returns, the score of a match
    result lies between 0.0 and 100.0 for every input: the clamp
    [max(0.0, min(1.0, score))] lies between 0.0 and 1.0 also for an
    infinite or NaN score, which it turns into 1.0, and the product by
    100.0 stays between 0.0 and 100.0 after rounding. *)
Theorem match_result_ranges (pow_half : PrimFloat.float -> PrimFloat.float) (L : Lower)
    (a b : list PrimFloat.float) (rs js : list str) :
  exists r,
    @compute_match_score _ (binary64 pow_half) L a b rs js = Ok r /\
    PrimFloat.leb b64_zero (score r) = true /\
    PrimFloat.leb (score r) b64_hundred = true.
Proof.
  destruct (@compute_match_score_fields _ (binary64 pow_half) (b64_one_not_zero pow_half)
              L a b rs js) as (r & Hr & _ & Hscore & _).
  exists r. split; [exact Hr|]. rewrite Hscore.
  change (@dec _ (binary64 pow_half) 0 1) with b64_zero.
  change (@dec _ (binary64 pow_half) 10 1) with b64_one.
  change (@dec _ (binary64 pow_half) 1000 1) with b64_hundred.
  cbn [fmul binary64].
  apply b64_score_range; apply b64_clamp_range.
Qed.

(** X8.  A zero vector on the resume side, the empty vector included,
    against a job vector with finite components and a finite computed
    norm: in binary64 the similarity is 0.0 and the confidence is 0.5.
    Of [x ** 0.5] this uses only that it is zero at 0.0. *)
Theorem zero_vector_score (pow_half : PrimFloat.float -> PrimFloat.float) (L : Lower)
    (a b : list PrimFloat.float) (rs js : list str) :
  PrimFloat.eqb (pow_half PrimFloat.zero) PrimFloat.zero = true ->
  zero_vector a -> finite_vector b ->
  PrimFloat.is_finite (@norm _ (binary64 pow_half) b) = true ->
  exists r,
    @compute_match_score _ (binary64 pow_half) L a b rs js = Ok r /\
    similarity r = PrimFloat.zero /\ confidence r = b64_half.
Proof.
  intros Hp Ha Hb Hn.
  destruct (@compute_match_score_fields _ (binary64 pow_half) (b64_one_not_zero pow_half)
              L a b rs js) as (r & Hr & Hsim & _ & Hconf).
  exists r. split; [exact Hr|].
  rewrite (cosine_zero_vector_l pow_half a b Hp Ha Hb Hn) in Hsim.
  split; [exact Hsim|]. rewrite Hconf, Hsim. vm_compute. reflexivity.
Qed.

Lemma zero_vector_score_witness :
  exists r,
    @compute_match_score _ (binary64 PrimFloat.sqrt) lower_ascii
      [] [of_int 1] [lit "sql"] [lit "SQL"; lit "aws"] = Ok r /\
    similarity r = PrimFloat.zero /\ confidence r = b64_half.
Proof.
  apply (zero_vector_score PrimFloat.sqrt lower_ascii [] [of_int 1]
           [lit "sql"] [lit "SQL"; lit "aws"]); vm_compute; reflexivity.
Defined.

Section TopKFacts.
Local Open Scope R_scope.

(** X9.  A negative [k] is read as a slice: the ranker then returns the
    whole ranking without its last [-k] snippets, and nothing when there
    are no more than [-k] candidates. *)
Theorem top_k_matches_negative (q : list R) (texts : list str) (vecs : list (list R)) (k : Z) :
  (k < 0)%Z ->
  exists out dropped,
    top_k_matches q texts vecs k = Ok out /\
    top_k_matches q texts vecs (Z.of_nat (length texts)) = Ok (out ++ dropped) /\
    length dropped = Nat.min (Z.to_nat (- k)) (Nat.min (length texts) (length vecs)).
Proof.
  intros Hk.
  set (ranked := py_sorted (fun x y => fltb (snd y) (snd x)) (scored q texts vecs)).
  assert (Hlen : length ranked = Nat.min (length texts) (length vecs)).
  { unfold ranked. rewrite py_sorted_length. apply scored_length. }
  exists (firstn (length ranked - Z.to_nat (- k)) ranked),
         (skipn (length ranked - Z.to_nat (- k)) ranked).
  split; [|split].
  - rewrite top_k_matches_value. unfold slice_to. fold ranked.
    replace (0 <=? k)%Z with false by (symmetry; apply Z.leb_gt; exact Hk).
    reflexivity.
  - rewrite top_k_matches_value. unfold slice_to. fold ranked.
    replace (0 <=? Z.of_nat (length texts))%Z with true by (symmetry; apply Z.leb_le; lia).
    rewrite Nat2Z.id, firstn_skipn.
    rewrite firstn_all2 by lia. reflexivity.
  - rewrite length_skipn, Hlen. lia.
Qed.

Lemma top_k_matches_negative_witness :
  exists out dropped,
    top_k_matches [1; 0] [lit "a"; lit "b"; lit "c"] [[0; 1]; [1; 0]; [2; 0]] (-1) = Ok out /\
    top_k_matches [1; 0] [lit "a"; lit "b"; lit "c"] [[0; 1]; [1; 0]; [2; 0]]
      (Z.of_nat (length [lit "a"; lit "b"; lit "c"])) = Ok (out ++ dropped) /\
    length dropped
    = Nat.min (Z.to_nat (- -1))
        (Nat.min (length [lit "a"; lit "b"; lit "c"]) (length [[0; 1]; [1; 0]; [2; 0]])).
Proof.
  apply (top_k_matches_negative [1; 0] [lit "a"; lit "b"; lit "c"] [[0; 1]; [1; 0]; [2; 0]] (-1)).
  lia.
Defined.

End TopKFacts.

Lemma b64_leb_refl (x : PrimFloat.float) :
  PrimFloat.is_nan x = false -> PrimFloat.leb x x = true.
Proof.
  intros Hx. rewrite b64_leb_ltb by assumption.
  destruct (PrimFloat.ltb x x) eqn:Hlt; [|reflexivity].
  pose proof (b64_ltb_asym _ _ Hlt). congruence.
Qed.

(** X10.  The best match comes first: in binary64, for a positive [k] and
    similarities without NaN, the first snippet returned is at least as
    similar to the query as every candidate. *)
Theorem top_k_matches_best_first (pow_half : PrimFloat.float -> PrimFloat.float)
    (q : list PrimFloat.float) (texts : list str) (vecs : list (list PrimFloat.float))
    (k : Z) (p : str * PrimFloat.float) :
  (0 < k)%Z ->
  no_nan (@scored_of _ (binary64 pow_half) q texts vecs) ->
  In p (@scored_of _ (binary64 pow_half) q texts vecs) ->
  exists best rest,
    @top_k_matches _ (binary64 pow_half) q texts vecs k = Ok (best :: rest) /\
    In best (@scored_of _ (binary64 pow_half) q texts vecs) /\
    PrimFloat.leb (snd p) (snd best) = true.
Proof.
  intros Hk Hnan Hp.
  set (sc := @scored_of _ (binary64 pow_half) q texts vecs) in *.
  set (ranked := py_sorted (fun x y : str * PrimFloat.float =>
                              PrimFloat.ltb (snd y) (snd x)) sc).
  assert (Hpr : In p ranked) by (apply py_sorted_In; exact Hp).
  pose proof (ranked_sorted64 sc Hnan) as Hsorted. fold ranked in Hsorted.
  assert (Hval : @top_k_matches _ (binary64 pow_half) q texts vecs k
                 = Ok (firstn (Z.to_nat k) ranked)).
  { rewrite (@top_k_matches_of _ (binary64 pow_half) (b64_one_not_zero pow_half)).
    unfold slice_to.
    replace (0 <=? k)%Z with true by (symmetry; apply Z.leb_le; lia). reflexivity. }
  assert (Hbest : forall x, In x ranked -> In x sc).
  { intros x Hx. unfold ranked in Hx. apply py_sorted_In in Hx. exact Hx. }
  destruct ranked as [|best l]; [contradiction|].
  exists best, (firstn (Z.to_nat k - 1) l). split; [|split].
  - rewrite Hval. destruct (Z.to_nat k) as [|n] eqn:Hn; [lia|].
    simpl. rewrite Nat.sub_0_r. reflexivity.
  - apply Hbest. left. reflexivity.
  - destruct Hpr as [<-|Hpl].
    + apply b64_leb_refl. apply no_nan_all in Hnan.
      rewrite List.Forall_forall in Hnan. apply Hnan, Hbest. left. reflexivity.
    + inversion Hsorted as [|? ? _ Hall]; subst.
      rewrite List.Forall_forall in Hall. exact (Hall p Hpl).
Qed.

Lemma top_k_matches_best_first_witness :
  exists best rest,
    @top_k_matches _ (binary64 PrimFloat.sqrt) [of_int 1; of_int 0]
      [lit "a"; lit "b"] [[of_int 0; of_int 1]; [of_int 1; of_int 0]] 1 = Ok (best :: rest) /\
    In best (@scored_of _ (binary64 PrimFloat.sqrt) [of_int 1; of_int 0]
               [lit "a"; lit "b"] [[of_int 0; of_int 1]; [of_int 1; of_int 0]]) /\
    PrimFloat.leb (snd (lit "a", PrimFloat.zero)) (snd best) = true.
Proof.
  apply (top_k_matches_best_first PrimFloat.sqrt [of_int 1; of_int 0]
           [lit "a"; lit "b"] [[of_int 0; of_int 1]; [of_int 1; of_int 0]] 1
           (lit "a", PrimFloat.zero)).
  - lia.
  - vm_compute. reflexivity.
  - left. vm_compute. reflexivity.
Defined.


(** * Regular expressions *)

Section Regex.
Variable cls : N -> bool.
Variable k : matcher.

Lemma re_char_sound (s r : str) :
  re_char cls k s = Some r -> exists c s', s = c :: s' /\ cls c = true /\ k s' = Some r.
Proof.
  destruct s as [|c s']; simpl; [discriminate|].
  destruct (cls c) eqn:Hc; [|discriminate]. eauto.
Qed.

Lemma re_opt_sound (s r : str) :
  re_opt cls k s = Some r ->
  exists o rest, s = o ++ rest /\ (o = [] \/ exists c, o = [c] /\ cls c = true) /\
                 k rest = Some r.
Proof.
  destruct s as [|c s']; simpl.
  - intros Hk. exists [], []. auto.
  - destruct (cls c) eqn:Hc.
    + destruct (k s') as [r'|] eqn:Hk'.
      * intros [= <-]. exists [c], s'. split; [reflexivity|]. split; [|exact Hk'].
        right. exists c. auto.
      * intros Hk. exists [], (c :: s'). auto.
    + intros Hk. exists [], (c :: s'). auto.
Qed.

Lemma re_rep_sound (min : nat) (s r : str) :
  re_rep cls min k s = Some r ->
  exists run rest, s = run ++ rest /\ forallb cls run = true /\
                   min <= length run /\ k rest = Some r.
Proof.
  revert min; induction s as [|c s' IH]; intros min; simpl.
  - destruct (Nat.eqb_spec min 0) as [->|]; [|discriminate].
    intros Hk. exists [], []. auto.
  - assert (Hstop : (if min =? 0 then k (c :: s') else None) = Some r ->
                    exists run rest, c :: s' = run ++ rest /\ forallb cls run = true /\
                                     min <= length run /\ k rest = Some r).
    { destruct (Nat.eqb_spec min 0) as [->|]; [|discriminate].
      intros Hk. exists [], (c :: s'). auto. }
    destruct (cls c) eqn:Hc; [|exact Hstop].
    destruct (re_rep cls (Nat.pred min) k s') as [r'|] eqn:Hrep; [|exact Hstop].
    intros [= <-]. destruct (IH _ Hrep) as (run & rest & -> & Hrun & Hmin & Hk).
    exists (c :: run), rest. simpl. rewrite Hc, Hrun. repeat split; [lia|exact Hk].
Qed.

Lemma re_char_complete (c : N) (s : str) :
  cls c = true -> k s <> None -> re_char cls k (c :: s) <> None.
Proof. intros Hc Hk. simpl. rewrite Hc. exact Hk. Qed.

Lemma re_rep_complete (run rest : str) (min : nat) :
  forallb cls run = true -> min <= length run -> k rest <> None ->
  re_rep cls min k (run ++ rest) <> None.
Proof.
  revert min; induction run as [|c run IH]; intros min Hrun Hmin Hk; simpl in *.
  - replace min with 0 by lia.
    destruct rest as [|c s']; simpl; [exact Hk|].
    destruct (cls c); [|exact Hk].
    destruct (re_rep cls 0 k s'); [discriminate|exact Hk].
  - apply andb_true_iff in Hrun as [Hc Hrun]. rewrite Hc.
    destruct (re_rep cls (Nat.pred min) k (run ++ rest)) eqn:Hrep; [discriminate|].
    exfalso. apply (IH (Nat.pred min)); [exact Hrun|lia|exact Hk|exact Hrep].
Qed.

End Regex.

Lemma firstn_app_exact {A : Type} (w r : list A) :
  firstn (length (w ++ r) - length r) (w ++ r) = w.
Proof.
  rewrite length_app, Nat.add_sub.
  rewrite firstn_app, Nat.sub_diag, firstn_all. simpl. apply app_nil_r.
Qed.

Lemma re_search_sound (m : matcher) (s e : str) :
  re_search m s = Some e ->
  exists pre rest r,
    s = pre ++ rest /\ m rest = Some r /\ e = firstn (length rest - length r) rest.
Proof.
  induction s as [|c s IH]; simpl.
  - destruct (m []) as [r|] eqn:Hm; [|discriminate].
    intros [= <-]. exists [], [], r. auto.
  - destruct (m (c :: s)) as [r|] eqn:Hm.
    + intros [= <-]. exists [], (c :: s), r. auto.
    + intros Hs. destruct (IH Hs) as (pre & rest & r & -> & Hr & He).
      exists (c :: pre), rest, r. auto.
Qed.

Lemma re_search_complete (m : matcher) (pre rest : str) :
  m rest <> None -> re_search m (pre ++ rest) <> None.
Proof.
  intros Hm. induction pre as [|c pre IH].
  - simpl. destruct rest as [|c s]; simpl.
    + destruct (m []); [discriminate|exact Hm].
    + destruct (m (c :: s)); [discriminate|contradiction].
  - simpl. destruct (m (c :: pre ++ rest)); [discriminate|exact IH].
Qed.

(** * [extract_email] and [extract_phone] *)

(** X11.  What [extract_email] returns is a piece of the text of the
    shape local@domain.tld: a non-empty local part of letters, digits and
    . _ % + -, an at sign, a non-empty domain of letters, digits, dots and
    hyphens, a dot, and at least two letters. *)
Theorem extract_email_shape (text e : str) :
  extract_email text = Some e ->
  exists pre post local domain tld,
    text = pre ++ e ++ post /\
    e = local ++ [chr "@"] ++ domain ++ [chr "."] ++ tld /\
    local <> [] /\ forallb email_local_char local = true /\
    domain <> [] /\ forallb email_domain_char domain = true /\
    2 <= length tld /\ forallb letter tld = true.
Proof.
  unfold extract_email. intros Hs.
  destruct (re_search_sound _ _ _ Hs) as (pre & rest & r & -> & Hm & ->).
  unfold email_pattern in Hm.
  apply re_rep_sound in Hm as (local & r1 & -> & Hlocal & Hl1 & Hm).
  apply re_char_sound in Hm as (c1 & r2 & -> & Hc1 & Hm).
  apply re_rep_sound in Hm as (domain & r3 & -> & Hdomain & Hl2 & Hm).
  apply re_char_sound in Hm as (c2 & r4 & -> & Hc2 & Hm).
  apply re_rep_sound in Hm as (tld & r5 & -> & Htld & Hl3 & Hm).
  injection Hm as ->.
  apply N.eqb_eq in Hc1, Hc2. subst c1 c2.
  exists pre, r, local, domain, tld.
  assert (Hw : local ++ chr "@" :: domain ++ chr "." :: tld ++ r
               = (local ++ [chr "@"] ++ domain ++ [chr "."] ++ tld) ++ r).
  { repeat (progress (rewrite <- ?app_assoc; simpl)). reflexivity. }
  rewrite Hw, firstn_app_exact.
  repeat split; try assumption.
  - intros ->. simpl in Hl1. lia.
  - intros ->. simpl in Hl2. lia.
Qed.

Lemma extract_email_shape_witness :
  exists pre post local domain tld,
    lit "mail ada@math.example.org now" = pre ++ lit "ada@math.example.org" ++ post /\
    lit "ada@math.example.org" = local ++ [chr "@"] ++ domain ++ [chr "."] ++ tld /\
    local <> [] /\ forallb email_local_char local = true /\
    domain <> [] /\ forallb email_domain_char domain = true /\
    2 <= length tld /\ forallb letter tld = true.
Proof.
  apply (extract_email_shape (lit "mail ada@math.example.org now")
           (lit "ada@math.example.org")).
  vm_compute. reflexivity.
Defined.

(** X12.  [extract_email] finds an address whenever the text holds one:
    it returns None only for a text without any piece of the shape
    local@domain.tld. *)
Theorem extract_email_complete (pre post local domain tld : str) :
  local <> [] -> forallb email_local_char local = true ->
  domain <> [] -> forallb email_domain_char domain = true ->
  2 <= length tld -> forallb letter tld = true ->
  exists e,
    extract_email (pre ++ (local ++ [chr "@"] ++ domain ++ [chr "."] ++ tld) ++ post) = Some e.
Proof.
  intros Hl Hlocal Hd Hdomain Ht Htld.
  assert (Hsome : extract_email
                    (pre ++ (local ++ [chr "@"] ++ domain ++ [chr "."] ++ tld) ++ post)
                  <> None).
  { unfold extract_email. apply re_search_complete. unfold email_pattern.
    rewrite <- !app_assoc. apply re_rep_complete; [exact Hlocal| |].
    { destruct local; [contradiction|simpl; lia]. }
    simpl app. apply re_char_complete; [apply N.eqb_refl|].
    apply re_rep_complete; [exact Hdomain| |].
    { destruct domain; [contradiction|simpl; lia]. }
    simpl app. apply re_char_complete; [apply N.eqb_refl|].
    apply re_rep_complete; [exact Htld|exact Ht|]. discriminate. }
  destruct (extract_email _) as [e|]; [eauto|contradiction].
Qed.

Lemma extract_email_complete_witness :
  exists e,
    extract_email (lit "<" ++ (lit "a.b" ++ [chr "@"] ++ lit "c-d.e" ++ [chr "."] ++ lit "org")
                   ++ lit ">") = Some e.
Proof.
  apply (extract_email_complete (lit "<") (lit ">") (lit "a.b") (lit "c-d.e") (lit "org"));
    try discriminate; try reflexivity.
  simpl. lia.
Defined.

Section Phone.
Context {D : Digits}.

(** X13.  What [extract_phone] returns is a piece of the text of at least
    nine code points: an optional plus sign, a digit, at least seven
    digits, hyphens or whitespace, and a digit at the end. *)
Theorem extract_phone_shape (text p : str) :
  extract_phone text = Some p ->
  exists pre post plus d1 inner d2,
    text = pre ++ p ++ post /\
    p = plus ++ [d1] ++ inner ++ [d2] /\
    (plus = [] \/ plus = [chr "+"]) /\
    is_decimal d1 = true /\ is_decimal d2 = true /\
    7 <= length inner /\ forallb phone_inner_char inner = true /\
    9 <= length p.
Proof.
  unfold extract_phone. intros Hs.
  destruct (re_search_sound _ _ _ Hs) as (pre & rest & r & -> & Hm & ->).
  unfold phone_pattern in Hm.
  apply re_opt_sound in Hm as (plus & r1 & -> & Hplus & Hm).
  apply re_char_sound in Hm as (d1 & r2 & -> & Hd1 & Hm).
  apply re_rep_sound in Hm as (inner & r3 & -> & Hinner & Hl & Hm).
  apply re_char_sound in Hm as (d2 & r4 & -> & Hd2 & Hm).
  injection Hm as ->.
  exists pre, r, plus, d1, inner, d2.
  assert (Hw : plus ++ d1 :: inner ++ d2 :: r = (plus ++ [d1] ++ inner ++ [d2]) ++ r).
  { repeat (progress (rewrite <- ?app_assoc; simpl)). reflexivity. }
  rewrite Hw, firstn_app_exact.
  repeat split; try assumption.
  - destruct Hplus as [->|(c & -> & Hc)]; [left; reflexivity|].
    apply N.eqb_eq in Hc. subst c. right. reflexivity.
  - rewrite !length_app. simpl. lia.
Qed.

End Phone.

Lemma extract_phone_shape_witness :
  exists pre post plus d1 inner d2,
    lit "tel +1 555-123-4567." = pre ++ lit "+1 555-123-4567" ++ post /\
    lit "+1 555-123-4567" = plus ++ [d1] ++ inner ++ [d2] /\
    (plus = [] \/ plus = [chr "+"]) /\
    digits_ascii d1 = true /\ digits_ascii d2 = true /\
    7 <= length inner /\ forallb (@phone_inner_char digits_ascii) inner = true /\
    9 <= length (lit "+1 555-123-4567").
Proof.
  apply (@extract_phone_shape digits_ascii (lit "tel +1 555-123-4567.")
           (lit "+1 555-123-4567")).
  vm_compute. reflexivity.
Defined.

(** * Further properties of the extractors *)

Lemma take_while_all {A : Type} (p : A -> bool) (l : list A) :
  forallb p l = true -> take_while p l = l.
Proof.
  induction l as [|x l IH]; simpl; [reflexivity|].
  intros Hl. apply andb_true_iff in Hl as [Hx Hl]. rewrite Hx, IH by exact Hl. reflexivity.
Qed.

Lemma take_while_forallb {A : Type} (p : A -> bool) (l : list A) :
  forallb p (take_while p l) = true.
Proof.
  induction l as [|x l IH]; simpl; [reflexivity|].
  destruct (p x) eqn:Hx; simpl; [rewrite Hx, IH|]; reflexivity.
Qed.

Lemma take_while_prefix {A : Type} (p : A -> bool) (l : list A) :
  exists rest, l = take_while p l ++ rest.
Proof.
  induction l as [|x l [rest IH]]; simpl; [exists []; reflexivity|].
  destruct (p x); [exists rest; simpl; rewrite <- IH; reflexivity|].
  exists (x :: l). reflexivity.
Qed.

Lemma take_while_app_stop {A : Type} (p : A -> bool) (l rest : list A) (c : A) :
  p c = false -> take_while p (l ++ c :: rest) = take_while p l.
Proof.
  intros Hc. induction l as [|x l IH]; simpl; [rewrite Hc; reflexivity|].
  destruct (p x); [rewrite IH|]; reflexivity.
Qed.

Lemma drop_while_head {A : Type} (p : A -> bool) (l : list A) :
  match l with [] => True | x :: _ => p x = false end -> drop_while p l = l.
Proof. destruct l as [|x l]; simpl; [reflexivity|]. intros ->. reflexivity. Qed.

Lemma strip_fixed (s : str) :
  match s with [] => True | c :: _ => is_space c = false end ->
  match rev s with [] => True | c :: _ => is_space c = false end ->
  strip s = s.
Proof.
  intros Hhd Hlast. unfold strip, rstrip, lstrip.
  rewrite (drop_while_head _ s Hhd), (drop_while_head _ (rev s) Hlast).
  apply rev_involutive.
Qed.

Lemma strip_idempotent (s : str) : strip (strip s) = strip s.
Proof.
  destruct (strip_decompose s) as (pre & post & _ & _ & _ & Hhd & Hlast).
  apply strip_fixed; assumption.
Qed.

Lemma forallb_app_parts {A : Type} (p : A -> bool) (a b c : list A) :
  forallb p (a ++ b ++ c) = true -> forallb p b = true.
Proof.
  rewrite !forallb_app, !andb_true_iff. tauto.
Qed.

Lemma extract_name_inv (text n : str) :
  extract_name text = Some n ->
  n = strip (take_while (fun c => negb (is_linebreak c)) text) /\
  2 <= length (split n) <= 5 /\ length n <= 64.
Proof.
  unfold extract_name. rewrite splitlines_first.
  set (line := take_while (fun c => negb (is_linebreak c)) text).
  destruct (Nat.leb_spec 2 (length (split (strip line)))) as [H2|]; [|discriminate].
  destruct (Nat.leb_spec (length (split (strip line))) 5) as [H5|]; [|discriminate].
  destruct (Nat.leb_spec (length (strip line)) 64) as [H64|]; [|discriminate].
  simpl. intros [= <-]. repeat split; assumption.
Qed.

(** X14.  A name that [extract_name] returns stands at the start of the
    text, behind whitespace only; it has no line break in it and no
    whitespace at its two ends, 2 to 5 words and at most 64 code points. *)
Theorem extract_name_facts (text n : str) :
  extract_name text = Some n ->
  (exists pre post, text = pre ++ n ++ post /\ forallb is_space pre = true) /\
  forallb (fun c => negb (is_linebreak c)) n = true /\
  match n with [] => False | c :: _ => is_space c = false end /\
  match rev n with [] => False | c :: _ => is_space c = false end /\
  2 <= length (split n) <= 5 /\
  length n <= 64.
Proof.
  unfold extract_name. rewrite splitlines_first.
  set (line := take_while (fun c => negb (is_linebreak c)) text).
  destruct (Nat.leb_spec 2 (length (split (strip line)))) as [H2|]; [|discriminate].
  destruct (Nat.leb_spec (length (split (strip line))) 5) as [H5|]; [|discriminate].
  destruct (Nat.leb_spec (length (strip line)) 64) as [H64|]; [|discriminate].
  simpl. intros [= <-].
  destruct (strip_decompose line) as (pre & post & Hline & Hpre & _ & Hhd & Hlast).
  destruct (take_while_prefix (fun c => negb (is_linebreak c)) text) as [rest Htext].
  fold line in Htext.
  assert (Hne : strip line <> []).
  { intros Hnil. rewrite Hnil in H2. simpl in H2. lia. }
  split; [|split; [|split; [|split; [|split]]]].
  - exists pre, (post ++ rest). split; [|exact Hpre].
    rewrite Htext at 1. rewrite Hline at 1. rewrite <- !app_assoc. reflexivity.
  - apply (forallb_app_parts _ pre (strip line) post). rewrite <- Hline.
    apply take_while_forallb.
  - destruct (strip line); [contradiction|exact Hhd].
  - destruct (rev (strip line)) eqn:Hrev; [|exact Hlast].
    apply (f_equal (@rev N)) in Hrev. rewrite rev_involutive in Hrev. contradiction.
  - lia.
  - exact H64.
Qed.

Lemma extract_name_facts_witness :
  (exists pre post,
      lit "  Ada Lovelace " ++ [10%N] ++ lit "London" = pre ++ lit "Ada Lovelace" ++ post /\
      forallb is_space pre = true) /\
  forallb (fun c => negb (is_linebreak c)) (lit "Ada Lovelace") = true /\
  match lit "Ada Lovelace" with [] => False | c :: _ => is_space c = false end /\
  match rev (lit "Ada Lovelace") with [] => False | c :: _ => is_space c = false end /\
  2 <= length (split (lit "Ada Lovelace")) <= 5 /\
  length (lit "Ada Lovelace") <= 64.
Proof.
  apply (extract_name_facts (lit "  Ada Lovelace " ++ [10%N] ++ lit "London")
           (lit "Ada Lovelace")).
  vm_compute. reflexivity.
Defined.

(** X15.  A name that [extract_name] returns is a name for
    [extract_name] itself: the extractor maps it to itself. *)
Theorem extract_name_idempotent (text n : str) :
  extract_name text = Some n -> extract_name n = Some n.
Proof.
  intros Hn. destruct (extract_name_inv text n Hn) as (Hline & [H2 H5] & H64).
  set (line := take_while (fun c => negb (is_linebreak c)) text) in Hline.
  destruct (strip_decompose line) as (pre & post & Hdec & _ & _ & _ & _).
  assert (Hnb : forallb (fun c => negb (is_linebreak c)) n = true).
  { rewrite Hline. apply (forallb_app_parts _ pre (strip line) post). rewrite <- Hdec.
    apply take_while_forallb. }
  assert (Hstrip : strip n = n) by (rewrite Hline; apply strip_idempotent).
  unfold extract_name. rewrite splitlines_first, (take_while_all _ _ Hnb), Hstrip.
  destruct (Nat.leb_spec 2 (length (split n))); [|lia].
  destruct (Nat.leb_spec (length (split n)) 5); [|lia].
  destruct (Nat.leb_spec (length n) 64); [|lia].
  reflexivity.
Qed.

Lemma extract_name_idempotent_witness :
  extract_name (lit "Ada Lovelace") = Some (lit "Ada Lovelace").
Proof.
  apply (extract_name_idempotent (lit "  Ada Lovelace " ++ [10%N] ++ lit "London")).
  vm_compute. reflexivity.
Defined.

(** * Tokens and pages *)

Lemma runs_from_app_sep (cls : N -> bool) (cur s t : str) (c : N) :
  cls c = false ->
  runs_from cls cur (s ++ c :: t) = runs_from cls cur s ++ runs_from cls [] t.
Proof.
  intros Hc. revert cur; induction s as [|x s IH]; intros cur; simpl.
  - rewrite Hc. destruct cur; reflexivity.
  - destruct (cls x); [apply IH|].
    destruct cur; rewrite IH; reflexivity.
Qed.

Lemma findall_class_app_sep (cls : N -> bool) (s t : str) (c : N) :
  cls c = false ->
  findall_class cls (s ++ c :: t) = findall_class cls s ++ findall_class cls t.
Proof. apply runs_from_app_sep. Qed.

Section Pages.
Context {L : Lower} {D : Digits} {P : PdfPlumber}.

(** X16.  Two texts joined by a code point outside the tokenizer's class,
    a line feed for one, have the skills of the one and of the other, no
    more and no less, wherever [str.lower] lowers the parts on their
    own. *)
Theorem extract_skills_join (a b : str) (c : N) :
  skill_char c = false ->
  str_lower (a ++ c :: b) = str_lower a ++ c :: str_lower b ->
  forall s, In s (extract_skills (a ++ c :: b))
            <-> In s (extract_skills a) \/ In s (extract_skills b).
Proof.
  intros Hc Hlower s.
  pose proof (extract_skills_In (a ++ c :: b) s) as Hab.
  pose proof (extract_skills_In a s) as Ha.
  pose proof (extract_skills_In b s) as Hb.
  rewrite Hlower, (findall_class_app_sep skill_char _ _ c Hc), in_app_iff in Hab.
  split.
  - intros Hs. destruct (proj1 Hab Hs) as [Hv [Hin|Hin]].
    + left. apply (proj2 Ha). split; assumption.
    + right. apply (proj2 Hb). split; assumption.
  - intros [Hs|Hs]; apply (proj2 Hab).
    + destruct (proj1 Ha Hs) as [Hv Hin]. split; [exact Hv|left; exact Hin].
    + destruct (proj1 Hb Hs) as [Hv Hin]. split; [exact Hv|right; exact Hin].
Qed.

Lemma join_cons (sep p : str) (parts : list str) :
  parts <> [] -> join sep (p :: parts) = p ++ sep ++ join sep parts.
Proof. destruct parts; [congruence|reflexivity]. Qed.

Lemma extract_name_first_line_only (p rest : str) (c : N) :
  is_linebreak c = true -> extract_name (p ++ c :: rest) = extract_name p.
Proof.
  intros Hc. unfold extract_name. rewrite !splitlines_first.
  rewrite take_while_app_stop by (rewrite Hc; reflexivity). reflexivity.
Qed.

(** X17.  The name of a parsed resume comes from its first page alone:
    it is what [extract_name] finds in the text of that page, whatever the
    pages behind it hold. *)
Theorem parse_resume_pdf_name (pdf_bytes : list N) (first : option str)
    (pages : list (result (option str))) (r : ResumeData) :
  pdf_pages pdf_bytes = Ok (Ok first :: pages) ->
  parse_resume_pdf pdf_bytes = Ok r ->
  parsing.name r = extract_name (page_text first) /\
  email r = extract_email (raw_text r) /\
  phone r = extract_phone (raw_text r) /\
  skills r = extract_skills (raw_text r).
Proof.
  intros Hpages Hr. unfold parse_resume_pdf in Hr.
  apply bind_ok in Hr as (raw & Hraw & Hr).
  injection Hr as <-. cbn [parsing.name email phone skills raw_text].
  split; [|auto].
  unfold extract_text_from_pdf in Hraw. rewrite Hpages in Hraw.
  cbn [bind for_each] in Hraw.
  destruct (for_each _ pages) as [rest|e]; cbn [bind] in Hraw; [|discriminate].
  injection Hraw as <-.
  destruct rest as [|t rest']; [reflexivity|].
  apply (extract_name_first_line_only (page_text first) (join [10%N] (t :: rest')) 10%N).
  reflexivity.
Qed.

End Pages.

Lemma extract_skills_join_witness :
  In (lit "docker") (@extract_skills lower_ascii (lit "Python, SQL" ++ 10%N :: lit "docker"))
  <-> In (lit "docker") (@extract_skills lower_ascii (lit "Python, SQL"))
      \/ In (lit "docker") (@extract_skills lower_ascii (lit "docker")).
Proof.
  apply (@extract_skills_join lower_ascii (lit "Python, SQL") (lit "docker") 10%N).
  - reflexivity.
  - vm_compute. reflexivity.
Defined.

Lemma parse_resume_pdf_name_witness :
  exists r,
    @parse_resume_pdf lower_ascii digits_ascii text_document
      (lit "Ada Lovelace" ++ [10; 12]%N ++ lit "Grace Hopper") = Ok r /\
    parsing.name r = Some (lit "Ada Lovelace").
Proof.
  assert (Hrun : exists r,
             @parse_resume_pdf lower_ascii digits_ascii text_document
               (lit "Ada Lovelace" ++ [10; 12]%N ++ lit "Grace Hopper") = Ok r).
  { eexists. vm_compute. reflexivity. }
  destruct Hrun as [r Hr]. exists r. split; [exact Hr|].
  destruct (@parse_resume_pdf_name lower_ascii digits_ascii text_document
              (lit "Ada Lovelace" ++ [10; 12]%N ++ lit "Grace Hopper")
              (Some (lit "Ada Lovelace" ++ [10%N])) [Ok (Some (lit "Grace Hopper"))] r)
    as (Hname & _).
  - vm_compute. reflexivity.
  - exact Hr.
  - rewrite Hname. vm_compute. reflexivity.
Defined.

(** * Further properties of the workflow *)

Lemma zip_lookup {A B : Type} (a : list A) (b : list B) (i : nat) (u : A) (v : B) :
  zip a b !! i = Some (u, v) <-> a !! i = Some u /\ b !! i = Some v.
Proof.
  revert b i; induction a as [|x a IH]; intros [|y b] i; simpl.
  - split; [discriminate|intros [H _]; discriminate].
  - split; [discriminate|intros [H _]; discriminate].
  - split; [discriminate|]. intros [_ H]. destruct i; discriminate.
  - destruct i as [|i]; simpl.
    + split; [intros [= -> ->]; auto|intros [[= ->] [= ->]]; reflexivity].
    + apply IH.
Qed.

Lemma tl_lookup {A : Type} (l : list A) (i : nat) : tl l !! i = l !! S i.
Proof. destruct l; reflexivity. Qed.

Section TraceFacts.
Context {object bytes service : Type}.
Variable resume_parser_agent : bytes -> result (AgentResult object).
Variable job_parser_agent : str -> result (AgentResult object).
Variable content_enhancer_agent : object -> result (AgentResult object).
Variable matcher_and_scoring_agent :
  object -> str -> object -> object -> service -> result (AgentResult object).

(** X18.  For any list of steps, none and one included, building the trace
    raises nothing and keeps the steps; the trace has one edge less than
    it has steps (none for no step), and its edge number [i] leads from the
    name of step [i] to the name of step [i + 1]. *)
Theorem build_workflow_trace_edges (l : list (AgentResult object)) :
  exists tr,
    build_workflow_trace l = Ok tr /\
    steps tr = l /\
    length (edges tr) = length l - 1 /\
    forall i u v,
      edges tr !! i = Some (u, v) <->
      List.map name l !! i = Some u /\ List.map name l !! S i = Some v.
Proof.
  eexists. split; [apply build_workflow_trace_value|]. simpl.
  split; [reflexivity|]. split.
  - rewrite zip_length. destruct l as [|a l]; [reflexivity|].
    cbn [List.map tl length]. rewrite length_map. lia.
  - intros i u v. rewrite zip_lookup, tl_lookup. reflexivity.
Qed.

(** X19.  A run succeeds exactly when the four agents succeed in turn and
    the outputs they hand on hold the keys the run reads: [raw_text] and
    [skills] in the resume parser's outputs, [skills] in the job
    parser's.  The trace is then the one of these four results. *)
Theorem run_analysis_succeeds_iff (embed : service) (resume_bytes : bytes)
    (job_desc : str) (tr : WorkflowTrace object) :
  run_analysis resume_parser_agent job_parser_agent content_enhancer_agent
               matcher_and_scoring_agent embed resume_bytes job_desc = Ok tr
  <->
  exists a1 a2 a3 a4 raw_text resume_skills job_skills,
    resume_parser_agent resume_bytes = Ok a1 /\
    job_parser_agent job_desc = Ok a2 /\
    outputs a1 !! lit "raw_text" = Some raw_text /\
    content_enhancer_agent raw_text = Ok a3 /\
    outputs a1 !! lit "skills" = Some resume_skills /\
    outputs a2 !! lit "skills" = Some job_skills /\
    matcher_and_scoring_agent raw_text job_desc resume_skills job_skills embed = Ok a4 /\
    tr = {| steps := [a1; a2; a3; a4];
            edges := [(name a1, name a2); (name a2, name a3); (name a3, name a4)] |}.
Proof.
  assert (Hget : forall (d : gmap str object) key v,
             getitem object d key = Ok v <-> d !! key = Some v).
  { intros d key v. unfold getitem. destruct (d !! key); split; congruence. }
  unfold run_analysis. split.
  - intros Hrun.
    apply bind_ok in Hrun as (a1 & H1 & Hrun).
    apply bind_ok in Hrun as (a2 & H2 & Hrun).
    apply bind_ok in Hrun as (raw & Hraw & Hrun).
    apply bind_ok in Hrun as (a3 & H3 & Hrun).
    apply bind_ok in Hrun as (raw' & Hraw' & Hrun).
    apply bind_ok in Hrun as (rs & Hrs & Hrun).
    apply bind_ok in Hrun as (js & Hjs & Hrun).
    apply bind_ok in Hrun as (a4 & H4 & Hrun).
    assert (raw' = raw) by congruence. subst raw'.
    rewrite build_workflow_trace_value in Hrun. injection Hrun as <-.
    apply Hget in Hraw, Hrs, Hjs.
    exists a1, a2, a3, a4, raw, rs, js. repeat split; assumption.
  - intros (a1 & a2 & a3 & a4 & raw & rs & js & H1 & H2 & Hraw & H3 & Hrs & Hjs & H4 & ->).
    apply Hget in Hraw, Hrs, Hjs.
    rewrite H1. cbn [bind]. rewrite H2. cbn [bind]. rewrite Hraw. cbn [bind].
    rewrite H3. cbn [bind]. rewrite Hrs. cbn [bind]. rewrite Hjs. cbn [bind].
    rewrite H4. cbn [bind]. rewrite build_workflow_trace_value. reflexivity.
Qed.

(** X20.  A run fails with the first failure in the order of its steps:
    with the resume parser's exception, else with the job parser's, else,
    when the resume parser's outputs hold no [raw_text], with a KeyError,
    before the content enhancer is called. *)
Theorem run_analysis_first_failure (embed : service) (resume_bytes : bytes)
    (job_desc : str) :
  (forall e, resume_parser_agent resume_bytes = Raise e ->
     run_analysis resume_parser_agent job_parser_agent content_enhancer_agent
                  matcher_and_scoring_agent embed resume_bytes job_desc = Raise e) /\
  (forall a1 e, resume_parser_agent resume_bytes = Ok a1 ->
     job_parser_agent job_desc = Raise e ->
     run_analysis resume_parser_agent job_parser_agent content_enhancer_agent
                  matcher_and_scoring_agent embed resume_bytes job_desc = Raise e) /\
  (forall a1 a2, resume_parser_agent resume_bytes = Ok a1 ->
     job_parser_agent job_desc = Ok a2 ->
     outputs a1 !! lit "raw_text" = None ->
     run_analysis resume_parser_agent job_parser_agent content_enhancer_agent
                  matcher_and_scoring_agent embed resume_bytes job_desc = Raise KeyError).
Proof.
  unfold run_analysis. split; [|split].
  - intros e H1. rewrite H1. reflexivity.
  - intros a1 e H1 H2. rewrite H1. cbn [bind]. rewrite H2. reflexivity.
  - intros a1 a2 H1 H2 Hraw. rewrite H1. cbn [bind]. rewrite H2. cbn [bind].
    unfold getitem. rewrite Hraw. reflexivity.
Qed.

End TraceFacts.

Lemma run_analysis_succeeds_iff_witness :
  exists tr a1 a2 a3 a4,
    agents.run [lit "Ada Lovelace"] (lit "python") = Ok tr /\
    tr = {| steps := [a1; a2; a3; a4];
            edges := [(name a1, name a2); (name a2, name a3); (name a3, name a4)] |}.
Proof.
  assert (Hrun : exists tr, agents.run [lit "Ada Lovelace"] (lit "python") = Ok tr).
  { eexists. vm_compute. reflexivity. }
  destruct Hrun as [tr Hrun].
  destruct (proj1 (run_analysis_succeeds_iff agents.resume_parser_agent
                     agents.job_parser_agent agents.content_enhancer_agent
                     agents.matcher_and_scoring_agent
                     tt [lit "Ada Lovelace"] (lit "python") tr) Hrun)
    as (a1 & a2 & a3 & a4 & raw & rs & js & _ & _ & _ & _ & _ & _ & _ & Htr).
  exists tr, a1, a2, a3, a4. split; [exact Hrun|exact Htr].
Defined.

Lemma run_analysis_first_failure_witness :
  run_analysis (fun _ : unit => Ok (agents.stage "ParseResume" [] [(lit "skills", [])]))
               agents.job_parser_agent agents.content_enhancer_agent
               agents.matcher_and_scoring_agent tt tt (lit "python")
  = Raise KeyError.
Proof.
  apply (proj2 (proj2 (run_analysis_first_failure
                         (fun _ : unit => Ok (agents.stage "ParseResume" [] [(lit "skills", [])]))
                         agents.job_parser_agent agents.content_enhancer_agent
                         agents.matcher_and_scoring_agent tt tt (lit "python")))
           (agents.stage "ParseResume" [] [(lit "skills", [])])
           (agents.stage "ParseJob" [(lit "job_text", [lit "python"])] [(lit "skills", [])])).
  - reflexivity.
  - reflexivity.
  - vm_compute. reflexivity.
Defined.

(** * Further properties of the hashing embedding *)

(** The instance [sha1] on the test vector of FIPS 180: the digest of
    "abc" is a9993e36 4706816a ba3e2571 7850c26c 9cd0d89d, and the token
    "python" falls in bucket 123 of 768. *)
Example sha1_abc :
  sha1 (lit "abc")
  = [0xa9; 0x99; 0x3e; 0x36; 0x47; 0x06; 0x81; 0x6a; 0xba; 0x3e;
     0x25; 0x71; 0x78; 0x50; 0xc2; 0x6c; 0x9c; 0xd0; 0xd8; 0x9d]%N /\
  @_hash_to_index sha1 (init 768) (lit "python") = Ok 123%Z.
Proof. split; vm_compute; reflexivity. Qed.

Lemma token_char_ascii (c : N) : token_char c = true -> (c < 128)%N.
Proof.
  unfold token_char, between, one_of, chr. simpl.
  rewrite !orb_true_iff, !andb_true_iff, !N.leb_le, !N.eqb_eq. lia.
Qed.

Lemma encode_utf8_ascii (s : str) :
  Forall (fun c => (c < 128)%N) s -> encode_utf8 s = s.
Proof.
  unfold encode_utf8. induction 1 as [|c s Hc Hs IH]; simpl; [reflexivity|].
  unfold utf8_char at 1.
  replace (c <? 128)%N with true by (symmetry; apply N.ltb_lt; exact Hc).
  simpl. rewrite IH. reflexivity.
Qed.

Section HashingFacts.
Context {E F : Type} `{PyFloat F} `{NumPy E F} {L : Lower} {S1 : Sha1}.

(** X21.  For a token of the tokenizer, which is ASCII text and so has an
    encoding, the bucket lies within the vector for every positive
    dimension; for the dimension 0 the hashing raises
    ZeroDivisionError. *)
Theorem hash_to_index_bounds (d : Z) (text token : str) :
  In token (_tokenize (init d) text) ->
  encode_utf8 token = token /\
  ((0 < d)%Z -> exists i, _hash_to_index (init d) token = Ok i /\ (0 <= i < d)%Z) /\
  (d = 0%Z -> _hash_to_index (init d) token = Raise ZeroDivisionError).
Proof.
  intros Hin. split; [|split].
  - unfold _tokenize in Hin.
    pose proof (findall_class_tokens token_char (str_lower text)) as Hall.
    rewrite List.Forall_forall in Hall. destruct (Hall token Hin) as [_ Hcls].
    apply encode_utf8_ascii, List.Forall_forall. intros c Hc.
    rewrite forallb_forall in Hcls. apply token_char_ascii, Hcls, Hc.
  - apply hash_to_index_range.
  - intros ->. reflexivity.
Qed.

(** X22.  Every token is ASCII: its UTF-8 encoding, the bytes that are
    hashed, is the token itself. *)
Theorem tokens_are_ascii (self : _LocalHashingEmbeddings) (text tok : str) :
  In tok (_tokenize self text) ->
  tok <> [] /\ Forall (fun c => (c < 128)%N) tok /\ encode_utf8 tok = tok.
Proof.
  intros Hin. unfold _tokenize in Hin.
  pose proof (findall_class_tokens token_char (str_lower text)) as Hall.
  rewrite List.Forall_forall in Hall. destruct (Hall tok Hin) as [Hne Hcls].
  assert (Hascii : Forall (fun c => (c < 128)%N) tok).
  { apply List.Forall_forall. intros c Hc.
    rewrite forallb_forall in Hcls. apply token_char_ascii, Hcls, Hc. }
  split; [exact Hne|]. split; [exact Hascii|]. apply encode_utf8_ascii, Hascii.
Qed.

(** X23.  For the dimension 768 of the service, [embed_documents] raises
    nothing and returns one vector per text, each of 768 numbers.  For any
    dimension [d], a list that [embed_documents] returns has one vector per
    text, each of [d] numbers. *)
Theorem embed_documents_shape :
  (forall texts : list str,
      exists vectors : list (list F),
        embed_documents (init 768) texts = Ok vectors /\
        length vectors = length texts /\
        Forall (fun v => length v = 768) vectors) /\
  (forall (d : Z) (texts : list str) (vectors : list (list F)),
      embed_documents (init d) texts = Ok vectors ->
      length vectors = length texts /\
      Forall (fun v => length v = Z.to_nat d) vectors).
Proof.
  split.
  - intros texts.
    assert (Hdoc : forall t, exists v : list F,
               embed_document (init 768) t = Ok v /\ length v = 768)
      by (intros t; apply (embed_document_length 768 t); lia).
    set (g := fun t => match embed_document (init 768) t with
                       | Ok v => v | Raise _ => ([] : list F) end).
    assert (Hg : forall t, embed_document (init 768) t = Ok (g t)).
    { intros t. unfold g. destruct (Hdoc t) as (v & Hv & _). rewrite Hv. reflexivity. }
    exists (List.map g texts). split; [|split].
    + unfold embed_documents. rewrite (embed_loop_map _ g texts [] Hg). reflexivity.
    + apply length_map.
    + apply List.Forall_forall. intros v Hv. apply in_map_iff in Hv as (t & <- & _).
      unfold g. destruct (Hdoc t) as (v & Hv & Hlen). rewrite Hv. exact Hlen.
  - intros d texts vectors Hv. unfold embed_documents in Hv.
    destruct (embed_loop_ok_shape d texts [] vectors Hv) as [Hlen Hall].
    split; [exact Hlen|]. apply Hall. constructor.
Qed.

(** X24.  The dimensions that are not positive.  Without texts nothing is
    raised, whatever the dimension.  With a first text, a negative
    dimension raises ValueError, and the dimension 0 raises
    ZeroDivisionError when the text has a token. *)
Theorem embed_documents_bad_dimension (d : Z) (t : str) (texts : list str) :
  @embed_documents E F _ _ L S1 (init d) [] = Ok [] /\
  ((d < 0)%Z -> @embed_documents E F _ _ L S1 (init d) (t :: texts) = Raise ValueError) /\
  (d = 0%Z -> _tokenize (init d) t <> [] ->
   @embed_documents E F _ _ L S1 (init d) (t :: texts) = Raise ZeroDivisionError).
Proof.
  split; [reflexivity|]. split.
  - intros Hd. unfold embed_documents. cbn [embed_loop].
    unfold embed_document, np_zeros. cbn [_dimension init].
    replace (d <? 0)%Z with true by (symmetry; apply Z.ltb_lt; exact Hd).
    reflexivity.
  - intros -> Htok. unfold embed_documents. cbn [embed_loop].
    unfold embed_document, np_zeros. cbn [_dimension init bind].
    assert (Hor : list_or t [] = t) by (destruct t; reflexivity).
    rewrite Hor. cbn [Z.ltb Z.compare bind].
    destruct (_tokenize (init 0) t) as [|tok toks]; [contradiction|].
    reflexivity.
Qed.

(** X25.  A text without a token, the empty text or one of whitespace and
    punctuation, is embedded as the zero vector, and its embedding hashes
    nothing. *)
Theorem embed_document_no_token (d : nat) (t : str) :
  findall_class token_char (str_lower t) = [] ->
  @embed_documents E F _ _ L S1 (init (Z.of_nat d)) [t]
  = Ok [replicate d (np_float np_zero)].
Proof.
  intros Htok. unfold embed_documents. cbn [embed_loop].
  unfold embed_document, np_zeros, _tokenize. cbn [_dimension init].
  assert (Hor : list_or t [] = t) by (destruct t; reflexivity).
  rewrite Hor, Htok.
  replace (Z.of_nat d <? 0)%Z with false by (symmetry; apply Z.ltb_ge; lia).
  cbn [bind app]. rewrite Nat2Z.id.
  assert (Hmap : forall n, List.map np_float (replicate n np_zero)
                           = replicate n (np_float np_zero)).
  { induction n as [|n IH]; simpl; [reflexivity|]. rewrite IH. reflexivity. }
  rewrite Hmap. reflexivity.
Qed.

End HashingFacts.

Lemma tokens_are_ascii_witness :
  lit "c++" <> [] /\ Forall (fun c => (c < 128)%N) (lit "c++") /\
  encode_utf8 (lit "c++") = lit "c++".
Proof.
  apply (@tokens_are_ascii lower_ascii (init 768) (lit "Python and C++") (lit "c++")).
  vm_compute. right. right. left. reflexivity.
Defined.

Lemma hash_to_index_bounds_witness :
  encode_utf8 (lit "python") = lit "python" /\
  ((0 < 768)%Z ->
   exists i, @_hash_to_index sha1 (init 768) (lit "python") = Ok i /\ (0 <= i < 768)%Z) /\
  (768%Z = 0%Z -> @_hash_to_index sha1 (init 768) (lit "python") = Raise ZeroDivisionError).
Proof.
  apply (@hash_to_index_bounds lower_ascii sha1 768 (lit "Python and C++") (lit "python")).
  vm_compute. left. reflexivity.
Defined.

Lemma embed_documents_bad_dimension_witness :
  @embed_documents R R R_float np_real lower_ascii sha1 (init (-1)) [lit "python"]
  = Raise ValueError.
Proof.
  apply (proj1 (proj2 (@embed_documents_bad_dimension R R R_float np_real lower_ascii sha1
                         (-1) (lit "python") []))).
  lia.
Defined.

Lemma embed_document_no_token_witness :
  @embed_documents R R R_float np_real lower_ascii sha1 (init (Z.of_nat 3)) [lit " , ! "]
  = Ok [replicate 3 0%R].
Proof.
  apply (@embed_document_no_token R R R_float np_real lower_ascii sha1 3 (lit " , ! ")).
  vm_compute. reflexivity.
Defined.

(** * The embedding over the real numbers *)

Section RealEmbedding.
Context {L : Lower} {S1 : Sha1}.
#[local] Existing Instance np_real.
Local Open Scope R_scope.

Lemma add_at_positive (vec vec' : list R) (i : Z) (y : R) :
  0 < y -> Forall (fun x => 0 <= x) vec ->
  @add_at R R np_real vec i y = Ok vec' ->
  Forall (fun x => 0 <= x) vec' /\ Exists (fun x => 0 < x) vec'.
Proof.
  intros Hy Hvec. unfold add_at.
  destruct (vec !! Z.to_nat i) as [x|] eqn:Hx; [|discriminate].
  intros [= <-].
  assert (Hx0 : 0 <= x).
  { rewrite List.Forall_forall in Hvec. apply Hvec.
    apply list_elem_of_In. exact (list_elem_of_lookup_2 _ _ _ Hx). }
  split.
  - apply Forall_insert; [exact Hvec|]. simpl. lra.
  - apply List.Exists_exists. exists (np_add x y). split; [|simpl; lra].
    apply list_elem_of_In, (list_elem_of_lookup_2 _ (Z.to_nat i)).
    apply list_lookup_insert_eq. exact (lookup_lt_Some _ _ _ Hx).
Qed.

Lemma count_tokens_positive (d : Z) (tokens : list str) (vec out : list R) :
  tokens <> [] -> Forall (fun x => 0 <= x) vec ->
  @count_tokens R R R_float np_real S1 (init d) tokens vec = Ok out ->
  Forall (fun x => 0 <= x) out /\ Exists (fun x => 0 < x) out.
Proof.
  revert vec; induction tokens as [|tok tokens IH]; intros vec Hne Hvec; [congruence|].
  cbn [count_tokens]. intros Hout.
  apply bind_ok in Hout as (i & Hi & Hout).
  apply bind_ok in Hout as (vec' & Hadd & Hout).
  assert (Hone : 0 < @dec R R_float 10 1) by (rewrite dec_R_one; lra).
  destruct (add_at_positive vec vec' i _ Hone Hvec Hadd) as [Hnn Hpos].
  destruct tokens as [|tok' tokens].
  - cbn [count_tokens] in Hout. injection Hout as <-. split; assumption.
  - apply (IH vec'); [discriminate|exact Hnn|exact Hout].
Qed.

Lemma positive_norm (v : list R) : Exists (fun x => 0 < x) v -> 0 < norm v.
Proof.
  intros Hex. pose proof (norm_nonneg v) as Hn.
  assert (Hne : norm v <> 0).
  { apply norm_nonzero. apply List.Exists_exists in Hex as (x & Hin & Hx).
    apply List.Exists_exists. exists x. split; [exact Hin|lra]. }
  lra.
Qed.

Lemma normalised (v : list R) :
  0 < norm v -> norm (List.map (fun x => x / norm v) v) = 1.
Proof.
  intros Hn.
  rewrite (map_ext _ (Rmult (/ norm v))) by (intros x; unfold Rdiv; apply Rmult_comm).
  rewrite norm_scale by (left; apply Rinv_0_lt_compat; exact Hn).
  apply Rinv_l. lra.
Qed.

(** The vector of one text: no component is negative, and it has norm 1
    when the text has a token and is the zero vector when it has none. *)
Lemma embed_document_real (d : nat) (t : str) :
  (0 < d)%nat ->
  exists v,
    @embed_document R R R_float np_real L S1 (init (Z.of_nat d)) t = Ok v /\
    Forall (fun x => 0 <= x) v /\
    (@_tokenize L (init (Z.of_nat d)) t <> [] -> norm v = 1) /\
    (@_tokenize L (init (Z.of_nat d)) t = [] -> Forall (fun x => x = 0) v).
Proof.
  intros Hd. unfold embed_document, np_zeros. cbn [_dimension init].
  replace (Z.of_nat d <? 0)%Z with false by (symmetry; apply Z.ltb_ge; lia).
  cbn [bind]. rewrite Nat2Z.id.
  assert (Hor : list_or t [] = t) by (destruct t; reflexivity). rewrite Hor.
  assert (Hzero : Forall (fun x => 0 <= x) (replicate d (@np_zero R R np_real)))
    by (apply Forall_replicate; simpl; lra).
  destruct (_tokenize (init (Z.of_nat d)) t) as [|tok tokens] eqn:Htok.
  - cbn [bind]. eexists. split; [reflexivity|].
    rewrite map_id. split; [exact Hzero|]. split; [congruence|].
    intros _. apply Forall_replicate. reflexivity.
  - destruct (@count_tokens_length R R R_float np_real S1 d (tok :: tokens)
                (replicate d np_zero) Hd (length_replicate _ _))
      as (vec & Hvec & Hlen).
    rewrite Hvec. cbn [bind].
    assert (Hne : tok :: tokens <> []) by discriminate.
    destruct (count_tokens_positive (Z.of_nat d) (tok :: tokens) _ vec Hne Hzero Hvec)
      as [Hnn Hpos].
    pose proof (positive_norm vec Hpos) as Hnorm.
    change (np_norm vec) with (norm vec).
    replace (fltb (of_int 0) (norm vec)) with true
      by (symmetry; apply fltb_R_true; exact Hnorm).
    cbn [bind]. eexists. split; [reflexivity|].
    rewrite map_id. change (fun x : R => np_div x (norm vec)) with (fun x => x / norm vec).
    split; [|split].
    + apply List.Forall_forall. intros y Hy. apply in_map_iff in Hy as (x & <- & Hx).
      rewrite List.Forall_forall in Hnn. specialize (Hnn x Hx).
      apply Rmult_le_pos; [exact Hnn|]. left. apply Rinv_0_lt_compat. exact Hnorm.
    + intros _. apply normalised, Hnorm.
    + discriminate.
Qed.

(** X26.  Over the reals, for a positive dimension: the vector of a text
    has no negative component; it has length 1 (the L2 norm) when the text
    has a token and is the zero vector when it has none. *)
Theorem embed_documents_unit (d : nat) (texts : list str) :
  (0 < d)%nat ->
  exists vectors,
    @embed_documents R R R_float np_real L S1 (init (Z.of_nat d)) texts = Ok vectors /\
    Forall2 (fun t v =>
               Forall (fun x => 0 <= x) v /\
               (@_tokenize L (init (Z.of_nat d)) t <> [] -> norm v = 1) /\
               (@_tokenize L (init (Z.of_nat d)) t = [] -> Forall (fun x => x = 0) v))
            texts vectors.
Proof.
  intros Hd.
  set (g := fun t => match @embed_document R R R_float np_real L S1 (init (Z.of_nat d)) t with
                     | Ok v => v | Raise _ => [] end).
  assert (Hg : forall t, @embed_document R R R_float np_real L S1 (init (Z.of_nat d)) t
                         = Ok (g t)).
  { intros t. unfold g. destruct (embed_document_real d t Hd) as (v & Hv & _).
    rewrite Hv. reflexivity. }
  exists (List.map g texts). split.
  - unfold embed_documents. rewrite (embed_loop_map _ g texts [] Hg). reflexivity.
  - induction texts as [|t texts IH]; constructor; [|exact IH].
    destruct (embed_document_real d t Hd) as (v & Hv & Hfacts).
    unfold g. rewrite Hv. exact Hfacts.
Qed.

(** X27.  With the hashing embedding the confidence does have its floor:
    the vectors of two texts, scored against each other, have a
    similarity between 0 and 1 and so a confidence between 0.5 and 1. *)
Theorem hashing_confidence_floor (resume_text job_text : str) (rs js : list str) :
  exists v w r,
    @embed_documents R R R_float np_real L S1 (init 768) [resume_text; job_text]
    = Ok [v; w] /\
    compute_match_score v w rs js = Ok r /\
    0 <= similarity r <= 1 /\
    1 / 2 <= confidence r <= 1.
Proof.
  assert (H768 : (0 < 768)%nat) by lia.
  destruct (embed_document_real 768 resume_text H768) as (v & Hv & Hvn & _).
  destruct (embed_document_real 768 job_text H768) as (w & Hw & Hwn & _).
  destruct (compute_match_score_value v w rs js)
    as (r & Hr & Hsim & _ & _ & Hconf & _).
  exists v, w, r. split; [|split; [exact Hr|]].
  - unfold embed_documents. cbn [embed_loop].
    change (Z.of_nat 768) with 768%Z in Hv, Hw. rewrite Hv. cbn [bind]. rewrite Hw.
    reflexivity.
  - assert (Hs : 0 <= similarity r <= 1).
    { split; [|rewrite Hsim; apply cosine_bounds].
      rewrite Hsim. apply Rmult_le_pos; [apply dot_nonneg; assumption|].
      left. apply Rinv_0_lt_compat, denominator_pos. }
    split; [exact Hs|]. rewrite Hconf, Rmin_left; lra.
Qed.

End RealEmbedding.

Lemma embed_documents_unit_witness :
  exists vectors,
    @embed_documents R R R_float np_real lower_ascii sha1 (init (Z.of_nat 768))
      [lit "python sql"; lit ""] = Ok vectors /\
    Forall2 (fun t v =>
               Forall (fun x => 0 <= x)%R v /\
               (@_tokenize lower_ascii (init (Z.of_nat 768)) t <> [] -> norm v = 1%R) /\
               (@_tokenize lower_ascii (init (Z.of_nat 768)) t = []
                -> Forall (fun x => x = 0%R) v))
            [lit "python sql"; lit ""] vectors.
Proof.
  apply (@embed_documents_unit lower_ascii sha1 768). lia.
Defined.

(** * The embedding service *)

Lemma startswith_app (p s : str) : startswith p (p ++ s) = true.
Proof.
  induction p as [|c p IH]; simpl; [reflexivity|].
  rewrite N.eqb_refl, IH. reflexivity.
Qed.

Section ServiceFacts.
Context {E F : Type} `{PyFloat F} `{NumPy E F} {L : Lower} {S1 : Sha1}.

Lemma clean_text (t : str) : match t with [] => [] | _ => strip t end = strip t.
Proof. destruct t; reflexivity. Qed.

(** X28.  With the local backend a query is always embedded, as a vector
    of 768 numbers, the dimension the service reports; whitespace around
    the text changes nothing, the text is stripped before it is
    embedded. *)
Theorem embed_query_local (text : str) :
  let self := {| _backend := @LocalBackend F (init 768) |} in
  exists v : list F,
    embed_query self text = Ok v /\
    Z.of_nat (length v) = service_dimension self /\
    embed_query self (strip text) = Ok v /\
    embed_texts self [text; strip text] = Ok [v; v].
Proof.
  intros self.
  destruct (@embed_document_length E F _ _ L S1 768 (strip text)) as (v & Hv & Hlen); [lia|].
  change (Z.of_nat 768) with 768%Z in Hv.
  exists v.
  assert (Hq : forall t, strip t = strip text -> embed_query self t = Ok v).
  { intros t Ht. unfold embed_query, embed_texts. cbn [_backend self List.map].
    rewrite clean_text, Ht. unfold embed_documents. cbn [embed_loop].
    rewrite Hv. reflexivity. }
  split; [apply Hq; reflexivity|].
  split; [unfold service_dimension; rewrite Hlen; reflexivity|].
  split; [apply Hq, strip_idempotent|].
  unfold embed_texts. cbn [_backend self List.map].
  rewrite !clean_text, strip_idempotent. unfold embed_documents. cbn [embed_loop].
  rewrite Hv. reflexivity.
Qed.

(** X29.  How the service chooses its backend.  The remote client is used
    only when a key that is not empty is found, [GEMINI_API_KEY] before
    [GOOGLE_API_KEY], and the constructor, called with that key and a model
    name that starts with "models/", succeeds; in every other case, a
    failed import or a constructor that raises among them, the service
    falls back to the local embeddings of dimension 768 and raises
    nothing. *)
Theorem EmbeddingService_init_backend (environ : gmap str str)
    (G : option (str -> str -> result (list str -> result (list (list F))))) :
  let self := EmbeddingService_init environ G in
  let api_key :=
    getenv_or (environ !! lit "GEMINI_API_KEY") (environ !! lit "GOOGLE_API_KEY") in
  startswith (lit "models/") (model_name_of environ) = true /\
  (_backend self = LocalBackend (init 768) \/
   exists construct key client,
     G = Some construct /\ key <> [] /\ api_key = Some key /\
     construct (model_name_of environ) key = Ok client /\
     _backend self = RemoteBackend client) /\
  (G = None -> _backend self = LocalBackend (init 768)) /\
  (api_key = None \/ api_key = Some [] -> _backend self = LocalBackend (init 768)) /\
  (forall construct key e,
     G = Some construct -> api_key = Some key ->
     construct (model_name_of environ) key = Raise e ->
     _backend self = LocalBackend (init 768)).
Proof.
  intros self api_key. subst self. unfold EmbeddingService_init. fold api_key.
  split.
  { unfold model_name_of.
    destruct (startswith (lit "models/") (strip (DEFAULT_GEMINI_EMBED_MODEL environ))) eqn:Hs;
      [exact Hs|apply startswith_app]. }
  split; [|split; [|split]].
  - destruct api_key as [[|c key]|]; try (left; reflexivity).
    destruct G as [construct|]; [|left; reflexivity].
    destruct (construct (model_name_of environ) (c :: key)) as [client|e] eqn:Hc;
      [|left; reflexivity].
    right. exists construct, (c :: key), client.
    repeat split; [discriminate|exact Hc].
  - intros ->. destruct api_key as [[|c key]|]; reflexivity.
  - intros [->| ->]; reflexivity.
  - intros construct key e -> -> Hc. destruct key as [|c key]; [reflexivity|].
    rewrite Hc. reflexivity.
Qed.

End ServiceFacts.

Lemma EmbeddingService_init_backend_witness :
  _backend (@EmbeddingService_init R
              (<[lit "GEMINI_API_KEY" := lit "secret"]> ∅)
              (Some (fun _ _ => Raise ValueError)))
  = LocalBackend (init 768).
Proof.
  apply (proj2 (proj2 (proj2 (proj2
           (@EmbeddingService_init_backend R
              (<[lit "GEMINI_API_KEY" := lit "secret"]> ∅)
              (Some (fun _ _ => Raise ValueError))))))
           (fun _ _ => Raise ValueError) (lit "secret") ValueError).
  - reflexivity.
  - vm_compute. reflexivity.
  - reflexivity.
Defined.
